(** * BlackRoad collab board: task orchestration and self-healing engine

    A shallow embedding of the three Durable Objects of the repository,
    [AgentCoordinator], [JobQueue] (both in
    [src/durable-objects/AgentCoordinator.ts]) and [SelfHealer]
    ([src/durable-objects/SelfHealer.ts]), followed by the properties of the
    specification that concern them.

    Modelling conventions, shared by the whole file:

    - A Durable Object serves one request at a time; every handler is a
      function from the in-memory state before the request to the response
      and the in-memory state after it.  [persist] only copies that state to
      storage and is not modelled.
    - [Date.now()] / [new Date()] is the parameter [now], in milliseconds; an
      ISO timestamp string is the number of milliseconds it denotes (the two
      convert into each other without loss).  One handler invocation reads
      the clock once.
    - [crypto.randomUUID()] is the parameter [uuid] of the handler.
    - JS numbers that count things are integers ([Z]).
    - A JS string is a [string]: a sequence of code units below 256.
    - A JS [Map] is an insertion-ordered association list ([JsMap]).  Objects
      held in a [Map] are mutated in place by the handlers; since every
      handler writes the object back under the key it was read from, in-place
      mutation is [JsMap.set] at that key.
    - Opaque JSON payloads are carried as their serialised text. *)

From Stdlib Require Import String Ascii List ZArith Bool Lia DecimalString.
Import ListNotations.
Open Scope string_scope.
Open Scope Z_scope.

Definition Json := string.
Definition Timestamp := Z.

(** ** Insertion-ordered maps with string keys (the JS [Map]) *)

Module JsMap.

Definition t (V : Type) := list (string * V).

Definition empty {V} : t V := [].

Fixpoint get {V} (k : string) (m : t V) : option V :=
  match m with
  | [] => None
  | (k', v) :: rest => if String.eqb k k' then Some v else get k rest
  end.

(** [Map.prototype.set]: an existing key keeps its position, a new key goes
    last. *)
Fixpoint set {V} (k : string) (v : V) (m : t V) : t V :=
  match m with
  | [] => [(k, v)]
  | (k', v') :: rest =>
      if String.eqb k k' then (k, v) :: rest else (k', v') :: set k v rest
  end.

Fixpoint delete {V} (k : string) (m : t V) : t V :=
  match m with
  | [] => []
  | (k', v') :: rest =>
      if String.eqb k k' then rest else (k', v') :: delete k rest
  end.

Definition has {V} (k : string) (m : t V) : bool :=
  match get k m with Some _ => true | None => false end.

Definition keys {V} (m : t V) : list string := map fst m.
Definition values {V} (m : t V) : list V := map snd m.
Definition size {V} (m : t V) : Z := Z.of_nat (length m).

End JsMap.

(** JS truthiness of an optional string: set and not empty. *)
Definition truthy (s : option string) : bool :=
  match s with
  | Some v => negb (String.eqb v EmptyString)
  | None => false
  end.

(** [Array.prototype.includes] on strings. *)
Definition includes (l : list string) (x : string) : bool :=
  existsb (String.eqb x) l.

(** ** The agent coordinator *)

Module AgentCoordinator.

Inductive AgentStatus := Idle | Busy | Error | Offline.

Inductive AgentType := Scraper | Analyzer | Fixer | Syncer | Monitor | Healer.

Inductive AgentTaskStatus :=
  Pending | Running | Completed | Failed | Retrying | Cancelled.

Inductive Priority := Low | Normal | High | Critical.

Definition agentTypeName (t : AgentType) : string :=
  match t with
  | Scraper => "scraper"
  | Analyzer => "analyzer"
  | Fixer => "fixer"
  | Syncer => "syncer"
  | Monitor => "monitor"
  | Healer => "healer"
  end.

Definition agentStatus_eqb (x y : AgentStatus) : bool :=
  match x, y with
  | Idle, Idle | Busy, Busy | Error, Error | Offline, Offline => true
  | _, _ => false
  end.

Definition taskStatus_eqb (x y : AgentTaskStatus) : bool :=
  match x, y with
  | Pending, Pending | Running, Running | Completed, Completed
  | Failed, Failed | Retrying, Retrying | Cancelled, Cancelled => true
  | _, _ => false
  end.

Record AgentState := mkAgent {
  a_id : string;
  a_name : string;
  a_type : AgentType;
  a_status : AgentStatus;
  a_currentTaskId : option string;
  a_capabilities : list string;
  a_lastHeartbeat : Timestamp;
  a_tasksCompleted : Z;
  a_tasksFailed : Z;
  a_createdAt : Timestamp
}.

Record AgentTask := mkTask {
  t_id : string;
  t_agentId : string;
  t_type : string;
  t_description : string;
  t_status : AgentTaskStatus;
  t_input : Json;
  t_output : option Json;
  t_error : option string;
  t_createdAt : Timestamp;
  t_startedAt : option Timestamp;
  t_completedAt : option Timestamp;
  t_parentTaskId : option string;
  t_childTaskIds : option (list string)
}.

(** The three in-memory fields of the class. *)
Record Coordinator := mkCoordinator {
  agents : JsMap.t AgentState;
  tasks : JsMap.t AgentTask;
  taskQueue : list string
}.

Definition init : Coordinator := mkCoordinator [] [] [].

Record Env := mkEnv { SELF_HEAL_ENABLED : string }.

(** The body posted to the healer's [/task-failed]. *)
Record TaskFailedReport := mkReport {
  r_taskId : string;
  r_taskType : string;
  r_error : option string;
  r_timestamp : Timestamp
}.

Inductive Response :=
| RegisterOk (agentId : string) (agent : AgentState)
| HeartbeatOk
| SubmitOk (taskId : string) (task : AgentTask)
| NextTask (task : AgentTask)
| NoTask (reason : string)
| TaskOk (task : AgentTask)
| NotFound (message : string)
| ServerError.

(** *** Field writes *)

Definition withHeartbeat (a : AgentState) (now : Timestamp)
    (status : option AgentStatus) : AgentState :=
  mkAgent (a_id a) (a_name a) (a_type a)
    (match status with Some st => st | None => a_status a end)
    (a_currentTaskId a) (a_capabilities a) now
    (a_tasksCompleted a) (a_tasksFailed a) (a_createdAt a).

Definition withStatus (a : AgentState) (st : AgentStatus) : AgentState :=
  mkAgent (a_id a) (a_name a) (a_type a) st
    (a_currentTaskId a) (a_capabilities a) (a_lastHeartbeat a)
    (a_tasksCompleted a) (a_tasksFailed a) (a_createdAt a).

(** [agent.status = 'busy'; agent.currentTaskId = taskId]. *)
Definition assignedAgent (a : AgentState) (taskId : string) : AgentState :=
  mkAgent (a_id a) (a_name a) (a_type a) Busy
    (Some taskId) (a_capabilities a) (a_lastHeartbeat a)
    (a_tasksCompleted a) (a_tasksFailed a) (a_createdAt a).

(** [agent.status = 'idle'; agent.currentTaskId = undefined;
    agent.tasksCompleted++]. *)
Definition releasedCompleted (a : AgentState) : AgentState :=
  mkAgent (a_id a) (a_name a) (a_type a) Idle
    None (a_capabilities a) (a_lastHeartbeat a)
    (a_tasksCompleted a + 1) (a_tasksFailed a) (a_createdAt a).

(** [agent.status = 'idle'; agent.currentTaskId = undefined;
    agent.tasksFailed++]. *)
Definition releasedFailed (a : AgentState) : AgentState :=
  mkAgent (a_id a) (a_name a) (a_type a) Idle
    None (a_capabilities a) (a_lastHeartbeat a)
    (a_tasksCompleted a) (a_tasksFailed a + 1) (a_createdAt a).

(** [task.agentId = agentId; task.status = 'running';
    task.startedAt = now]. *)
Definition startedTask (t : AgentTask) (agentId : string)
    (now : Timestamp) : AgentTask :=
  mkTask (t_id t) agentId (t_type t) (t_description t) Running
    (t_input t) (t_output t) (t_error t) (t_createdAt t) (Some now)
    (t_completedAt t) (t_parentTaskId t) (t_childTaskIds t).

(** [task.status = 'completed'; task.output = output;
    task.completedAt = now]. *)
Definition completedTask (t : AgentTask) (output : Json)
    (now : Timestamp) : AgentTask :=
  mkTask (t_id t) (t_agentId t) (t_type t) (t_description t) Completed
    (t_input t) (Some output) (t_error t) (t_createdAt t) (t_startedAt t)
    (Some now) (t_parentTaskId t) (t_childTaskIds t).

(** [task.status = 'retrying'; task.agentId = '']. *)
Definition retryingTask (t : AgentTask) : AgentTask :=
  mkTask (t_id t) EmptyString (t_type t) (t_description t) Retrying
    (t_input t) (t_output t) (t_error t) (t_createdAt t) (t_startedAt t)
    (t_completedAt t) (t_parentTaskId t) (t_childTaskIds t).

(** [task.status = 'failed'; task.error = error; task.completedAt = now]. *)
Definition failedTask (t : AgentTask) (err : string)
    (now : Timestamp) : AgentTask :=
  mkTask (t_id t) (t_agentId t) (t_type t) (t_description t) Failed
    (t_input t) (t_output t) (Some err) (t_createdAt t) (t_startedAt t)
    (Some now) (t_parentTaskId t) (t_childTaskIds t).

(** [task.status = 'pending'; task.agentId = '']. *)
Definition requeuedTask (t : AgentTask) : AgentTask :=
  mkTask (t_id t) EmptyString (t_type t) (t_description t) Pending
    (t_input t) (t_output t) (t_error t) (t_createdAt t) (t_startedAt t)
    (t_completedAt t) (t_parentTaskId t) (t_childTaskIds t).

(** *** Capability matching *)

(** What the property read [taskTypeToCapability[task.type]] yields.  The
    table is an object literal: besides its seven own keys the read also
    finds what every object inherits from [Object.prototype]. *)
Inductive TableEntry :=
| Caps (required : list string)
| ProtoFunction (arity : Z)
| ProtoObject
| Undefined.

Definition taskTypeToCapability (taskType : string) : TableEntry :=
  if String.eqb taskType "repo:scrape" then Caps ["scraper"; "analyzer"]
  else if String.eqb taskType "repo:analyze" then Caps ["analyzer"]
  else if String.eqb taskType "repo:sync" then Caps ["syncer"]
  else if String.eqb taskType "agent:resolve" then Caps ["healer"; "fixer"]
  else if String.eqb taskType "cohesion:check" then Caps ["analyzer"; "monitor"]
  else if String.eqb taskType "cohesion:fix" then Caps ["fixer"]
  else if String.eqb taskType "health:check" then Caps ["monitor"]
  else if String.eqb taskType "__proto__" then ProtoObject
  else if includes ["toString"; "valueOf"; "toLocaleString"] taskType
       then ProtoFunction 0
  else if includes ["constructor"; "hasOwnProperty"; "isPrototypeOf";
                    "propertyIsEnumerable"; "__lookupGetter__";
                    "__lookupSetter__"] taskType
       then ProtoFunction 1
  else if includes ["__defineGetter__"; "__defineSetter__"] taskType
       then ProtoFunction 2
  else Undefined.

(** [None] is the [TypeError] raised when [requiredCapabilities] is not an
    array and its [length] is not 0, so that [.includes] is called on a
    value that has no such method. *)
Definition canAgentHandleTask (agent : AgentState) (task : AgentTask)
    : option bool :=
  match taskTypeToCapability (t_type task) with
  | Caps required =>
      Some ((Z.of_nat (length required) =? 0)
            || includes required (agentTypeName (a_type agent))
            || existsb (fun c => includes required c) (a_capabilities agent))
  | Undefined => Some true
  | ProtoFunction arity => if arity =? 0 then Some true else None
  | ProtoObject => None
  end.

(** *** Scanning the backlog

    The loop [for (let i = 0; i < this.taskQueue.length; i++)] occurs twice
    in the source with the same body, in [handleGetNextTask] and in
    [tryAssignTasks].  [Hit] carries the task found and the queue after
    [splice(i, 1)]. *)
Inductive Scan :=
| Hit (taskId : string) (task : AgentTask) (queue : list string)
| Miss
| Throw.

Definition keepFront (taskId : string) (s : Scan) : Scan :=
  match s with
  | Hit i t q => Hit i t (taskId :: q)
  | Miss => Miss
  | Throw => Throw
  end.

Fixpoint scanQueue (agent : AgentState) (ts : JsMap.t AgentTask)
    (queue : list string) : Scan :=
  match queue with
  | [] => Miss
  | taskId :: rest =>
      match JsMap.get taskId ts with
      | None => keepFront taskId (scanQueue agent ts rest)
      | Some task =>
          if taskStatus_eqb (t_status task) Pending then
            match canAgentHandleTask agent task with
            | None => Throw
            | Some true => Hit taskId task rest
            | Some false => keepFront taskId (scanQueue agent ts rest)
            end
          else keepFront taskId (scanQueue agent ts rest)
      end
  end.

(** *** Handlers *)

Definition handleRegisterAgent (now : Timestamp) (uuid : string)
    (name : string) (type : AgentType) (capabilities : option (list string))
    (s : Coordinator) : Response * Coordinator :=
  let agentId := "agent-" ++ substring 0 8 uuid in
  let agent :=
    mkAgent agentId name type Idle None
      (match capabilities with Some c => c | None => [] end)
      now 0 0 now in
  (RegisterOk agentId agent,
   mkCoordinator (JsMap.set agentId agent (agents s)) (tasks s) (taskQueue s)).

Definition handleHeartbeat (now : Timestamp) (agentId : string)
    (status : option AgentStatus) (s : Coordinator)
    : Response * Coordinator :=
  match JsMap.get agentId (agents s) with
  | None => (NotFound "Agent not found", s)
  | Some agent =>
      (HeartbeatOk,
       mkCoordinator
         (JsMap.set agentId (withHeartbeat agent now status) (agents s))
         (tasks s) (taskQueue s))
  end.

(** One turn of the outer loop of [tryAssignTasks] for one idle agent; the
    boolean says whether [canAgentHandleTask] threw. *)
Definition assignOne (now : Timestamp) (agent : AgentState)
    (s : Coordinator) : Coordinator * bool :=
  match scanQueue agent (tasks s) (taskQueue s) with
  | Hit taskId task queue =>
      (mkCoordinator
         (JsMap.set (a_id agent) (assignedAgent agent taskId) (agents s))
         (JsMap.set taskId (startedTask task (a_id agent) now) (tasks s))
         queue,
       false)
  | Miss => (s, false)
  | Throw => (s, true)
  end.

Fixpoint assignAll (now : Timestamp) (idleAgents : list AgentState)
    (s : Coordinator) : Coordinator * bool :=
  match idleAgents with
  | [] => (s, false)
  | agent :: rest =>
      match assignOne now agent s with
      | (s', true) => (s', true)
      | (s', false) => assignAll now rest s'
      end
  end.

(** [idleAgents] is computed once, before the loop; the boolean of the
    result says whether the pass was cut short by an exception, in which
    case the assignments made so far stay in memory. *)
Definition tryAssignTasks (now : Timestamp) (s : Coordinator)
    : Coordinator * bool :=
  let idleAgents :=
    filter (fun a => agentStatus_eqb (a_status a) Idle)
           (JsMap.values (agents s)) in
  assignAll now idleAgents s.

(** The [task] object serialised into the response is the one stored in the
    map, read after the assignment pass. *)
Definition currentTask (taskId : string) (fallback : AgentTask)
    (s : Coordinator) : AgentTask :=
  match JsMap.get taskId (tasks s) with
  | Some t => t
  | None => fallback
  end.

Definition handleSubmitTask (now : Timestamp) (uuid : string)
    (type description : string) (input : Json)
    (priority : option Priority) (parentTaskId : option string)
    (s : Coordinator) : Response * Coordinator :=
  let taskId := "task-" ++ substring 0 12 uuid in
  let task :=
    mkTask taskId EmptyString type description Pending input None None now
           None None parentTaskId None in
  let queue :=
    match priority with
    | Some Critical | Some High => taskId :: taskQueue s
    | _ => (taskQueue s ++ [taskId])%list
    end in
  let s1 := mkCoordinator (agents s) (JsMap.set taskId task (tasks s)) queue in
  match tryAssignTasks now s1 with
  | (s2, true) => (ServerError, s2)
  | (s2, false) => (SubmitOk taskId (currentTask taskId task s2), s2)
  end.

Definition handleGetNextTask (now : Timestamp) (agentId : string)
    (s : Coordinator) : Response * Coordinator :=
  match JsMap.get agentId (agents s) with
  | None => (NotFound "Agent not found", s)
  | Some agent =>
      if negb (agentStatus_eqb (a_status agent) Idle)
      then (NoTask "Agent not idle", s)
      else
        match scanQueue agent (tasks s) (taskQueue s) with
        | Hit taskId task queue =>
            let task' := startedTask task agentId now in
            (NextTask task',
             mkCoordinator
               (JsMap.set agentId (assignedAgent agent taskId) (agents s))
               (JsMap.set taskId task' (tasks s))
               queue)
        | Miss => (NoTask "No suitable tasks", s)
        | Throw => (ServerError, s)
        end
  end.

(** The writes of [handleCompleteTask] up to and including [persist],
    before the assignment pass. *)
Definition completeWrites (now : Timestamp) (taskId agentId : string)
    (output : Json) (task : AgentTask) (agent : AgentState)
    (s : Coordinator) : Coordinator :=
  mkCoordinator
    (JsMap.set agentId (releasedCompleted agent) (agents s))
    (JsMap.set taskId (completedTask task output now) (tasks s))
    (taskQueue s).

Definition handleCompleteTask (now : Timestamp) (taskId agentId : string)
    (output : Json) (s : Coordinator) : Response * Coordinator :=
  match JsMap.get taskId (tasks s), JsMap.get agentId (agents s) with
  | Some task, Some agent =>
      let s1 := completeWrites now taskId agentId output task agent s in
      match tryAssignTasks now s1 with
      | (s2, true) => (ServerError, s2)
      | (s2, false) =>
          (TaskOk (currentTask taskId (completedTask task output now) s2), s2)
      end
  | _, _ => (NotFound "Task or agent not found", s)
  end.

Definition triggerSelfHealingForTask (env : Env) (now : Timestamp)
    (task : AgentTask) : list TaskFailedReport :=
  if String.eqb (SELF_HEAL_ENABLED env) "true"
  then [mkReport (t_id task) (t_type task) (t_error task) now]
  else [].

(** [shouldRetry] is the optional boolean of the request body; the source
    tests its truthiness.  The third component is what is sent to the
    healer. *)
Definition handleFailTask (env : Env) (now : Timestamp)
    (taskId agentId : string) (err : string) (shouldRetry : option bool)
    (s : Coordinator) : Response * Coordinator * list TaskFailedReport :=
  match JsMap.get taskId (tasks s), JsMap.get agentId (agents s) with
  | Some task, Some agent =>
      let agent' := releasedFailed agent in
      match shouldRetry with
      | Some true =>
          let task' := retryingTask task in
          (TaskOk task',
           mkCoordinator (JsMap.set agentId agent' (agents s))
                         (JsMap.set taskId task' (tasks s))
                         (taskId :: taskQueue s),
           [])
      | _ =>
          let task' := failedTask task err now in
          (TaskOk task',
           mkCoordinator (JsMap.set agentId agent' (agents s))
                         (JsMap.set taskId task' (tasks s))
                         (taskQueue s),
           triggerSelfHealingForTask env now task')
      end
  | _, _ => (NotFound "Task or agent not found", s, [])
  end.

(** *** Periodic maintenance *)

Definition staleAfter : Z := 5 * 60 * 1000.
Definition purgeAfter : Z := 24 * 60 * 60 * 1000.

(** The body of the first loop of [alarm] for one entry of [this.agents]. *)
Definition sweepAgent (now : Timestamp) (s : Coordinator)
    (entry : string * AgentState) : Coordinator :=
  let (agentId, agent) := entry in
  if (a_lastHeartbeat agent <? now - staleAfter)
     && negb (agentStatus_eqb (a_status agent) Offline)
  then
    let ags := JsMap.set agentId (withStatus agent Offline) (agents s) in
    match a_currentTaskId agent with
    | Some cur =>
        if truthy (Some cur) then
          match JsMap.get cur (tasks s) with
          | Some task =>
              if taskStatus_eqb (t_status task) Running
              then mkCoordinator ags
                     (JsMap.set cur (requeuedTask task) (tasks s))
                     (cur :: taskQueue s)
              else mkCoordinator ags (tasks s) (taskQueue s)
          | None => mkCoordinator ags (tasks s) (taskQueue s)
          end
        else mkCoordinator ags (tasks s) (taskQueue s)
    | None => mkCoordinator ags (tasks s) (taskQueue s)
    end
  else s.

(** The second loop of [alarm] keeps a task unless it is terminal, has a
    completion time, and that time is older than a day. *)
Definition keepTask (now : Timestamp) (entry : string * AgentTask) : bool :=
  let task := snd entry in
  negb ((taskStatus_eqb (t_status task) Completed
         || taskStatus_eqb (t_status task) Failed)
        && match t_completedAt task with
           | Some completedAt => completedAt <? now - purgeAfter
           | None => false
           end).

Definition alarm (now : Timestamp) (s : Coordinator) : Coordinator :=
  let s1 := fold_left (sweepAgent now) (agents s) s in
  mkCoordinator (agents s1) (filter (keepTask now) (tasks s1)) (taskQueue s1).

(** *** Requests and runs *)

Inductive Request :=
| Register (uuid name : string) (type : AgentType)
           (capabilities : option (list string))
| Heartbeat (agentId : string) (status : option AgentStatus)
| Submit (uuid type description : string) (input : Json)
         (priority : option Priority) (parentTaskId : option string)
| RequestNext (agentId : string)
| Complete (taskId agentId : string) (output : Json)
| Fail (taskId agentId err : string) (shouldRetry : option bool)
| Alarm.

(** The state after serving one request at time [now]. *)
Definition step (env : Env) (s : Coordinator)
    (ev : Timestamp * Request) : Coordinator :=
  let (now, r) := ev in
  match r with
  | Register uuid name type caps =>
      snd (handleRegisterAgent now uuid name type caps s)
  | Heartbeat agentId status => snd (handleHeartbeat now agentId status s)
  | Submit uuid type description input priority parent =>
      snd (handleSubmitTask now uuid type description input priority parent s)
  | RequestNext agentId => snd (handleGetNextTask now agentId s)
  | Complete taskId agentId output =>
      snd (handleCompleteTask now taskId agentId output s)
  | Fail taskId agentId err shouldRetry =>
      snd (fst (handleFailTask env now taskId agentId err shouldRetry s))
  | Alarm => alarm now s
  end.

Definition run (env : Env) (evs : list (Timestamp * Request))
    (s : Coordinator) : Coordinator :=
  fold_left (step env) evs s.

Definition reachable (s : Coordinator) : Prop :=
  exists env evs, run env evs init = s.

(** *** The busy invariant *)

(** The task referenced by [taskId] is running and carries the agent's id. *)
Definition holdsTask (s : Coordinator) (a : AgentState)
    (taskId : string) : bool :=
  match JsMap.get taskId (tasks s) with
  | Some t =>
      taskStatus_eqb (t_status t) Running && String.eqb (t_agentId t) (a_id a)
  | None => false
  end.

(** [status == busy] iff [currentTaskId] is set iff the referenced task is
    running for this agent, as a check on one agent. *)
Definition agentConsistent (s : Coordinator) (a : AgentState) : bool :=
  match a_currentTaskId a with
  | None => negb (agentStatus_eqb (a_status a) Busy)
  | Some taskId =>
      agentStatus_eqb (a_status a) Busy && holdsTask s a taskId
  end.

Definition busyInvariant (s : Coordinator) : Prop :=
  forall k a, JsMap.get k (agents s) = Some a -> agentConsistent s a = true.

(** Every agent is stored under its own id, as [handleRegisterAgent]
    stores it. *)
Definition keysMatch (s : Coordinator) : Prop :=
  forall k a, JsMap.get k (agents s) = Some a -> a_id a = k.

Definition wellFormed (s : Coordinator) : Prop :=
  NoDup (JsMap.keys (agents s)) /\ keysMatch s.

(** The invariant of the specification, spelled out for one agent:
    [status == busy] iff [currentTaskId] is set, iff the referenced task
    has [status == running] and [task.agentId == agent.id]. *)
Definition busyIff (s : Coordinator) (a : AgentState) : Prop :=
  (a_status a = Busy <-> a_currentTaskId a <> None)
  /\ (a_currentTaskId a <> None <->
      exists taskId t,
        a_currentTaskId a = Some taskId
        /\ JsMap.get taskId (tasks s) = Some t
        /\ t_status t = Running
        /\ t_agentId t = a_id a).

(** Some agent other than [agentId] has [taskId] as its current task. *)
Definition heldByOther (taskId agentId : string) (s : Coordinator) : bool :=
  existsb
    (fun e : string * AgentState =>
       negb (String.eqb (fst e) agentId)
       && match a_currentTaskId (snd e) with
          | Some cur => String.eqb cur taskId
          | None => false
          end)
    (agents s).

Definition staleBusy (now : Timestamp) (a : AgentState) : bool :=
  (a_lastHeartbeat a <? now - staleAfter)
  && agentStatus_eqb (a_status a) Busy.

(** The requests under which the busy invariant is kept: a heartbeat does
    not move an agent into or out of [busy]; a submitted task gets an id
    not in use; a task is completed or failed on behalf of the only agent
    that may hold it; the sweep finds no busy agent stale. *)
Definition disciplined (s : Coordinator) (ev : Timestamp * Request) : bool :=
  let (now, r) := ev in
  match r with
  | Register _ _ _ _ => true
  | Heartbeat agentId None => true
  | Heartbeat agentId (Some st) =>
      match JsMap.get agentId (agents s) with
      | Some a =>
          Bool.eqb (agentStatus_eqb st Busy) (agentStatus_eqb (a_status a) Busy)
      | None => true
      end
  | Submit uuid _ _ _ _ _ =>
      negb (JsMap.has ("task-" ++ substring 0 12 uuid) (tasks s))
  | RequestNext _ => true
  | Complete taskId agentId _ => negb (heldByOther taskId agentId s)
  | Fail taskId agentId _ _ => negb (heldByOther taskId agentId s)
  | Alarm => forallb (fun a => negb (staleBusy now a)) (JsMap.values (agents s))
  end.

Fixpoint disciplinedRun (env : Env) (evs : list (Timestamp * Request))
    (s : Coordinator) : bool :=
  match evs with
  | [] => true
  | ev :: rest => disciplined s ev && disciplinedRun env rest (step env s ev)
  end.

End AgentCoordinator.

(** ** The job queue *)

Module JobQueue.

Inductive JobType :=
| RepoScrape | RepoAnalyze | RepoSync | AgentTaskJob | AgentResolve
| CohesionCheck | CohesionFix | HealthCheck | CleanupArtifacts.

Inductive Priority := Low | Normal | High | Critical.

Inductive JobStatus := Pending | Processing | Completed | Failed | Dead.

Definition jobType_eqb (x y : JobType) : bool :=
  match x, y with
  | RepoScrape, RepoScrape | RepoAnalyze, RepoAnalyze | RepoSync, RepoSync
  | AgentTaskJob, AgentTaskJob | AgentResolve, AgentResolve
  | CohesionCheck, CohesionCheck | CohesionFix, CohesionFix
  | HealthCheck, HealthCheck | CleanupArtifacts, CleanupArtifacts => true
  | _, _ => false
  end.

Definition jobStatus_eqb (x y : JobStatus) : bool :=
  match x, y with
  | Pending, Pending | Processing, Processing | Completed, Completed
  | Failed, Failed | Dead, Dead => true
  | _, _ => false
  end.

Record QueuedJob := mkJob {
  j_id : string;
  j_type : JobType;
  j_payload : Json;
  j_priority : Priority;
  j_status : JobStatus;
  j_retryCount : Z;
  j_maxRetries : Z;
  j_createdAt : Timestamp;
  j_scheduledFor : option Timestamp;
  j_startedAt : option Timestamp;
  j_completedAt : option Timestamp;
  j_error : option string;
  j_result : option Json
}.

(** [avgProcessingTime] is written by [handleComplete] only, which is not
    part of this development; here it is carried along unchanged. *)
Record QueueStats := mkStats {
  st_pending : Z;
  st_processing : Z;
  st_completed : Z;
  st_failed : Z;
  st_dead : Z;
  st_totalProcessed : Z;
  st_avgProcessingTime : Z
}.

(** [priorityQueues]: one array of job ids per priority. *)
Record Lanes := mkLanes {
  critical : list string;
  high : list string;
  normal : list string;
  low : list string
}.

Definition lane (p : Priority) (l : Lanes) : list string :=
  match p with
  | Critical => critical l
  | High => high l
  | Normal => normal l
  | Low => low l
  end.

Definition setLane (p : Priority) (q : list string) (l : Lanes) : Lanes :=
  match p with
  | Critical => mkLanes q (high l) (normal l) (low l)
  | High => mkLanes (critical l) q (normal l) (low l)
  | Normal => mkLanes (critical l) (high l) q (low l)
  | Low => mkLanes (critical l) (high l) (normal l) q
  end.

Record Queue := mkQueue {
  jobs : JsMap.t QueuedJob;
  priorityQueues : Lanes;
  stats : QueueStats
}.

Definition init : Queue :=
  mkQueue [] (mkLanes [] [] [] []) (mkStats 0 0 0 0 0 0 0).

Record Env := mkEnv { SELF_HEAL_ENABLED : string }.

(** The body posted to the healer's [/dead-job]. *)
Record DeadJobReport := mkReport {
  r_jobId : string;
  r_jobType : JobType;
  r_error : option string;
  r_retryCount : Z;
  r_timestamp : Timestamp
}.

(** [ServerError]: the handler raised instead of returning a response. *)
Inductive Response :=
| EnqueueOk (jobId : string) (job : QueuedJob)
| DequeueOk (job : option QueuedJob)
| FailOk (job : QueuedJob) (retried : bool)
| NotFound (message : string)
| ServerError.

(** *** Counter updates *)

Definition addPending (d : Z) (st : QueueStats) : QueueStats :=
  mkStats (st_pending st + d) (st_processing st) (st_completed st)
          (st_failed st) (st_dead st) (st_totalProcessed st)
          (st_avgProcessingTime st).

Definition addProcessing (d : Z) (st : QueueStats) : QueueStats :=
  mkStats (st_pending st) (st_processing st + d) (st_completed st)
          (st_failed st) (st_dead st) (st_totalProcessed st)
          (st_avgProcessingTime st).

Definition addDead (d : Z) (st : QueueStats) : QueueStats :=
  mkStats (st_pending st) (st_processing st) (st_completed st)
          (st_failed st) (st_dead st + d) (st_totalProcessed st)
          (st_avgProcessingTime st).

(** *** Handlers *)

Definition newJob (now : Timestamp) (jobId : string) (type : JobType)
    (payload : Json) (priority : option Priority) (maxRetries : Z)
    (scheduledFor : option Timestamp) : QueuedJob :=
  mkJob jobId type payload
        (match priority with Some p => p | None => Normal end)
        Pending 0 maxRetries now scheduledFor None None None None.

(** [jobs.set], [push] on the job's lane, [stats.pending++]. *)
Definition insertJob (job : QueuedJob) (s : Queue) : Queue :=
  mkQueue (JsMap.set (j_id job) job (jobs s))
          (setLane (j_priority job)
                   (lane (j_priority job) (priorityQueues s) ++ [j_id job])%list
                   (priorityQueues s))
          (addPending 1 (stats s)).

Definition handleEnqueue (now : Timestamp) (uuid : string) (type : JobType)
    (payload : Json) (priority : option Priority) (maxRetries : option Z)
    (s : Queue) : Response * Queue :=
  let jobId := "job-" ++ substring 0 12 uuid in
  let job :=
    newJob now jobId type payload priority
           (match maxRetries with Some m => m | None => 3 end) None in
  (EnqueueOk jobId job, insertJob job s).

Definition handleSchedule (now : Timestamp) (uuid : string) (type : JobType)
    (payload : Json) (scheduledFor : Timestamp) (priority : option Priority)
    (s : Queue) : Response * Queue :=
  let jobId := "job-" ++ substring 0 12 uuid in
  let job := newJob now jobId type payload priority 3 (Some scheduledFor) in
  (EnqueueOk jobId job, insertJob job s).

(** The three [continue] tests of the inner loop of [handleDequeue]. *)
Definition eligible (now : Timestamp) (types : option (list JobType))
    (js : JsMap.t QueuedJob) (jobId : string) : bool :=
  match JsMap.get jobId js with
  | None => false
  | Some job =>
      jobStatus_eqb (j_status job) Pending
      && negb (match j_scheduledFor job with
               | Some at_ => now <? at_
               | None => false
               end)
      && match types with
         | Some ts => existsb (jobType_eqb (j_type job)) ts
         | None => true
         end
  end.

(** Front-to-back scan of one lane; the result carries the lane after
    [splice(i, 1)]. *)
Fixpoint scanLane (ok : string -> bool) (queue : list string)
    : option (string * list string) :=
  match queue with
  | [] => None
  | jobId :: rest =>
      if ok jobId then Some (jobId, rest)
      else match scanLane ok rest with
           | Some (found, rest') => Some (found, jobId :: rest')
           | None => None
           end
  end.

(** [job.status = 'processing'; job.startedAt = now]. *)
Definition startedJob (job : QueuedJob) (now : Timestamp) : QueuedJob :=
  mkJob (j_id job) (j_type job) (j_payload job) (j_priority job)
        Processing (j_retryCount job) (j_maxRetries job) (j_createdAt job)
        (j_scheduledFor job) (Some now) (j_completedAt job) (j_error job)
        (j_result job).

Fixpoint dequeueFrom (now : Timestamp) (types : option (list JobType))
    (order : list Priority) (s : Queue) : Response * Queue :=
  match order with
  | [] => (DequeueOk None, s)
  | priority :: lower =>
      match scanLane (eligible now types (jobs s))
                     (lane priority (priorityQueues s)) with
      | Some (jobId, queue) =>
          match JsMap.get jobId (jobs s) with
          | Some job =>
              let job' := startedJob job now in
              (DequeueOk (Some job'),
               mkQueue (JsMap.set jobId job' (jobs s))
                       (setLane priority queue (priorityQueues s))
                       (addProcessing 1 (addPending (-1) (stats s))))
          | None => dequeueFrom now types lower s
          end
      | None => dequeueFrom now types lower s
      end
  end.

Definition laneOrder : list Priority := [Critical; High; Normal; Low].

Definition handleDequeue (now : Timestamp) (workerId : string)
    (types : option (list JobType)) (s : Queue) : Response * Queue :=
  dequeueFrom now types laneOrder s.

(** [Math.pow(2, job.retryCount) * 1000], for a retry count that is a
    natural number, as every retry count written by the queue is; the
    statements below that depend on it assume [0 <= retryCount]. *)
Definition backoffMs (retryCount : Z) : Z := 2 ^ retryCount * 1000.

(** The largest time value of a [Date], in milliseconds from the epoch on
    either side. *)
Definition maxTime : Z := 8640000000000000.

(** [new Date(t).toISOString()]: the timestamp, or [None] for the
    [RangeError] raised when [t] is outside the range of [Date]. *)
Definition toISOString (t : Z) : option Timestamp :=
  if (- maxTime <=? t) && (t <=? maxTime) then Some t else None.

(** [body.shouldRetry !== false && job.retryCount < job.maxRetries]. *)
Definition retryPermitted (shouldRetry : option bool) (job : QueuedJob)
    : bool :=
  negb (match shouldRetry with Some false => true | _ => false end)
  && (j_retryCount job <? j_maxRetries job).

(** The job after [job.error = body.error; job.retryCount++;
    job.status = 'pending'], the writes of the retry branch that come
    before the new [scheduledFor] is computed. *)
Definition retryingJob (job : QueuedJob) (err : string) : QueuedJob :=
  mkJob (j_id job) (j_type job) (j_payload job) (j_priority job)
        Pending (j_retryCount job + 1) (j_maxRetries job) (j_createdAt job)
        (j_scheduledFor job) (j_startedAt job) (j_completedAt job)
        (Some err) (j_result job).

(** The job of a completed retry branch: [scheduledFor] is the timestamp
    that [toISOString] returned. *)
Definition retriedJob (job : QueuedJob) (err : string)
    (scheduledFor : Timestamp) : QueuedJob :=
  mkJob (j_id job) (j_type job) (j_payload job) (j_priority job)
        Pending (j_retryCount job + 1) (j_maxRetries job) (j_createdAt job)
        (Some scheduledFor)
        (j_startedAt job) (j_completedAt job) (Some err) (j_result job).

Definition deadJob (job : QueuedJob) (err : string)
    (now : Timestamp) : QueuedJob :=
  mkJob (j_id job) (j_type job) (j_payload job) (j_priority job)
        Dead (j_retryCount job) (j_maxRetries job) (j_createdAt job)
        (j_scheduledFor job) (j_startedAt job) (Some now) (Some err)
        (j_result job).

Definition triggerSelfHealingForDeadJob (env : Env) (now : Timestamp)
    (job : QueuedJob) : list DeadJobReport :=
  if String.eqb (SELF_HEAL_ENABLED env) "true"
  then [mkReport (j_id job) (j_type job) (j_error job) (j_retryCount job) now]
  else [].

(** In the retry branch the new [scheduledFor] is
    [new Date(Date.now() + backoffMs).toISOString()].  When that raises,
    the job, which is mutated in place, has its error, its incremented
    retry count and its pending status already, and [stats.processing] is
    decremented already; [scheduledFor] is not written, the id is not put
    back in its lane and [stats.pending] is not incremented. *)
Definition handleFail (env : Env) (now : Timestamp) (jobId err : string)
    (shouldRetry : option bool) (s : Queue)
    : Response * Queue * list DeadJobReport :=
  match JsMap.get jobId (jobs s) with
  | None => (NotFound "Job not found", s, [])
  | Some job =>
      let st := addProcessing (-1) (stats s) in
      if retryPermitted shouldRetry job then
        match toISOString (now + backoffMs (j_retryCount job)) with
        | Some scheduledFor =>
            let job' := retriedJob job err scheduledFor in
            (FailOk job' true,
             mkQueue (JsMap.set jobId job' (jobs s))
                     (setLane (j_priority job)
                              (jobId
                               :: lane (j_priority job) (priorityQueues s))
                              (priorityQueues s))
                     (addPending 1 st),
             [])
        | None =>
            (ServerError,
             mkQueue (JsMap.set jobId (retryingJob job err) (jobs s))
                     (priorityQueues s) st,
             [])
        end
      else
        let job' := deadJob job err now in
        (FailOk job' false,
         mkQueue (JsMap.set jobId job' (jobs s))
                 (priorityQueues s)
                 (addDead 1 st),
         triggerSelfHealingForDeadJob env now job')
  end.

(** The sweep clears [scheduledFor] of every pending job that is due. *)
Definition promote (now : Timestamp) (job : QueuedJob) : QueuedJob :=
  match j_scheduledFor job with
  | Some at_ =>
      if jobStatus_eqb (j_status job) Pending && (at_ <=? now)
      then mkJob (j_id job) (j_type job) (j_payload job) (j_priority job)
                 (j_status job) (j_retryCount job) (j_maxRetries job)
                 (j_createdAt job) None (j_startedAt job)
                 (j_completedAt job) (j_error job) (j_result job)
      else job
  | None => job
  end.

Definition alarm (now : Timestamp) (s : Queue) : Queue :=
  mkQueue (map (fun e => (fst e, promote now (snd e))) (jobs s))
          (priorityQueues s) (stats s).


(** The jobs returned by successive [handleDequeue] calls at the given
    times, with no type filter. *)
Fixpoint dequeueMany (workerId : string) (times : list Timestamp)
    (s : Queue) : list (option string) * Queue :=
  match times with
  | [] => ([], s)
  | now :: later =>
      let (resp, s') := handleDequeue now workerId None s in
      let (ids, s'') := dequeueMany workerId later s' in
      (match resp with
       | DequeueOk (Some job) => Some (j_id job)
       | _ => None
       end :: ids, s'')
  end.


(** All four lanes in the order in which [handleDequeue] visits them. *)
Definition scanOrder (l : Lanes) : list string :=
  (critical l ++ high l ++ normal l ++ low l)%list.

End JobQueue.

Module QueueScenario.

Import JobQueue.

Definition env : Env := mkEnv "true".

Definition uuidA : string := "aaaaaaaa-0000-4000-8000-00000000000a".
Definition uuidB : string := "bbbbbbbb-0000-4000-8000-00000000000b".
Definition uuidC : string := "cccccccc-0000-4000-8000-00000000000c".
Definition uuidD : string := "dddddddd-0000-4000-8000-00000000000d".

Definition jobA : string := "job-aaaaaaaa-000".

(** A queue holding one pending job with the default [maxRetries]. *)
Definition oneJob : Queue :=
  snd (handleEnqueue 1000 uuidA RepoSync "{}" (Some High) None init).



End QueueScenario.

(** ** Strings as the healer uses them *)

Module JsString.

Definition code (c : ascii) : nat := nat_of_ascii c.

Definition between (lo hi : nat) (c : ascii) : bool :=
  (Nat.leb lo (code c) && Nat.leb (code c) hi)%bool.

(** [\d] *)
Definition isDigit (c : ascii) : bool := between 48 57 c.

(** [[0-9a-f]] under the [i] flag *)
Definition isHex (c : ascii) : bool :=
  isDigit c || between 97 102 c || between 65 70 c.

(** [\s], for code units below 256: tab, line feed, vertical tab, form
    feed, carriage return, space and no-break space. *)
Definition isSpace (c : ascii) : bool :=
  between 9 13 c || Nat.eqb (code c) 32 || Nat.eqb (code c) 160.

Definition isDash (c : ascii) : bool := Ascii.eqb c "-".
Definition isQuote (c : ascii) : bool := Nat.eqb (code c) 34.

(** The double-quote character and a text between double quotes. *)
Definition dquote : ascii :=
  Ascii false true false false false true false false.

Definition quoted (s : string) : string :=
  String dquote (s ++ String dquote EmptyString).

(** [String.prototype.toLowerCase] on one code unit below 256. *)
Definition lowerChar (c : ascii) : ascii :=
  if between 65 90 c || between 192 214 c || between 216 222 c
  then ascii_of_nat (code c + 32)
  else c.

Fixpoint toLowerCase (s : string) : string :=
  match s with
  | EmptyString => EmptyString
  | String c rest => String (lowerChar c) (toLowerCase rest)
  end.

(** [String.prototype.includes]: [needle] occurs somewhere in [hay]. *)
Fixpoint contains (needle hay : string) : bool :=
  prefix needle hay
  || match hay with
     | EmptyString => false
     | String _ rest => contains needle rest
     end.

(** [hay.includes(p)] for some [p] of the list. *)
Definition containsAny (needles : list string) (hay : string) : bool :=
  existsb (fun p => contains p hay) needles.

(** *** Global regular-expression replacement

    A matcher tells how many characters the expression matches at the head
    of its argument, if it matches there; none of the expressions used can
    match the empty string.  [replaceAll] is [replace] with a [g] regex:
    it walks the text left to right, and at a position where the matcher
    succeeds it emits the replacement and resumes after the match.  [skip]
    counts the characters of the current match still to be passed over. *)
Definition Matcher := list ascii -> option nat.

Fixpoint replaceFrom (m : Matcher) (replacement : list ascii) (skip : nat)
    (s : list ascii) : list ascii :=
  match s with
  | [] => []
  | c :: rest =>
      match skip with
      | S k => replaceFrom m replacement k rest
      | O =>
          match m s with
          | Some (S len) =>
              (replacement ++ replaceFrom m replacement len rest)%list
          | _ => c :: replaceFrom m replacement O rest
          end
      end
  end.

Definition replaceAll (m : Matcher) (replacement : string)
    (s : list ascii) : list ascii :=
  replaceFrom m (list_ascii_of_string replacement) O s.

(** The text starts with one character of each class, in order. *)
Fixpoint matchClasses (shape : list (ascii -> bool)) (s : list ascii)
    : bool :=
  match shape, s with
  | [], _ => true
  | _ :: _, [] => false
  | cls :: shape', c :: s' => cls c && matchClasses shape' s'
  end.

(** Length of the longest prefix whose characters satisfy [cls] (a greedy
    [[...]*]). *)
Fixpoint span (cls : ascii -> bool) (s : list ascii) : nat :=
  match s with
  | c :: rest => if cls c then S (span cls rest) else O
  | [] => O
  end.

Fixpoint startsWith (p s : list ascii) : bool :=
  match p, s with
  | [], _ => true
  | _ :: _, [] => false
  | a :: p', c :: s' => Ascii.eqb a c && startsWith p' s'
  end.

(** [/[0-9a-f]{8}-[0-9a-f]{4}-[0-9a-f]{4}-[0-9a-f]{4}-[0-9a-f]{12}/gi] *)
Definition uuidShape : list (ascii -> bool) :=
  (repeat isHex 8 ++ [isDash] ++ repeat isHex 4 ++ [isDash]
   ++ repeat isHex 4 ++ [isDash] ++ repeat isHex 4 ++ [isDash]
   ++ repeat isHex 12)%list.

Definition matchUUID : Matcher :=
  fun s => if matchClasses uuidShape s then Some 36%nat else None.

(** [/\d+/g] *)
Definition matchDigits : Matcher :=
  fun s => match span isDigit s with O => None | n => Some n end.

(** [/https?:\/\/[^\s]+/g] *)
Definition matchURL : Matcher :=
  fun s =>
    let body (scheme : nat) :=
      match span (fun c => negb (isSpace c)) (skipn scheme s) with
      | O => None
      | n => Some (scheme + n)%nat
      end in
    if startsWith (list_ascii_of_string "https://") s then body 8%nat
    else if startsWith (list_ascii_of_string "http://") s then body 7%nat
    else None.

(** The fourth expression of [extractErrorPattern]: a double quote, any
    run of characters other than a double quote, a double quote. *)
Definition matchQuoted : Matcher :=
  fun s =>
    match s with
    | c :: rest =>
        if isQuote c then
          let n := span (fun d => negb (isQuote d)) rest in
          match skipn n rest with
          | d :: _ => if isQuote d then Some (n + 2)%nat else None
          | [] => None
          end
        else None
    | [] => None
    end.

End JsString.

(** ** The self-healer *)

Module SelfHealer.

Import JsString.

Inductive Severity := Warning | Error | Critical.

Record ErrorPattern := mkPattern {
  p_pattern : string;
  p_count : Z;
  p_lastSeen : Timestamp;
  p_resolution : option string;
  p_autoResolved : Z
}.

Record HealerMetrics := mkMetrics {
  m_totalErrors : Z;
  m_autoResolved : Z;
  m_escalated : Z;
  m_avgResolutionTime : Z;
  m_lastHealingRun : option Timestamp
}.

Record Escalation := mkEscalation {
  e_id : string;
  e_issue : string;
  e_severity : Severity;
  e_attempts : Z;
  e_createdAt : Timestamp;
  e_notifiedAt : option Timestamp;
  e_resolvedAt : option Timestamp
}.

(** [metadata] is an open record; the two properties the healer reads are
    typed, the others are carried as serialised text. *)
Record Metadata := mkMetadata {
  repeatCount : option Z;
  agentId : option string;
  others : list (string * Json)
}.

Record IssueContext := mkIssue {
  i_type : string;
  i_error : string;
  i_stack : option string;
  i_path : option string;
  i_taskId : option string;
  i_jobId : option string;
  i_timestamp : string;
  i_metadata : option Metadata
}.

Record ResolutionResult := mkResult {
  success : bool;
  action : string;
  message : string;
  nextSteps : option (list string)
}.

(** The healer's in-memory fields, but for [actions], which only the
    manual-heal path and the sweep use. *)
Record Healer := mkHealer {
  errorPatterns : JsMap.t ErrorPattern;
  metrics : HealerMetrics;
  escalations : list Escalation
}.

Definition init : Healer := mkHealer [] (mkMetrics 0 0 0 0 None) [].

(** The value written under a circuit-breaker key. *)
Record BreakerFlag := mkBreaker {
  activated : bool;
  activatedAt : Timestamp;
  reason : string;
  cooldownUntil : Timestamp
}.

(** Requests the healer sends to its collaborators. *)
Inductive ExtCall :=
| QueueSchedule (jobType originalError : string)
                (retryContext : option Metadata)
                (scheduledFor : Timestamp) (priority : string)
| CacheDelete (key : string)
| QueueEnqueue (jobType : string) (urgent : bool) (priority : string)
| QueuePurge (olderThanHours : Z) (statuses : list string)
| ConfigPut (key : string) (value : BreakerFlag) (expirationTtl : Z)
| SyncFull
| CoordinatorHeartbeat (agent : option string) (status : string)
| CoordinatorSubmit (escalation : Escalation)
                    (recentPatterns : list (string * ErrorPattern))
                    (priority : string).

(** [throws c] says that the request [c] raises instead of returning. *)
Record Env := mkEnv {
  throws : ExtCall -> bool;
  ANTHROPIC_API_KEY : string
}.

Record ReportResponse := mkResponse {
  resp_success : bool;
  resp_autoResolved : bool;
  resp_action : string;
  resp_message : string
}.

(** *** Error signatures *)

Definition extractErrorPattern (err : string) : string :=
  string_of_list_ascii
    (firstn 200
       (replaceAll matchQuoted (quoted "<STRING>")
          (replaceAll matchURL "<URL>"
             (replaceAll matchDigits "<N>"
                (replaceAll matchUUID "<UUID>"
                   (list_ascii_of_string err)))))).

(** *** Strategies, in the order of [initializeStrategies] *)

Inductive Strategy :=
| RetryTransient | RefreshAuth | ResourceCleanup
| CircuitBreaker | ResyncRepos | RestartAgent.

Definition strategies : list Strategy :=
  [RetryTransient; RefreshAuth; ResourceCleanup;
   CircuitBreaker; ResyncRepos; RestartAgent].

Definition transientPatterns : list string :=
  ["ECONNRESET"; "ETIMEDOUT"; "ENOTFOUND"; "rate limit"; "429"; "503";
   "504"; "network"; "timeout"].

Definition authPatterns : list string :=
  ["401"; "403"; "unauthorized"; "forbidden"; "token expired"].

Definition resourcePatterns : list string :=
  ["memory"; "storage"; "quota"; "limit exceeded"].

(** [patterns.some(p => error.toLowerCase().includes(p.toLowerCase()))] *)
Definition matchesAny (patterns : list string) (err : string) : bool :=
  existsb (fun p => contains (toLowerCase p) (toLowerCase err)) patterns.

Definition canResolve (st : Strategy) (issue : IssueContext) : bool :=
  match st with
  | RetryTransient => matchesAny transientPatterns (i_error issue)
  | RefreshAuth => matchesAny authPatterns (i_error issue)
  | ResourceCleanup => matchesAny resourcePatterns (i_error issue)
  | CircuitBreaker =>
      match i_metadata issue with
      | Some md =>
          match repeatCount md with
          | Some n => 3 <=? n
          | None => false
          end
      | None => false
      end
  | ResyncRepos =>
      contains "sync" (i_type issue) || contains "cohesion" (i_type issue)
  | RestartAgent =>
      contains "agent" (i_type issue)
      && (contains "stuck" (i_error issue)
          || contains "unresponsive" (i_error issue)
          || contains "timeout" (i_error issue))
  end.

Definition cooldownMs : Z := 5 * 60 * 1000.

(** The requests a strategy's [resolve] sends, in order. *)
Definition resolveCalls (st : Strategy) (now : Timestamp)
    (issue : IssueContext) : list ExtCall :=
  match st with
  | RetryTransient =>
      [QueueSchedule
         (if String.eqb (i_type issue) "task" then "agent:task"
          else "agent:resolve")
         (i_error issue) (i_metadata issue) (now + 5000) "high"]
  | RefreshAuth =>
      [CacheDelete "github_token_cache"; CacheDelete "api_tokens"]
  | ResourceCleanup =>
      [QueueEnqueue "cleanup:artifacts" true "critical";
       QueuePurge 12 ["completed"; "failed"]]
  | CircuitBreaker =>
      [ConfigPut ("circuit_breaker:" ++ i_type issue)
         (mkBreaker true now (i_error issue) (now + cooldownMs)) 300]
  | ResyncRepos => [SyncFull]
  | RestartAgent =>
      [CoordinatorHeartbeat
         (match i_metadata issue with
          | Some md => agentId md
          | None => None
          end) "idle"]
  end.

(** What a strategy's [resolve] returns when none of its requests throws. *)
Definition resolveResult (st : Strategy) (issue : IssueContext)
    : ResolutionResult :=
  match st with
  | RetryTransient =>
      mkResult true "Scheduled retry"
        "Transient error detected. Scheduled retry in 5 seconds." None
  | RefreshAuth =>
      mkResult true "Cleared auth cache"
        "Authentication error detected. Cleared cached tokens."
        (Some ["Verify GITHUB_TOKEN is still valid"; "Check API rate limits"])
  | ResourceCleanup =>
      mkResult true "Triggered cleanup"
        "Resource constraint detected. Triggered urgent cleanup." None
  | CircuitBreaker =>
      mkResult true "Circuit breaker activated"
        ("Cascading failure detected. Circuit breaker activated for "
         ++ i_type issue ++ ". Will auto-reset in 5 minutes.")
        (Some ["Monitor error rates"; "Check downstream dependencies"])
  | ResyncRepos =>
      mkResult true "Triggered full repo sync"
        "Sync-related issue detected. Triggered full repository sync." None
  | RestartAgent =>
      mkResult true "Reset agent status"
        "Agent issue detected. Reset agent status to idle." None
  end.

(** Sends the requests in order up to the first that throws; the boolean
    says whether all of them returned. *)
Fixpoint runCalls (env : Env) (calls : list ExtCall)
    : list ExtCall * bool :=
  match calls with
  | [] => ([], true)
  | c :: rest =>
      if throws env c then ([c], false)
      else let (sent, ok) := runCalls env rest in (c :: sent, ok)
  end.

Definition noResolution : ResolutionResult :=
  mkResult false "No resolution found"
    "Could not automatically resolve this issue. Escalating." None.

Fixpoint attemptWith (env : Env) (now : Timestamp) (issue : IssueContext)
    (sts : list Strategy) : list ExtCall * ResolutionResult :=
  match sts with
  | [] => ([], noResolution)
  | st :: rest =>
      if canResolve st issue then
        let (sent, ok) := runCalls env (resolveCalls st now issue) in
        if ok && success (resolveResult st issue)
        then (sent, resolveResult st issue)
        else let (sent', r) := attemptWith env now issue rest in
             ((sent ++ sent')%list, r)
      else attemptWith env now issue rest
  end.

Definition attemptAutoResolution (env : Env) (now : Timestamp)
    (issue : IssueContext) : list ExtCall * ResolutionResult :=
  attemptWith env now issue strategies.

(** *** Severity and escalation *)

Definition criticalPatterns : list string :=
  ["crash"; "fatal"; "unrecoverable"; "data loss"].

Definition errorKeywords : list string := ["failed"; "error"; "exception"].

Definition determineSeverity (issue : IssueContext) : Severity :=
  let lowerError := toLowerCase (i_error issue) in
  if containsAny criticalPatterns lowerError then Critical
  else if containsAny errorKeywords lowerError then Error
  else Warning.

(** [Array.prototype.slice(-n)] *)
Definition lastN {A} (n : nat) (l : list A) : list A :=
  skipn (length l - n) l.

Definition requestAIAnalysis (s : Healer) (escalation : Escalation)
    : list ExtCall :=
  [CoordinatorSubmit escalation (lastN 10 (errorPatterns s))
     (match e_severity escalation with
      | Critical => "critical"
      | _ => "high"
      end)].

Definition escalate (env : Env) (escalation : Escalation) (s : Healer)
    : Healer * list ExtCall :=
  let s' :=
    mkHealer (errorPatterns s)
      (mkMetrics (m_totalErrors (metrics s)) (m_autoResolved (metrics s))
                 (m_escalated (metrics s) + 1)
                 (m_avgResolutionTime (metrics s))
                 (m_lastHealingRun (metrics s)))
      (escalations s ++ [escalation])%list in
  (s', if truthy (Some (ANTHROPIC_API_KEY env))
       then requestAIAnalysis s' escalation else []).

(** *** Reporting an error *)

Definition withRepeatCount (issue : IssueContext) (n : Z) : IssueContext :=
  mkIssue (i_type issue) (i_error issue) (i_stack issue) (i_path issue)
    (i_taskId issue) (i_jobId issue) (i_timestamp issue)
    (Some match i_metadata issue with
          | Some md => mkMetadata (Some n) (agentId md) (others md)
          | None => mkMetadata (Some n) None []
          end).

(** The pattern-tracking step: the patterns afterwards and the issue handed
    to the strategies. *)
Definition trackPattern (now : Timestamp) (issue : IssueContext)
    (patterns : JsMap.t ErrorPattern)
    : JsMap.t ErrorPattern * IssueContext :=
  let patternKey := extractErrorPattern (i_error issue) in
  match JsMap.get patternKey patterns with
  | Some existing =>
      let count := p_count existing + 1 in
      (JsMap.set patternKey
         (mkPattern (p_pattern existing) count now
                    (p_resolution existing) (p_autoResolved existing))
         patterns,
       withRepeatCount issue count)
  | None =>
      (JsMap.set patternKey (mkPattern patternKey 1 now None 0) patterns,
       issue)
  end.

Definition recordResolution (patternKey : string) (act : string)
    (patterns : JsMap.t ErrorPattern) : JsMap.t ErrorPattern :=
  match JsMap.get patternKey patterns with
  | Some p =>
      JsMap.set patternKey
        (mkPattern (p_pattern p) (p_count p) (p_lastSeen p) (Some act)
                   (p_autoResolved p + 1))
        patterns
  | None => patterns
  end.

Definition handleReportError (env : Env) (now : Timestamp) (uuid : string)
    (body : IssueContext) (s : Healer)
    : ReportResponse * Healer * list ExtCall :=
  let patternKey := extractErrorPattern (i_error body) in
  let (patterns, issue) := trackPattern now body (errorPatterns s) in
  let counted :=
    mkMetrics (m_totalErrors (metrics s) + 1) (m_autoResolved (metrics s))
              (m_escalated (metrics s)) (m_avgResolutionTime (metrics s))
              (m_lastHealingRun (metrics s)) in
  let (sent, result) := attemptAutoResolution env now issue in
  let response :=
    mkResponse true (success result) (action result) (message result) in
  if success result then
    (response,
     mkHealer (recordResolution patternKey (action result) patterns)
       (mkMetrics (m_totalErrors counted) (m_autoResolved counted + 1)
                  (m_escalated counted) (m_avgResolutionTime counted)
                  (m_lastHealingRun counted))
       (escalations s),
     sent)
  else
    let escalation :=
      mkEscalation ("esc-" ++ substring 0 8 uuid) (i_error issue)
                   (determineSeverity issue) 1 now None None in
    let (s', sent') :=
      escalate env escalation (mkHealer patterns counted (escalations s)) in
    (response, s', (sent ++ sent')%list).

(** The count recorded for a signature; 0 when there is no entry. *)
Definition countOf (key : string) (s : Healer) : Z :=
  match JsMap.get key (errorPatterns s) with
  | Some p => p_count p
  | None => 0
  end.

(** A report as a state transition. *)
Definition report (env : Env) (now : Timestamp) (uuid : string)
    (body : IssueContext) (s : Healer) : Healer :=
  snd (fst (handleReportError env now uuid body s)).

Definition responseTo (env : Env) (now : Timestamp) (uuid : string)
    (body : IssueContext) (s : Healer) : ReportResponse :=
  fst (fst (handleReportError env now uuid body s)).

Definition callsOf (env : Env) (now : Timestamp) (uuid : string)
    (body : IssueContext) (s : Healer) : list ExtCall :=
  snd (handleReportError env now uuid body s).

End SelfHealer.

(** ** Concrete runs used in the examples below *)

Module CoordinatorScenario.

Import AgentCoordinator.

Definition env : Env := mkEnv "true".

Definition agentA : string := "agent-a1b2c3d4".
Definition taskT1 : string := "task-7f3e9a10-5b2".
Definition taskT2 : string := "task-0c0ffee0-123".

Definition registerA : Timestamp * Request :=
  (1000, Register "a1b2c3d4-0000-4000-8000-000000000001" "worker-1"
                  Analyzer None).

Definition submitT1 : Timestamp * Request :=
  (2000, Submit "7f3e9a10-5b2c-4d6e-8f90-123456789abc" "repo:analyze"
                "analyze repo" "{}" None None).

Definition submitT2 : Timestamp * Request :=
  (2500, Submit "0c0ffee0-1234-4abc-9def-000000000002" "repo:analyze"
                "analyze again" "{}" None None).

(** One analyzer, busy with [taskT1]. *)
Definition working : Coordinator := run env [registerA; submitT1] init.

(** The same with [taskT2] waiting in the backlog. *)
Definition backlogged : Coordinator :=
  run env [registerA; submitT1; submitT2] init.

(** [working] after the agent failed [taskT1] and asked for a retry. *)
Definition retried : Coordinator :=
  run env [registerA; submitT1; (3000, Fail taskT1 agentA "boom" (Some true))]
      init.

(** [backlogged] after the same failure. *)
Definition retriedBacklogged : Coordinator :=
  run env [registerA; submitT1; submitT2;
           (3000, Fail taskT1 agentA "boom" (Some true))] init.

Definition agentB : string := "agent-b5e6f7a8".

Definition registerB : Timestamp * Request :=
  (2700, Register "b5e6f7a8-0000-4000-8000-000000000002" "worker-2"
                  Analyzer None).

(** [backlogged] with a second analyzer registered afterwards: the first
    is busy with [taskT1], [taskT2] waits, the second is idle. *)
Definition crossed : Coordinator :=
  run env [registerA; submitT1; submitT2; registerB] init.

(** Two analyzers, the first busy with [taskT1] and the second with
    [taskT2]. *)
Definition bothBusy : Coordinator :=
  run env [registerA; (1500, snd registerB); submitT1; submitT2] init.

End CoordinatorScenario.

Module HealerScenario.

Import JsString SelfHealer.

(** A text of the shape of a UUID: 36 characters, hexadecimal digits in
    groups of 8, 4, 4, 4 and 12 separated by dashes. *)
Definition isUUID (u : string) : bool :=
  Nat.eqb (String.length u) 36
  && matchClasses uuidShape (list_ascii_of_string u).

(** A non-empty run of decimal digits. *)
Definition isNumber (n : string) : bool :=
  negb (String.eqb n EmptyString)
  && forallb isDigit (list_ascii_of_string n).

Definition failedJobError (uuid retries : string) : string :=
  "Failed job " ++ uuid ++ " after " ++ retries ++ " retries".

Definition failedJobKey : string := "Failed job <UUID> after <N> retries".

(** Collaborators that always answer, and no analysis key configured. *)
Definition quiet : Env := mkEnv (fun _ => false) EmptyString.

Definition issueOf (type err : string) : IssueContext :=
  mkIssue type err None None None None "2026-01-01T00:00:00.000Z" None.

End HealerScenario.

(** ** Further handlers of the three objects *)

Module CoordinatorReads.

Import AgentCoordinator.

(** The body of the answer of [handleGetStatus], but for the constant
    [status] and the timestamp. *)
Record StatusReport := mkStatusReport {
  agents_total : Z;
  agents_active : Z;
  agents_busy : Z;
  agents_idle : Z;
  tasks_pending : Z;
  tasks_running : Z;
  tasks_completed : Z;
  tasks_failed : Z;
  tasks_total : Z;
  queueDepth : Z
}.

(** [Array.from(xs).filter(f).length] *)
Definition countWhere {A} (f : A -> bool) (l : list A) : Z :=
  Z.of_nat (List.length (filter f l)).

Definition hasStatus (st : AgentStatus) (a : AgentState) : bool :=
  agentStatus_eqb (a_status a) st.

Definition taskHasStatus (st : AgentTaskStatus) (t : AgentTask) : bool :=
  taskStatus_eqb (t_status t) st.

Definition handleGetStatus (s : Coordinator) : StatusReport :=
  let activeAgents :=
    countWhere (fun a => negb (hasStatus Offline a)) (JsMap.values (agents s)) in
  let busyAgents := countWhere (hasStatus Busy) (JsMap.values (agents s)) in
  let pendingTasks := Z.of_nat (List.length (taskQueue s)) in
  let runningTasks :=
    countWhere (taskHasStatus Running) (JsMap.values (tasks s)) in
  let completedTasks :=
    countWhere (taskHasStatus Completed) (JsMap.values (tasks s)) in
  let failedTasks :=
    countWhere (taskHasStatus Failed) (JsMap.values (tasks s)) in
  mkStatusReport (JsMap.size (agents s)) activeAgents busyAgents
                 (activeAgents - busyAgents)
                 pendingTasks runningTasks completedTasks failedTasks
                 (JsMap.size (tasks s)) pendingTasks.

Definition handleGetAgents (s : Coordinator) : list AgentState :=
  JsMap.values (agents s).

(** [handleGetTask]: the task, or the 404 answer. *)
Definition handleGetTask (taskId : string) (s : Coordinator)
    : AgentTask + string :=
  match JsMap.get taskId (tasks s) with
  | Some task => inl task
  | None => inr "Task not found"
  end.

(** The task types on which [canAgentHandleTask] raises. *)
Definition raisesOn (taskType : string) : bool :=
  match taskTypeToCapability taskType with
  | ProtoObject => true
  | ProtoFunction arity => negb (arity =? 0)
  | _ => false
  end.

(** The test of the first loop of [alarm]: the heartbeat is stale and the
    agent is not yet offline. *)
Definition sweeps (now : Timestamp) (a : AgentState) : bool :=
  (a_lastHeartbeat a <? now - staleAfter)
  && negb (agentStatus_eqb (a_status a) Offline).

(** The task of a reclaimed agent: pending, unassigned and in the backlog. *)
Definition requeued (taskId : string) (s : Coordinator) : Prop :=
  exists t, JsMap.get taskId (tasks s) = Some t
            /\ t_status t = Pending /\ t_agentId t = EmptyString
            /\ In taskId (taskQueue s).

(** [s'] comes after [s] in an assignment pass: backlog entries and pending
    tasks can only go away, idle agents can only become busy. *)
Definition later (s s' : Coordinator) : Prop :=
  incl (taskQueue s') (taskQueue s)
  /\ (forall x t, JsMap.get x (tasks s') = Some t -> t_status t = Pending ->
                  JsMap.get x (tasks s) = Some t)
  /\ (forall k b, JsMap.get k (agents s') = Some b -> a_status b = Idle ->
                  JsMap.get k (agents s) = Some b)
  /\ (forall k b, JsMap.get k (agents s) = Some b -> a_status b = Busy ->
                  exists b', JsMap.get k (agents s') = Some b'
                             /\ a_status b' = Busy).

End CoordinatorReads.

Module JobQueueOps.

Import JobQueue.

Definition jobStatusName (st : JobStatus) : string :=
  match st with
  | Pending => "pending"
  | Processing => "processing"
  | Completed => "completed"
  | Failed => "failed"
  | Dead => "dead"
  end.

Definition handleGetJob (jobId : string) (s : Queue) : QueuedJob + string :=
  match JsMap.get jobId (jobs s) with
  | Some job => inl job
  | None => inr "Job not found"
  end.

(** [job.status = 'pending'; job.retryCount = 0; job.error = undefined;
    job.scheduledFor = undefined]. *)
Definition revivedJob (job : QueuedJob) : QueuedJob :=
  mkJob (j_id job) (j_type job) (j_payload job) (j_priority job)
        Pending 0 (j_maxRetries job) (j_createdAt job) None
        (j_startedAt job) (j_completedAt job) None (j_result job).

Definition isDead (job : QueuedJob) : bool :=
  jobStatus_eqb (j_status job) Dead.

(** One turn of the loop of [handleRetryDead] on the lanes, the counters
    and [retriedCount]. *)
Definition reviveEntry (acc : Lanes * QueueStats * Z)
    (entry : string * QueuedJob) : Lanes * QueueStats * Z :=
  let '(lanes, st, retriedCount) := acc in
  let (jobId, job) := entry in
  if isDead job then
    (setLane (j_priority job)
             (lane (j_priority job) lanes ++ [jobId])%list lanes,
     addPending 1 (addDead (-1) st),
     retriedCount + 1)
  else acc.

(** The loop visits the entries of [this.jobs] in order; the jobs it
    rewrites keep their keys and positions. *)
Definition handleRetryDead (s : Queue) : Z * Queue :=
  let '(lanes, st, retriedCount) :=
    fold_left reviveEntry (jobs s) (priorityQueues s, stats s, 0) in
  (retriedCount,
   mkQueue
     (map (fun e : string * QueuedJob =>
             (fst e, if isDead (snd e) then revivedJob (snd e) else snd e))
          (jobs s))
     lanes st).

(** [(body.olderThanHours || 24)]: an absent value and 0 both give 24. *)
Definition purgeHours (olderThanHours : option Z) : Z :=
  match olderThanHours with
  | Some h => if h =? 0 then 24 else h
  | None => 24
  end.

(** The test of the loop of [handlePurge]: the status is among those asked
    for, and the completion time, taken as 0 when there is none, is not 0
    and lies before the limit. *)
Definition purged (olderThan : Z) (statuses : list string)
    (entry : string * QueuedJob) : bool :=
  let job := snd entry in
  includes statuses (jobStatusName (j_status job))
  && (let completedAt :=
        match j_completedAt job with Some t => t | None => 0 end in
      negb (completedAt =? 0) && (completedAt <? olderThan)).

Definition handlePurge (now : Timestamp) (olderThanHours : option Z)
    (statuses : option (list string)) (s : Queue) : Z * Queue :=
  let olderThan := now - purgeHours olderThanHours * 60 * 60 * 1000 in
  let asked := match statuses with Some l => l | None => ["completed"] end in
  (Z.of_nat (List.length (filter (purged olderThan asked) (jobs s))),
   mkQueue (filter (fun e => negb (purged olderThan asked e)) (jobs s))
           (priorityQueues s) (stats s)).

Definition priority_eqb (x y : Priority) : bool :=
  match x, y with
  | Low, Low | Normal, Normal | High, High | Critical, Critical => true
  | _, _ => false
  end.

(** The ids of the dead jobs of one priority, in the order of [this.jobs]. *)
Definition deadIds (p : Priority) (js : JsMap.t QueuedJob) : list string :=
  map fst (filter (fun e : string * QueuedJob =>
                     isDead (snd e) && priority_eqb (j_priority (snd e)) p)
                  js).

(** Requests to the queue that change its state, but for [complete]. *)
Inductive Request :=
| Enqueue (uuid : string) (type : JobType) (payload : Json)
          (priority : option Priority) (maxRetries : option Z)
| Schedule (uuid : string) (type : JobType) (payload : Json)
           (scheduledFor : Timestamp) (priority : option Priority)
| Dequeue (workerId : string) (types : option (list JobType))
| Fail (jobId err : string) (shouldRetry : option bool)
| RetryDead
| Purge (olderThanHours : option Z) (statuses : option (list string))
| Alarm.

Definition step (env : Env) (s : Queue) (ev : Timestamp * Request)
    : Queue :=
  let (now, r) := ev in
  match r with
  | Enqueue uuid type payload priority maxRetries =>
      snd (handleEnqueue now uuid type payload priority maxRetries s)
  | Schedule uuid type payload scheduledFor priority =>
      snd (handleSchedule now uuid type payload scheduledFor priority s)
  | Dequeue workerId types => snd (handleDequeue now workerId types s)
  | Fail jobId err shouldRetry =>
      snd (fst (handleFail env now jobId err shouldRetry s))
  | RetryDead => snd (handleRetryDead s)
  | Purge olderThanHours statuses =>
      snd (handlePurge now olderThanHours statuses s)
  | Alarm => alarm now s
  end.

Definition run (env : Env) (evs : list (Timestamp * Request)) (s : Queue)
    : Queue :=
  fold_left (step env) evs s.


(** The id of the job a [handleDequeue] answer carries. *)
Definition dequeuedId (r : Response) : option string :=
  match r with
  | DequeueOk (Some job) => Some (j_id job)
  | _ => None
  end.

End JobQueueOps.

Module SelfHealerOps.

Import SelfHealer.

(** [handleTaskFailed] rewrites its body into an issue and reports it. *)
Definition taskFailedIssue (taskId taskType err timestamp : string)
    : IssueContext :=
  mkIssue ("task:" ++ taskType) err None None (Some taskId) None timestamp
          (Some (mkMetadata None None
                   [("taskId", taskId); ("taskType", taskType)])).

Definition handleTaskFailed (env : Env) (now : Timestamp) (uuid : string)
    (taskId taskType err timestamp : string) (s : Healer)
    : ReportResponse * Healer * list ExtCall :=
  handleReportError env now uuid
    (taskFailedIssue taskId taskType err timestamp) s.

(** [handleDeadJob]; the retry count is carried as its decimal text. *)
Definition deadJobIssue (jobId jobType err : string) (retryCount : Z)
    (timestamp : string) : IssueContext :=
  mkIssue ("job:" ++ jobType) err None None None (Some jobId) timestamp
          (Some (mkMetadata None None
                   [("jobId", jobId); ("jobType", jobType);
                    ("retryCount",
                     DecimalString.NilZero.string_of_int
                       (Z.to_int retryCount))])).

Definition handleDeadJob (env : Env) (now : Timestamp) (uuid : string)
    (jobId jobType err : string) (retryCount : Z) (timestamp : string)
    (s : Healer) : ReportResponse * Healer * list ExtCall :=
  handleReportError env now uuid
    (deadJobIssue jobId jobType err retryCount timestamp) s.

Definition resolved (e : Escalation) (now : Timestamp) : Escalation :=
  mkEscalation (e_id e) (e_issue e) (e_severity e) (e_attempts e)
               (e_createdAt e) (e_notifiedAt e) (Some now).

(** [escalations.find(e => e.id === id)] followed by the write of
    [resolvedAt] into the escalation found. *)
Fixpoint resolveFirst (escalationId : string) (now : Timestamp)
    (l : list Escalation) : option (Escalation * list Escalation) :=
  match l with
  | [] => None
  | e :: rest =>
      if String.eqb (e_id e) escalationId
      then Some (resolved e now, resolved e now :: rest)
      else match resolveFirst escalationId now rest with
           | Some (found, rest') => Some (found, e :: rest')
           | None => None
           end
  end.

Definition handleResolveEscalation (now : Timestamp) (escalationId : string)
    (s : Healer) : (Escalation + string) * Healer :=
  match resolveFirst escalationId now (escalations s) with
  | Some (found, l) => (inl found, mkHealer (errorPatterns s) (metrics s) l)
  | None => (inr "Escalation not found", s)
  end.

Definition handleClearPatterns (s : Healer) : Healer :=
  mkHealer [] (metrics s) (escalations s).

(** [this.escalations.filter(e => !e.resolvedAt).length] *)
Definition activeEscalations (s : Healer) : Z :=
  Z.of_nat
    (List.length
       (filter (fun e => match e_resolvedAt e with
                         | Some _ => false
                         | None => true
                         end) (escalations s))).

(** Requests to the healer that change its state. *)
Inductive Request :=
| ReportError (uuid : string) (body : IssueContext)
| TaskFailed (uuid taskId taskType err timestamp : string)
| DeadJob (uuid jobId jobType err : string) (retryCount : Z)
          (timestamp : string)
| ResolveEscalation (escalationId : string)
| ClearPatterns.

Definition step (env : Env) (s : Healer) (ev : Timestamp * Request)
    : Healer :=
  let (now, r) := ev in
  match r with
  | ReportError uuid body => report env now uuid body s
  | TaskFailed uuid taskId taskType err timestamp =>
      snd (fst (handleTaskFailed env now uuid taskId taskType err timestamp s))
  | DeadJob uuid jobId jobType err retryCount timestamp =>
      snd (fst (handleDeadJob env now uuid jobId jobType err retryCount
                              timestamp s))
  | ResolveEscalation escalationId =>
      snd (handleResolveEscalation now escalationId s)
  | ClearPatterns => handleClearPatterns s
  end.

Definition run (env : Env) (evs : list (Timestamp * Request)) (s : Healer)
    : Healer :=
  fold_left (step env) evs s.

(** The first strategy of the list whose predicate holds. *)
Definition firstApplicable (issue : IssueContext) : option Strategy :=
  find (fun st => canResolve st issue) strategies.

End SelfHealerOps.

(** * Properties *)

(** ** Facts about [JsMap] *)

Module JsMapFacts.

Import JsMap.

Section Lookup.

Context {V : Type}.
Implicit Types (m : JsMap.t V) (k : string) (v : V).

Lemma get_set_eq k v m : get k (set k v m) = Some v.
Proof.
  induction m as [|[k' v'] m IH]; simpl.
  - now rewrite String.eqb_refl.
  - destruct (String.eqb k k') eqn:E; simpl.
    + now rewrite String.eqb_refl.
    + now rewrite E.
Qed.

Lemma get_set_ne k k' v m : k <> k' -> get k' (set k v m) = get k' m.
Proof.
  intros Hne. induction m as [|[k0 v0] m IH]; simpl.
  - destruct (String.eqb k' k) eqn:E; [|reflexivity].
    apply String.eqb_eq in E. congruence.
  - destruct (String.eqb k k0) eqn:E; simpl.
    + apply String.eqb_eq in E. subst k0.
      destruct (String.eqb k' k) eqn:E'; [|reflexivity].
      apply String.eqb_eq in E'. congruence.
    + destruct (String.eqb k' k0); [reflexivity|apply IH].
Qed.

Lemma get_In k v m : get k m = Some v -> In (k, v) m.
Proof.
  induction m as [|[k' v'] m IH]; simpl; [discriminate|].
  destruct (String.eqb k k') eqn:E.
  - apply String.eqb_eq in E. intros [= ->]. subst. now left.
  - intros H. right. now apply IH.
Qed.

Lemma In_get k v m : NoDup (keys m) -> In (k, v) m -> get k m = Some v.
Proof.
  unfold keys. induction m as [|[k' v'] m IH]; simpl; [easy|].
  intros Hnd [Heq|Hin]; inversion Hnd as [|? ? Hnotin Hnd']; subst.
  - injection Heq as -> ->. now rewrite String.eqb_refl.
  - destruct (String.eqb k k') eqn:E.
    + apply String.eqb_eq in E. subst k'. exfalso. apply Hnotin.
      change k with (fst (k, v)). now apply in_map.
    + now apply IH.
Qed.

Lemma keys_set k v m : forall x, In x (keys (set k v m)) -> x = k \/ In x (keys m).
Proof.
  unfold keys. induction m as [|[k' v'] m IH]; simpl; intros x.
  - intros [<-|[]]. now left.
  - destruct (String.eqb k k') eqn:E; simpl.
    + apply String.eqb_eq in E. subst k'. intros [<-|H]; auto.
    + intros [<-|H]; auto. destruct (IH _ H); auto.
Qed.

Lemma NoDup_set k v m : NoDup (keys m) -> NoDup (keys (set k v m)).
Proof.
  induction m as [|[k' v'] m IH]; simpl; intros Hnd.
  - constructor; [easy|constructor].
  - inversion Hnd as [|? ? Hnotin Hnd']; subst.
    destruct (String.eqb k k') eqn:E; simpl.
    + apply String.eqb_eq in E. subst k'. now constructor.
    + constructor; [|now apply IH].
      intros H. destruct (keys_set _ _ _ _ H) as [->|H']; [|easy].
      now rewrite String.eqb_refl in E.
Qed.

Lemma get_filter (f : string * V -> bool) k v m :
  get k m = Some v -> f (k, v) = true -> get k (filter f m) = Some v.
Proof.
  induction m as [|[k' v'] m IH]; simpl; [discriminate|].
  destruct (String.eqb k k') eqn:E.
  - apply String.eqb_eq in E. subst k'. intros [= ->] Hf.
    rewrite Hf. simpl. now rewrite String.eqb_refl.
  - intros Hg Hf. destruct (f (k', v')); simpl; [rewrite E|]; now apply IH.
Qed.

Lemma keys_set_present k v m :
  get k m <> None -> keys (set k v m) = keys m.
Proof.
  unfold keys. induction m as [|[k' v'] m IH]; simpl; [easy|].
  destruct (String.eqb k k') eqn:E; simpl.
  - apply String.eqb_eq in E. now subst.
  - intros H. now rewrite IH.
Qed.

Lemma keys_set_absent k v m :
  get k m = None -> keys (set k v m) = (keys m ++ [k])%list.
Proof.
  unfold keys. induction m as [|[k' v'] m IH]; simpl; [reflexivity|].
  destruct (String.eqb k k') eqn:E; [discriminate|].
  intros H. simpl. now rewrite IH.
Qed.

Lemma get_none_set k k' v m :
  get k' m = None -> k' <> k -> get k' (set k v m) = None.
Proof.
  intros Hn Hne. rewrite get_set_ne; [assumption|congruence].
Qed.

End Lookup.

End JsMapFacts.

(** ** The agent coordinator *)

Module CoordinatorFacts.

Import JsMap JsMapFacts AgentCoordinator.

Lemma agentStatus_eqb_eq x y : agentStatus_eqb x y = true <-> x = y.
Proof. destruct x, y; simpl; split; congruence. Qed.

Lemma taskStatus_eqb_eq x y : taskStatus_eqb x y = true <-> x = y.
Proof. destruct x, y; simpl; split; congruence. Qed.

Lemma holdsTask_true s a taskId :
  holdsTask s a taskId = true <->
  exists t, get taskId (tasks s) = Some t
            /\ t_status t = Running /\ t_agentId t = a_id a.
Proof.
  unfold holdsTask. split.
  - destruct (get taskId (tasks s)) as [t|]; [|discriminate].
    intros H. apply andb_true_iff in H as [H1 H2].
    exists t. repeat split.
    + now apply taskStatus_eqb_eq.
    + now apply String.eqb_eq.
  - intros (t & -> & Hs & Hid). apply andb_true_iff. split.
    + now apply taskStatus_eqb_eq.
    + now apply String.eqb_eq.
Qed.

(** The boolean check on one agent is the chain of equivalences of the
    specification. *)
Lemma agentConsistent_spec s a : agentConsistent s a = true <-> busyIff s a.
Proof.
  unfold agentConsistent, busyIff.
  destruct (a_currentTaskId a) as [taskId|] eqn:Hcur.
  - rewrite andb_true_iff, agentStatus_eqb_eq, holdsTask_true. split.
    + intros [Hb (t & Hg & Hr & Hid)]. split.
      * split; [discriminate|auto].
      * split; [|discriminate]. intros _. now exists taskId, t.
    + intros [[_ Hb] [Ht _]]. split; [now apply Hb|].
      destruct Ht as (taskId' & t & [= <-] & H); [discriminate|].
      now exists t.
  - rewrite negb_true_iff. split.
    + intros Hnb. split; split; try easy.
      * intros Hb. apply agentStatus_eqb_eq in Hb. congruence.
      * intros (? & ? & ? & _). discriminate.
    + intros [[Hb _] _].
      destruct (agentStatus_eqb (a_status a) Busy) eqn:E; [|reflexivity].
      apply agentStatus_eqb_eq in E. now apply Hb in E.
Qed.

(** Whether an agent is consistent depends on the state through the task
    it references only. *)
Lemma agentConsistent_ext s s' a :
  (forall taskId, a_currentTaskId a = Some taskId ->
                  get taskId (tasks s') = get taskId (tasks s)) ->
  agentConsistent s' a = agentConsistent s a.
Proof.
  intros H. unfold agentConsistent, holdsTask.
  destruct (a_currentTaskId a) as [taskId|]; [|reflexivity].
  now rewrite (H taskId eq_refl).
Qed.

Lemma consistent_running s a taskId :
  agentConsistent s a = true -> a_currentTaskId a = Some taskId ->
  exists t, get taskId (tasks s) = Some t /\ t_status t = Running.
Proof.
  unfold agentConsistent. intros H Hcur. rewrite Hcur in H.
  apply andb_true_iff in H as [_ H]. apply holdsTask_true in H.
  destruct H as (t & ? & ? & _). now exists t.
Qed.

Lemma consistent_not_busy s a :
  agentConsistent s a = true -> a_status a <> Busy ->
  a_currentTaskId a = None.
Proof.
  unfold agentConsistent. destruct (a_currentTaskId a); [|reflexivity].
  intros H Hnb. apply andb_true_iff in H as [H _].
  apply agentStatus_eqb_eq in H. contradiction.
Qed.

(** *** What a scan of the backlog finds *)

Lemma keepFront_hit x r taskId task queue :
  keepFront x r = Hit taskId task queue ->
  exists queue', r = Hit taskId task queue' /\ queue = x :: queue'.
Proof.
  destruct r; simpl; try discriminate. intros [= -> -> <-]. eauto.
Qed.

(** A hit is a task stored as [pending] that the agent can handle; no
    entry in front of it is such a task, and the new queue is the old one
    without that entry. *)
Lemma scanQueue_hit agent ts queue taskId task queue' :
  scanQueue agent ts queue = Hit taskId task queue' ->
  get taskId ts = Some task
  /\ t_status task = Pending
  /\ canAgentHandleTask agent task = Some true
  /\ exists front back,
       queue = (front ++ taskId :: back)%list
       /\ queue' = (front ++ back)%list
       /\ forall x t, In x front -> get x ts = Some t ->
                      t_status t = Pending ->
                      canAgentHandleTask agent t = Some false.
Proof.
  revert queue'. induction queue as [|x rest IH]; simpl; intros queue';
    [discriminate|].
  assert (Hskip :
    forall P : Prop,
      (forall t, get x ts = Some t -> t_status t = Pending ->
                 canAgentHandleTask agent t = Some false) ->
      keepFront x (scanQueue agent ts rest) = Hit taskId task queue' ->
      get taskId ts = Some task /\ t_status task = Pending
      /\ canAgentHandleTask agent task = Some true
      /\ exists front back,
           (x :: rest = front ++ taskId :: back)%list
           /\ queue' = (front ++ back)%list
           /\ forall y t, In y front -> get y ts = Some t ->
                          t_status t = Pending ->
                          canAgentHandleTask agent t = Some false).
  { intros _ Hx H. apply keepFront_hit in H as (q & Hq & ->).
    destruct (IH _ Hq) as (Hg & Hp & Hc & front & back & -> & -> & Hfront).
    repeat split; try assumption.
    exists (x :: front), back. repeat split.
    intros y t [<-|Hin]; eauto. }
  destruct (get x ts) as [t|] eqn:Hg.
  - destruct (taskStatus_eqb (t_status t) Pending) eqn:Hp.
    + destruct (canAgentHandleTask agent t) as [[|]|] eqn:Hc;
        [|apply (Hskip True); intros t' [= <-]; auto|discriminate].
      intros [= <- <- <-]. repeat split; auto.
      * now apply taskStatus_eqb_eq.
      * exists [], rest. repeat split. intros ? ? [].
    + apply (Hskip True). intros t' [= <-] Hp'.
      apply taskStatus_eqb_eq in Hp'. congruence.
  - apply (Hskip True). intros t' [=].
Qed.

(** *** Well-formedness is kept by every request *)

Lemma wf_set_agent s k a ts queue :
  wellFormed s -> a_id a = k ->
  wellFormed (mkCoordinator (set k a (agents s)) ts queue).
Proof.
  intros [Hnd Hkm] Hid. split; simpl.
  - now apply NoDup_set.
  - intros k' b. simpl. destruct (String.eqb_spec k k') as [<-|Hne].
    + rewrite get_set_eq. now intros [= <-].
    + rewrite get_set_ne by assumption. apply Hkm.
Qed.

Lemma wf_same_agents s ts queue :
  wellFormed s -> wellFormed (mkCoordinator (agents s) ts queue).
Proof. intros H. exact H. Qed.

Lemma wf_assignOne now agent s :
  wellFormed s -> wellFormed (fst (assignOne now agent s)).
Proof.
  intros Hwf. unfold assignOne.
  destruct (scanQueue agent (tasks s) (taskQueue s)); simpl; auto.
  now apply wf_set_agent.
Qed.

Lemma wf_assignAll now idleAgents s :
  wellFormed s -> wellFormed (fst (assignAll now idleAgents s)).
Proof.
  revert s. induction idleAgents as [|a rest IH]; simpl; intros s Hwf; auto.
  pose proof (wf_assignOne now a s Hwf) as H1.
  destruct (assignOne now a s) as [s' [|]]; simpl in *; auto.
Qed.

Lemma wf_tryAssignTasks now s :
  wellFormed s -> wellFormed (fst (tryAssignTasks now s)).
Proof. apply wf_assignAll. Qed.

Lemma wf_sweepAgent now s k a :
  wellFormed s -> a_id a = k -> wellFormed (sweepAgent now s (k, a)).
Proof.
  intros Hwf Hid. unfold sweepAgent.
  destruct (_ && _); [|assumption].
  destruct (a_currentTaskId a) as [cur|]; [|now apply wf_set_agent].
  destruct (truthy (Some cur)); [|now apply wf_set_agent].
  destruct (get cur (tasks s)) as [t|]; [|now apply wf_set_agent].
  destruct (taskStatus_eqb (t_status t) Running); now apply wf_set_agent.
Qed.

Lemma wf_sweep now entries s :
  wellFormed s -> (forall k a, In (k, a) entries -> a_id a = k) ->
  wellFormed (fold_left (sweepAgent now) entries s).
Proof.
  revert s. induction entries as [|[k a] rest IH]; simpl; intros s Hwf Hid;
    [assumption|].
  apply IH; [|intros; apply Hid; now right].
  apply wf_sweepAgent; [assumption|]. apply Hid. now left.
Qed.

Lemma wf_alarm now s : wellFormed s -> wellFormed (alarm now s).
Proof.
  intros Hwf. unfold alarm.
  apply (wf_same_agents (fold_left (sweepAgent now) (agents s) s)).
  apply wf_sweep; [assumption|].
  intros k a Hin. destruct Hwf as [Hnd Hkm]. apply Hkm.
  now apply In_get.
Qed.

Lemma wf_step env s ev : wellFormed s -> wellFormed (step env s ev).
Proof.
  intros Hwf. destruct ev as [now r]. destruct r; simpl.
  - now apply wf_set_agent.
  - unfold handleHeartbeat.
    destruct (get agentId (agents s)) as [a|] eqn:Hg; simpl; [|assumption].
    apply wf_set_agent; [assumption|]. simpl. now apply (proj2 Hwf).
  - unfold handleSubmitTask.
    match goal with |- context [tryAssignTasks now ?s1] =>
      pose proof (wf_tryAssignTasks now s1 Hwf) as H;
      destruct (tryAssignTasks now s1) as [s2 [|]] end; exact H.
  - unfold handleGetNextTask.
    destruct (get agentId (agents s)) as [a|] eqn:Hg; simpl; [|assumption].
    destruct (negb _); simpl; [assumption|].
    destruct (scanQueue a (tasks s) (taskQueue s)); simpl; try assumption.
    apply wf_set_agent; [assumption|]. simpl. now apply (proj2 Hwf).
  - unfold handleCompleteTask.
    destruct (get taskId (tasks s)) as [t|]; [|assumption].
    destruct (get agentId (agents s)) as [a|] eqn:Hg; [|assumption].
    match goal with |- context [tryAssignTasks now ?s1] =>
      assert (Hwf1 : wellFormed s1)
        by (apply wf_set_agent; [assumption|]; simpl; now apply (proj2 Hwf));
      pose proof (wf_tryAssignTasks now s1 Hwf1) as H;
      destruct (tryAssignTasks now s1) as [s2 [|]] end; exact H.
  - unfold handleFailTask.
    destruct (get taskId (tasks s)) as [t|]; [|assumption].
    destruct (get agentId (agents s)) as [a|] eqn:Hg; [|assumption].
    destruct shouldRetry as [[|]|]; simpl;
      (apply wf_set_agent; [assumption|]; simpl; now apply (proj2 Hwf)).
  - now apply wf_alarm.
Qed.

Lemma wf_init : wellFormed init.
Proof. split; [constructor|intros k a [=]]. Qed.

Lemma wf_run env evs s : wellFormed s -> wellFormed (run env evs s).
Proof.
  revert s. induction evs as [|ev rest IH]; simpl; intros s Hwf;
    [assumption|]. apply IH. now apply wf_step.
Qed.

Lemma wf_reachable s : reachable s -> wellFormed s.
Proof. intros (env & evs & <-). apply wf_run, wf_init. Qed.

(** *** The busy invariant under disciplined requests *)

Lemma busy_update s s' k a' :
  agents s' = set k a' (agents s) ->
  busyInvariant s ->
  agentConsistent s' a' = true ->
  (forall k' b taskId,
      k' <> k -> get k' (agents s) = Some b ->
      a_currentTaskId b = Some taskId ->
      get taskId (tasks s') = get taskId (tasks s)) ->
  busyInvariant s'.
Proof.
  intros Hag Hinv Hnew Hothers k' b Hg. rewrite Hag in Hg.
  destruct (String.eqb_spec k k') as [<-|Hne].
  - rewrite get_set_eq in Hg. now injection Hg as <-.
  - rewrite get_set_ne in Hg by assumption.
    rewrite (agentConsistent_ext s s' b); [now apply (Hinv k')|].
    intros taskId Hcur. apply (Hothers k' b); auto.
Qed.

Lemma busy_same_agents s s' :
  agents s' = agents s ->
  busyInvariant s ->
  (forall k b taskId,
      get k (agents s) = Some b -> a_currentTaskId b = Some taskId ->
      get taskId (tasks s') = get taskId (tasks s)) ->
  busyInvariant s'.
Proof.
  intros Hag Hinv Hothers k b Hg. rewrite Hag in Hg.
  rewrite (agentConsistent_ext s s' b); [now apply (Hinv k)|].
  intros taskId Hcur. now apply (Hothers k b).
Qed.

(** Handing a pending task to an agent keeps the invariant: no other agent
    can be referring to a task that is still pending. *)
Lemma busy_assign now s k a taskId task queue :
  a_id a = k -> get taskId (tasks s) = Some task ->
  t_status task = Pending -> busyInvariant s ->
  busyInvariant
    (mkCoordinator (set k (assignedAgent a taskId) (agents s))
                   (set taskId (startedTask task k now) (tasks s)) queue).
Proof.
  intros Hid Hg Hp Hinv.
  apply (busy_update s _ k (assignedAgent a taskId)); auto.
  - unfold agentConsistent, holdsTask. simpl. rewrite get_set_eq. simpl.
    rewrite Hid. apply String.eqb_refl.
  - intros k' b tb Hne Hb Hcur. simpl.
    destruct (consistent_running s b tb (Hinv _ _ Hb) Hcur) as (t & Ht & Hr).
    apply get_set_ne. intros <-. congruence.
Qed.

Lemma busy_assignOne now agent s :
  busyInvariant s -> busyInvariant (fst (assignOne now agent s)).
Proof.
  intros Hinv. unfold assignOne.
  destruct (scanQueue agent (tasks s) (taskQueue s)) eqn:Hscan; simpl; auto.
  apply scanQueue_hit in Hscan as (Hg & Hp & _).
  now apply busy_assign.
Qed.

Lemma busy_assignAll now idleAgents s :
  busyInvariant s -> busyInvariant (fst (assignAll now idleAgents s)).
Proof.
  revert s. induction idleAgents as [|a rest IH]; simpl; intros s Hinv; auto.
  pose proof (busy_assignOne now a s Hinv) as H1.
  destruct (assignOne now a s) as [s' [|]]; simpl in *; auto.
Qed.

Lemma busy_tryAssignTasks now s :
  busyInvariant s -> busyInvariant (fst (tryAssignTasks now s)).
Proof. apply busy_assignAll. Qed.

Lemma not_heldByOther taskId agentId s k b :
  heldByOther taskId agentId s = false ->
  k <> agentId -> get k (agents s) = Some b ->
  a_currentTaskId b <> Some taskId.
Proof.
  unfold heldByOther. intros Hno Hne Hg Hcur.
  apply get_In in Hg.
  assert (Hex : existsb
            (fun e : string * AgentState =>
               negb (String.eqb (fst e) agentId)
               && match a_currentTaskId (snd e) with
                  | Some cur => String.eqb cur taskId
                  | None => false
                  end) (agents s) = true).
  { apply existsb_exists. exists (k, b). split; [assumption|]. simpl.
    rewrite Hcur, String.eqb_refl, andb_true_r, negb_true_iff.
    now apply String.eqb_neq. }
  congruence.
Qed.

(** Releasing an agent while rewriting one task keeps the invariant when no
    other agent refers to that task. *)
Lemma busy_release s agentId a' taskId t' queue :
  busyInvariant s ->
  a_currentTaskId a' = None -> a_status a' = Idle ->
  heldByOther taskId agentId s = false ->
  busyInvariant
    (mkCoordinator (set agentId a' (agents s))
                   (set taskId t' (tasks s)) queue).
Proof.
  intros Hinv Hcur Hst Hno.
  apply (busy_update s _ agentId a'); auto.
  - unfold agentConsistent. now rewrite Hcur, Hst.
  - intros k b tb Hne Hb Hcurb. simpl. apply get_set_ne.
    intros <-. now apply (not_heldByOther taskId agentId s k b).
Qed.

(** The first loop of the sweep, when no busy agent is stale: it only marks
    agents without a current task as offline. *)
Lemma busy_sweep now entries s :
  wellFormed s -> busyInvariant s ->
  NoDup (map fst entries) ->
  (forall k a, In (k, a) entries ->
               get k (agents s) = Some a /\ staleBusy now a = false) ->
  busyInvariant (fold_left (sweepAgent now) entries s).
Proof.
  revert s. induction entries as [|[k a] rest IH];
    intros s Hwf Hinv Hnd Hent; [assumption|].
  cbn [fold_left]. cbn [map fst] in Hnd.
  inversion Hnd as [|? ? Hnotin Hnd']; subst.
  destruct (Hent k a (or_introl eq_refl)) as [Hg Hstale].
  assert (Hid : a_id a = k) by now apply (proj2 Hwf).
  assert (Hnext :
    sweepAgent now s (k, a) = s
    \/ sweepAgent now s (k, a)
       = mkCoordinator (set k (withStatus a Offline) (agents s))
                       (tasks s) (taskQueue s)
       /\ a_currentTaskId a = None).
  { unfold sweepAgent.
    destruct (a_lastHeartbeat a <? now - staleAfter) eqn:Hold; simpl;
      [|now left].
    destruct (agentStatus_eqb (a_status a) Offline); simpl; [now left|].
    right. unfold staleBusy in Hstale. rewrite Hold in Hstale.
    simpl in Hstale.
    assert (Hcur : a_currentTaskId a = None).
    { apply (consistent_not_busy s); [now apply (Hinv k)|].
      intros Hb. apply agentStatus_eqb_eq in Hb. congruence. }
    now rewrite Hcur. }
  destruct Hnext as [->|[-> Hcur]].
  - apply IH; auto. intros k' a' Hin. apply Hent. now right.
  - apply IH; auto.
    + now apply wf_set_agent.
    + apply (busy_update s _ k (withStatus a Offline)); auto.
      unfold agentConsistent. simpl. now rewrite Hcur.
    + intros k' a' Hin. simpl.
      destruct (Hent k' a' (or_intror Hin)) as [Hg' Hst'].
      split; [|assumption]. rewrite get_set_ne; [assumption|].
      intros <-. apply Hnotin. change k with (fst (k, a')).
      now apply in_map.
Qed.

Lemma busy_purge now s :
  busyInvariant s ->
  busyInvariant
    (mkCoordinator (agents s) (filter (keepTask now) (tasks s))
                   (taskQueue s)).
Proof.
  intros Hinv. apply (busy_same_agents s); auto.
  intros k b taskId Hb Hcur. simpl.
  destruct (consistent_running s b taskId (Hinv _ _ Hb) Hcur)
    as (t & Ht & Hr).
  rewrite Ht. apply get_filter; [assumption|].
  unfold keepTask. simpl. now rewrite Hr.
Qed.

Lemma busy_alarm now s :
  wellFormed s -> busyInvariant s ->
  forallb (fun a => negb (staleBusy now a)) (values (agents s)) = true ->
  busyInvariant (alarm now s).
Proof.
  intros Hwf Hinv Hfresh. unfold alarm.
  apply busy_purge. apply busy_sweep; auto.
  - exact (proj1 Hwf).
  - intros k a Hin. split; [now apply In_get; [exact (proj1 Hwf)|]|].
    rewrite forallb_forall in Hfresh.
    apply negb_true_iff, Hfresh.
    unfold values. change a with (snd (k, a)). now apply in_map.
Qed.

Lemma busy_step env s ev :
  wellFormed s -> busyInvariant s -> disciplined s ev = true ->
  busyInvariant (step env s ev).
Proof.
  intros Hwf Hinv Hd. destruct ev as [now r]. destruct r; simpl in *.
  - apply (busy_update s _ ("agent-" ++ substring 0 8 uuid)
             (mkAgent ("agent-" ++ substring 0 8 uuid) name type Idle None
                match capabilities with Some c => c | None => [] end
                now 0 0 now)); auto.
  - unfold handleHeartbeat.
    destruct (get agentId (agents s)) as [a|] eqn:Hg; simpl; [|assumption].
    apply (busy_update s _ agentId (withHeartbeat a now status)); auto.
    rewrite <- (Hinv _ _ Hg). unfold agentConsistent, holdsTask. simpl.
    destruct status as [st|]; [|reflexivity].
    apply Bool.eqb_prop in Hd. now rewrite Hd.
  - unfold handleSubmitTask.
    match goal with |- context [tryAssignTasks now ?s1] =>
      assert (Hinv1 : busyInvariant s1) end.
    { apply (busy_same_agents s); auto.
      intros k b taskId Hb Hcur. simpl.
      destruct (consistent_running s b taskId (Hinv _ _ Hb) Hcur)
        as (t & Ht & _).
      apply get_set_ne. intros <-. unfold has in Hd.
      rewrite Ht in Hd. discriminate. }
    match goal with |- context [tryAssignTasks now ?s1] =>
      pose proof (busy_tryAssignTasks now s1 Hinv1) as H;
      destruct (tryAssignTasks now s1) as [s2 [|]] end; exact H.
  - unfold handleGetNextTask.
    destruct (get agentId (agents s)) as [a|] eqn:Hg; simpl; [|assumption].
    destruct (negb _); simpl; [assumption|].
    destruct (scanQueue a (tasks s) (taskQueue s)) eqn:Hscan; simpl;
      try assumption.
    apply scanQueue_hit in Hscan as (Ht & Hp & _).
    apply busy_assign; auto. now apply (proj2 Hwf).
  - unfold handleCompleteTask.
    destruct (get taskId (tasks s)) as [t|]; [|assumption].
    destruct (get agentId (agents s)) as [a|] eqn:Hg; [|assumption].
    apply negb_true_iff in Hd.
    match goal with |- context [tryAssignTasks now ?s1] =>
      assert (Hinv1 : busyInvariant s1)
        by (now apply busy_release);
      pose proof (busy_tryAssignTasks now s1 Hinv1) as H;
      destruct (tryAssignTasks now s1) as [s2 [|]] end; exact H.
  - unfold handleFailTask.
    destruct (get taskId (tasks s)) as [t|]; [|assumption].
    destruct (get agentId (agents s)) as [a|] eqn:Hg; [|assumption].
    apply negb_true_iff in Hd.
    destruct shouldRetry as [[|]|]; simpl; now apply busy_release.
  - now apply busy_alarm.
Qed.

Lemma busy_init : busyInvariant init.
Proof. intros k a [=]. Qed.

Lemma busy_run env evs s :
  wellFormed s -> busyInvariant s -> disciplinedRun env evs s = true ->
  busyInvariant (run env evs s).
Proof.
  revert s. induction evs as [|ev rest IH]; simpl; intros s Hwf Hinv Hd;
    [assumption|].
  apply andb_true_iff in Hd as [Hd1 Hd2].
  apply IH; auto using wf_step, busy_step.
Qed.

(** A check that decides the invariant on a given state. *)
Lemma busyInvariant_check s :
  forallb (agentConsistent s) (values (agents s)) = true -> busyInvariant s.
Proof.
  intros H k a Hg. rewrite forallb_forall in H. apply H.
  unfold values. change a with (snd (k, a)). apply in_map.
  now apply get_In.
Qed.

(** *** What a completed pass leaves behind *)

Import CoordinatorReads.

(** A scan misses exactly when no backlog entry is a pending task that the
    agent can handle or on which matching raises. *)
Lemma scanQueue_miss agent ts queue :
  scanQueue agent ts queue = Miss <->
  (forall x t, In x queue -> get x ts = Some t -> t_status t = Pending ->
               canAgentHandleTask agent t = Some false).
Proof.
  induction queue as [|x rest IH]; simpl.
  - split; [intros _ ? ? []|reflexivity].
  - assert (Hkeep : keepFront x (scanQueue agent ts rest) = Miss
                    <-> scanQueue agent ts rest = Miss).
    { destruct (scanQueue agent ts rest); simpl; split; congruence. }
    destruct (get x ts) as [t|] eqn:Hx.
    + destruct (taskStatus_eqb (t_status t) Pending) eqn:Hp.
      * apply taskStatus_eqb_eq in Hp.
        destruct (canAgentHandleTask agent t) as [[|]|] eqn:Hc.
        -- split; [discriminate|]. intros H.
           specialize (H x t (or_introl eq_refl) Hx Hp). congruence.
        -- rewrite Hkeep, IH. split.
           ++ intros H y t' [<-|Hy] Hg' Hp';
                [congruence|now apply (H y t')].
           ++ intros H y t' Hy. apply H. now right.
        -- split; [discriminate|]. intros H.
           specialize (H x t (or_introl eq_refl) Hx Hp). congruence.
      * rewrite Hkeep, IH. split.
        -- intros H y t' [<-|Hy] Hg' Hp'; [|now apply (H y t')].
           rewrite Hx in Hg'. injection Hg' as <-.
           apply taskStatus_eqb_eq in Hp'. congruence.
        -- intros H y t' Hy. apply H. now right.
    + rewrite Hkeep, IH. split.
      * intros H y t' [<-|Hy] Hg' Hp'; [congruence|now apply (H y t')].
      * intros H y t' Hy. apply H. now right.
Qed.

Lemma later_refl s : later s s.
Proof.
  repeat split; auto.
  - apply incl_refl.
  - intros k b Hg Hb. now exists b.
Qed.

Lemma later_trans s1 s2 s3 : later s1 s2 -> later s2 s3 -> later s1 s3.
Proof.
  intros (Hq & Ht & Hi & Hb) (Hq' & Ht' & Hi' & Hb'). repeat split.
  - eapply incl_tran; eassumption.
  - intros x t Hg Hp. apply Ht; [|assumption]. now apply Ht'.
  - intros k b Hg Hidle. apply Hi; [|assumption]. now apply Hi'.
  - intros k b Hg Hbusy. destruct (Hb k b Hg Hbusy) as (b' & Hg' & Hbusy').
    now apply (Hb' k b').
Qed.

Lemma later_assignOne now a s : later s (fst (assignOne now a s)).
Proof.
  unfold assignOne.
  destruct (scanQueue a (tasks s) (taskQueue s)) eqn:Hscan; simpl;
    try apply later_refl.
  apply scanQueue_hit in Hscan
    as (Hg & Hp & _ & front & back & Hq & Hq' & _).
  repeat split; simpl.
  - rewrite Hq, Hq'. intros x Hx. apply in_app_or in Hx as [Hx|Hx];
      apply in_or_app; [now left|right; now right].
  - intros x t Hx Hpx. destruct (String.eqb_spec taskId x) as [->|Hne].
    + rewrite get_set_eq in Hx. injection Hx as <-. discriminate.
    + now rewrite get_set_ne in Hx.
  - intros k b Hk Hidle. destruct (String.eqb_spec (a_id a) k) as [<-|Hne].
    + rewrite get_set_eq in Hk. injection Hk as <-. discriminate.
    + now rewrite get_set_ne in Hk.
  - intros k b Hk Hbusy. destruct (String.eqb_spec (a_id a) k) as [<-|Hne].
    + eexists. rewrite get_set_eq. split; reflexivity.
    + exists b. now rewrite get_set_ne.
Qed.

Lemma later_miss a s s' :
  later s s' -> scanQueue a (tasks s) (taskQueue s) = Miss ->
  scanQueue a (tasks s') (taskQueue s') = Miss.
Proof.
  intros (Hq & Ht & _) Hmiss. rewrite scanQueue_miss in *.
  intros x t Hx Hg Hp. apply (Hmiss x t); auto.
Qed.

(** After a pass that was not cut short, every agent of the snapshot has
    either scanned the final backlog in vain or is busy. *)
Lemma pass_settles now idleAgents s s1 :
  assignAll now idleAgents s = (s1, false) ->
  later s s1
  /\ forall a, In a idleAgents ->
       scanQueue a (tasks s1) (taskQueue s1) = Miss
       \/ exists b, get (a_id a) (agents s1) = Some b /\ a_status b = Busy.
Proof.
  revert s. induction idleAgents as [|a rest IH]; simpl; intros s Hrun.
  - injection Hrun as <-. split; [apply later_refl|intros ? []].
  - pose proof (later_assignOne now a s) as Hstep.
    destruct (assignOne now a s) as [s' [|]] eqn:Hone; [discriminate|].
    simpl in Hstep. destruct (IH s' Hrun) as (Hlater & Hrest).
    split; [now apply (later_trans s s' s1)|].
    intros b [<-|Hb]; [|now apply Hrest].
    unfold assignOne in Hone.
    destruct (scanQueue a (tasks s) (taskQueue s)) eqn:Hscan;
      injection Hone as <-; try discriminate.
    + right. destruct Hlater as (_ & _ & _ & Hbusy).
      apply (Hbusy (a_id a) (assignedAgent a taskId));
        [apply get_set_eq|reflexivity].
    + left. now apply (later_miss a s s1).
Qed.

Lemma assignAll_all_miss now idleAgents s :
  (forall a, In a idleAgents ->
             scanQueue a (tasks s) (taskQueue s) = Miss) ->
  assignAll now idleAgents s = (s, false).
Proof.
  induction idleAgents as [|a rest IH]; simpl; intros Hmiss; [reflexivity|].
  unfold assignOne. rewrite (Hmiss a (or_introl eq_refl)).
  apply IH. intros b Hb. apply Hmiss. now right.
Qed.

End CoordinatorFacts.

Module CoordinatorSpec.

Import JsMap JsMapFacts AgentCoordinator CoordinatorFacts CoordinatorReads.

(** *** The assignment pass leaves settled things alone *)

Lemma assignOne_task_kept now agent s k t :
  get k (tasks s) = Some t -> t_status t <> Pending ->
  get k (tasks (fst (assignOne now agent s))) = Some t.
Proof.
  intros Hg Hnp. unfold assignOne.
  destruct (scanQueue agent (tasks s) (taskQueue s)) eqn:Hscan; simpl; auto.
  apply scanQueue_hit in Hscan as (Hg' & Hp & _).
  rewrite get_set_ne; [assumption|]. intros <-. congruence.
Qed.

Lemma assignAll_task_kept now idleAgents s k t :
  get k (tasks s) = Some t -> t_status t <> Pending ->
  get k (tasks (fst (assignAll now idleAgents s))) = Some t.
Proof.
  revert s. induction idleAgents as [|a rest IH]; simpl; intros s Hg Hnp;
    [assumption|].
  pose proof (assignOne_task_kept now a s k t Hg Hnp) as H1.
  destruct (assignOne now a s) as [s' [|]]; simpl in *; auto.
Qed.

(** ** Stated properties of the coordinator *)

(** C1, as stated, fails.  The state after a worker was registered, given
    a task by the assignment pass, and then sent a heartbeat carrying
    status [idle] is reachable, and in it the agent is not busy although
    its [currentTaskId] is set and the task is still running for it. *)
Lemma busy_invariant_broken_by_heartbeat :
  ~ (forall s, reachable s ->
     forall k a, get k (agents s) = Some a -> busyIff s a).
Proof.
  intros H.
  pose (s := run CoordinatorScenario.env
               [CoordinatorScenario.registerA; CoordinatorScenario.submitT1;
                (3000, Heartbeat CoordinatorScenario.agentA (Some Idle))]
               init).
  assert (Hr : reachable s)
    by (exists CoordinatorScenario.env; eexists; reflexivity).
  destruct (get CoordinatorScenario.agentA (agents s)) as [a|] eqn:Hg;
    [|discriminate].
  destruct (H s Hr _ a Hg) as [[_ Hbusy] _].
  vm_compute in Hg. injection Hg as <-.
  assert (Hb : Idle = Busy) by (apply Hbusy; discriminate).
  discriminate.
Qed.

(** C1, amended.  From a reachable state in which every agent satisfies
    the chain of equivalences, every disciplined request leads to a state
    in which every agent satisfies it again: registration; a heartbeat
    that carries no status or one that does not move the agent into or out
    of [busy]; submission under an unused task id; requestNext; complete
    and fail for a task that no other agent holds; the sweep when no busy
    agent is stale. *)
Theorem busy_invariant_kept env s ev :
  reachable s ->
  (forall k a, get k (agents s) = Some a -> busyIff s a) ->
  disciplined s ev = true ->
  forall k a, get k (agents (step env s ev)) = Some a ->
              busyIff (step env s ev) a.
Proof.
  intros Hr Hinv Hd k a Hg. apply agentConsistent_spec.
  apply (busy_step env s ev) with (k := k); auto.
  - now apply wf_reachable.
  - intros k' a' Hg'. apply agentConsistent_spec. now apply (Hinv k').
Qed.

(** The theorem at the completion of the first task by the analyzer that
    holds it, with a second task waiting. *)
Lemma busy_invariant_kept_witness :
  disciplined CoordinatorScenario.backlogged
    (3000, Complete CoordinatorScenario.taskT1 CoordinatorScenario.agentA "{}")
  = true
  /\ forall k a,
       get k (agents (step CoordinatorScenario.env
                        CoordinatorScenario.backlogged
                        (3000, Complete CoordinatorScenario.taskT1
                                        CoordinatorScenario.agentA "{}")))
       = Some a ->
       busyIff (step CoordinatorScenario.env CoordinatorScenario.backlogged
                  (3000, Complete CoordinatorScenario.taskT1
                                  CoordinatorScenario.agentA "{}")) a.
Proof.
  split; [reflexivity|].
  apply busy_invariant_kept.
  - exists CoordinatorScenario.env,
      [CoordinatorScenario.registerA; CoordinatorScenario.submitT1;
       CoordinatorScenario.submitT2].
    reflexivity.
  - intros k a Hg. apply agentConsistent_spec. revert k a Hg.
    apply busyInvariant_check. reflexivity.
  - reflexivity.
Defined.

(** The invariant holds after any run of disciplined requests from the
    empty coordinator. *)
Corollary busy_invariant_disciplined_runs env evs :
  disciplinedRun env evs init = true ->
  forall k a, get k (agents (run env evs init)) = Some a ->
              busyIff (run env evs init) a.
Proof.
  intros Hd k a Hg. apply agentConsistent_spec.
  apply (busy_run env evs init wf_init busy_init Hd k a Hg).
Qed.

(** The three places where the assignment pass runs or does not run. *)
Lemma submit_then_pass now uuid type description input priority parent s :
  exists s1,
    tasks s1
    = set ("task-" ++ substring 0 12 uuid)
          (mkTask ("task-" ++ substring 0 12 uuid) EmptyString type
                  description Pending input None None now None None
                  parent None)
          (tasks s)
    /\ agents s1 = agents s
    /\ snd (handleSubmitTask now uuid type description input priority
                             parent s)
       = fst (tryAssignTasks now s1).
Proof.
  unfold handleSubmitTask.
  match goal with |- context [tryAssignTasks now ?s1] => exists s1 end.
  repeat split. now destruct (tryAssignTasks now _) as [s2 [|]].
Qed.

Lemma complete_then_pass now taskId agentId output s task agent :
  get taskId (tasks s) = Some task -> get agentId (agents s) = Some agent ->
  snd (handleCompleteTask now taskId agentId output s)
  = fst (tryAssignTasks now
           (completeWrites now taskId agentId output task agent s)).
Proof.
  intros Ht Ha. unfold handleCompleteTask. rewrite Ht, Ha.
  now destruct (tryAssignTasks now _) as [s2 [|]].
Qed.

Lemma fail_without_pass env now taskId agentId err shouldRetry s task agent :
  get taskId (tasks s) = Some task -> get agentId (agents s) = Some agent ->
  let s' := snd (fst (handleFailTask env now taskId agentId err
                                     shouldRetry s)) in
  agents s' = set agentId (releasedFailed agent) (agents s)
  /\ exists task',
       tasks s' = set taskId task' (tasks s)
       /\ (taskQueue s' = taskQueue s \/ taskQueue s' = taskId :: taskQueue s).
Proof.
  intros Ht Ha. unfold handleFailTask. rewrite Ht, Ha.
  destruct shouldRetry as [[|]|]; simpl; split; eauto.
Qed.

(** Registration order is map order: a new agent goes last, and the pass
    visits the idle agents in map order. *)
Lemma register_appends now uuid name type capabilities s :
  get ("agent-" ++ substring 0 8 uuid) (agents s) = None ->
  keys (agents (snd (handleRegisterAgent now uuid name type capabilities s)))
  = (keys (agents s) ++ [("agent-" ++ substring 0 8 uuid)%string])%list.
Proof. intros Hnew. simpl. now apply keys_set_absent. Qed.

(** A task handed out by [handleGetNextTask] was stored as [pending]. *)
Lemma next_task_was_pending now agentId s task' :
  fst (handleGetNextTask now agentId s) = NextTask task' ->
  exists taskId t,
    get taskId (tasks s) = Some t /\ t_status t = Pending
    /\ task' = startedTask t agentId now.
Proof.
  unfold handleGetNextTask.
  destruct (get agentId (agents s)) as [a|]; [|discriminate].
  destruct (negb _); [discriminate|].
  destruct (scanQueue a (tasks s) (taskQueue s)) eqn:Hscan;
    try discriminate.
  simpl. intros [= <-].
  apply scanQueue_hit in Hscan as (Hg & Hp & _). eauto.
Qed.

(** C4: the code at the failing input.  After the analyzer failed its task
    with [shouldRetry] the task is [retrying], unassigned and at the head
    of the backlog, and the analyzer is idle and able to handle it; yet
    its next request is answered with no task, and with a second task
    waiting behind the retried one it is handed that second task. *)
Theorem retried_task_is_passed_over :
  (exists t a,
      get CoordinatorScenario.taskT1 (tasks CoordinatorScenario.retried)
      = Some t
      /\ t_status t = Retrying /\ t_agentId t = EmptyString
      /\ taskQueue CoordinatorScenario.retried = [CoordinatorScenario.taskT1]
      /\ get CoordinatorScenario.agentA (agents CoordinatorScenario.retried)
         = Some a
      /\ a_status a = Idle
      /\ canAgentHandleTask a t = Some true)
  /\ handleGetNextTask 4000 CoordinatorScenario.agentA
                       CoordinatorScenario.retried
     = (NoTask "No suitable tasks", CoordinatorScenario.retried)
  /\ taskQueue CoordinatorScenario.retriedBacklogged
     = [CoordinatorScenario.taskT1; CoordinatorScenario.taskT2]
  /\ exists t2,
       fst (handleGetNextTask 4000 CoordinatorScenario.agentA
                              CoordinatorScenario.retriedBacklogged)
       = NextTask t2
       /\ t_id t2 = CoordinatorScenario.taskT2.
Proof.
  split; [do 2 eexists; vm_compute; repeat split|].
  split; [reflexivity|]. split; [reflexivity|].
  eexists. vm_compute. split; reflexivity.
Qed.

(** C5: the code at the failing input.  After the analyzer failed its task
    for good while a second task it can handle was waiting, the analyzer
    is idle and the second task is still pending in the backlog: no
    assignment pass has run (one run now would hand the task over), whereas
    completing the first task instead does hand it over. *)
Theorem fail_runs_no_assignment_pass :
  let s' :=
    snd (fst (handleFailTask CoordinatorScenario.env 3000
                CoordinatorScenario.taskT1 CoordinatorScenario.agentA
                "boom" None CoordinatorScenario.backlogged)) in
  (exists a t,
      get CoordinatorScenario.agentA (agents s') = Some a
      /\ a_status a = Idle
      /\ get CoordinatorScenario.taskT2 (tasks s') = Some t
      /\ t_status t = Pending
      /\ canAgentHandleTask a t = Some true)
  /\ taskQueue s' = [CoordinatorScenario.taskT2]
  /\ (exists a,
        get CoordinatorScenario.agentA
            (agents (fst (tryAssignTasks 3000 s'))) = Some a
        /\ a_currentTaskId a = Some CoordinatorScenario.taskT2)
  /\ (exists a,
        get CoordinatorScenario.agentA
            (agents (snd (handleCompleteTask 3000
                            CoordinatorScenario.taskT1
                            CoordinatorScenario.agentA "{}"
                            CoordinatorScenario.backlogged))) = Some a
        /\ a_currentTaskId a = Some CoordinatorScenario.taskT2).
Proof.
  split; [do 2 eexists; vm_compute; repeat split|].
  split; [reflexivity|].
  split; eexists; vm_compute; split; reflexivity.
Qed.

(** C9.  A heartbeat of a registered agent answers with success, leaves
    the tasks, the backlog, the set and order of agents and every other
    agent as they were, and changes of the agent itself only
    [lastHeartbeat] and, when a status is supplied, [status].  In
    particular a heartbeat with status [idle] for a busy agent leaves its
    [currentTaskId] set and the referenced task running for it. *)
Theorem heartbeat_frame now agentId status s agent :
  get agentId (agents s) = Some agent ->
  let s' := snd (handleHeartbeat now agentId status s) in
  fst (handleHeartbeat now agentId status s) = HeartbeatOk
  /\ tasks s' = tasks s
  /\ taskQueue s' = taskQueue s
  /\ keys (agents s') = keys (agents s)
  /\ (forall k, k <> agentId -> get k (agents s') = get k (agents s))
  /\ (exists agent',
        get agentId (agents s') = Some agent'
        /\ a_lastHeartbeat agent' = now
        /\ a_status agent'
           = match status with Some st => st | None => a_status agent end
        /\ a_currentTaskId agent' = a_currentTaskId agent
        /\ a_id agent' = a_id agent
        /\ a_name agent' = a_name agent
        /\ a_type agent' = a_type agent
        /\ a_capabilities agent' = a_capabilities agent
        /\ a_tasksCompleted agent' = a_tasksCompleted agent
        /\ a_tasksFailed agent' = a_tasksFailed agent
        /\ a_createdAt agent' = a_createdAt agent)
  /\ (forall taskId,
        status = Some Idle -> a_status agent = Busy ->
        a_currentTaskId agent = Some taskId ->
        holdsTask s agent taskId = true ->
        exists agent',
          get agentId (agents s') = Some agent'
          /\ a_status agent' = Idle
          /\ a_currentTaskId agent' = Some taskId
          /\ holdsTask s' agent' taskId = true).
Proof.
  intros Hg. unfold handleHeartbeat. rewrite Hg. simpl.
  repeat split.
  - apply keys_set_present. congruence.
  - intros k Hne. apply get_set_ne. congruence.
  - exists (withHeartbeat agent now status). rewrite get_set_eq.
    repeat split.
  - intros taskId -> Hb Hcur Hheld.
    exists (withHeartbeat agent now (Some Idle)). rewrite get_set_eq.
    repeat split; assumption.
Qed.

(** The theorem at a heartbeat with status [idle] for the busy analyzer. *)
Lemma heartbeat_frame_witness :
  exists agent',
    get CoordinatorScenario.agentA
        (agents (snd (handleHeartbeat 3000 CoordinatorScenario.agentA
                        (Some Idle) CoordinatorScenario.working)))
    = Some agent'
    /\ a_status agent' = Idle
    /\ a_currentTaskId agent' = Some CoordinatorScenario.taskT1.
Proof.
  destruct (heartbeat_frame 3000 CoordinatorScenario.agentA (Some Idle)
              CoordinatorScenario.working
              (mkAgent CoordinatorScenario.agentA "worker-1" Analyzer Busy
                       (Some CoordinatorScenario.taskT1) [] 1000 0 0 1000)
              eq_refl)
    as (_ & _ & _ & _ & _ & _ & H).
  destruct (H CoordinatorScenario.taskT1 eq_refl eq_refl eq_refl eq_refl)
    as (agent' & Hg & Hs & Hc & _).
  exists agent'. repeat split; assumption.
Defined.

(** C10, as stated, fails in its outcome for the agent.  With a second
    task waiting in the backlog, the analyzer that completes its task is
    not idle when [completeTask] returns: the assignment pass run by the
    same request has already given it the waiting task. *)
Lemma complete_may_leave_agent_busy :
  ~ (forall now taskId agentId output s task agent,
        get taskId (tasks s) = Some task ->
        get agentId (agents s) = Some agent ->
        exists agent',
          get agentId
              (agents (snd (handleCompleteTask now taskId agentId output s)))
          = Some agent'
          /\ a_status agent' = Idle
          /\ a_currentTaskId agent' = None).
Proof.
  intros H.
  destruct (get CoordinatorScenario.taskT1
                (tasks CoordinatorScenario.backlogged)) as [t|] eqn:Ht;
    [|discriminate].
  destruct (get CoordinatorScenario.agentA
                (agents CoordinatorScenario.backlogged)) as [a|] eqn:Ha;
    [|discriminate].
  destruct (H 3000 _ _ "{}" _ t a Ht Ha) as (a' & Hg & Hs & _).
  vm_compute in Hg. injection Hg as <-. discriminate.
Qed.

(** What the pass does to one agent of its snapshot: nothing, or it makes
    the agent busy with a task that was pending in the backlog when the
    pass began and that the agent can handle; that task is then running
    under the agent's id. *)
Lemma assignAll_agent_fate now idleAgents s0 agentId a0 : forall s,
  (forall a, In a idleAgents -> a_id a = agentId -> a = a0) ->
  a_id a0 = agentId ->
  later s0 s ->
  (get agentId (agents s) = Some a0
   \/ exists next t,
        get agentId (agents s) = Some (assignedAgent a0 next)
        /\ In next (taskQueue s0) /\ get next (tasks s0) = Some t
        /\ t_status t = Pending /\ canAgentHandleTask a0 t = Some true
        /\ get next (tasks s) = Some (startedTask t agentId now)) ->
  get agentId (agents (fst (assignAll now idleAgents s))) = Some a0
  \/ exists next t,
       get agentId (agents (fst (assignAll now idleAgents s)))
       = Some (assignedAgent a0 next)
       /\ In next (taskQueue s0) /\ get next (tasks s0) = Some t
       /\ t_status t = Pending /\ canAgentHandleTask a0 t = Some true
       /\ get next (tasks (fst (assignAll now idleAgents s)))
          = Some (startedTask t agentId now).
Proof.
  induction idleAgents as [|a rest IH]; cbn [assignAll]; intros s Hsnap Hid
    Hlater Hcur; [assumption|].
  assert (Hlater1 : later s0 (fst (assignOne now a s))).
  { apply (later_trans s0 s); [assumption|apply later_assignOne]. }
  assert (Hcur1 :
    get agentId (agents (fst (assignOne now a s))) = Some a0
    \/ exists next t,
         get agentId (agents (fst (assignOne now a s)))
         = Some (assignedAgent a0 next)
         /\ In next (taskQueue s0) /\ get next (tasks s0) = Some t
         /\ t_status t = Pending /\ canAgentHandleTask a0 t = Some true
         /\ get next (tasks (fst (assignOne now a s)))
            = Some (startedTask t agentId now)).
  { unfold assignOne.
    destruct (scanQueue a (tasks s) (taskQueue s)) eqn:Hscan; cbn [fst];
      try assumption.
    apply scanQueue_hit in Hscan
      as (Hg & Hp & Hcan & front & back & Hq & _).
    cbn [agents tasks].
    destruct (String.eqb_spec (a_id a) agentId) as [Heq|Hne].
    - pose proof (Hsnap a (or_introl eq_refl) Heq) as Ha. subst a.
      right. exists taskId, task. rewrite Heq, !get_set_eq.
      destruct Hlater as (Hincl & Hpending & _).
      repeat split; try assumption.
      + apply Hincl. rewrite Hq. apply in_or_app. right. now left.
      + now apply Hpending.
    - rewrite get_set_ne by assumption.
      destruct Hcur as [Hsame|(next & t & Ha & Hin & Ht0 & Hpt & Hct & Hrun)];
        [now left|].
      right. exists next, t. repeat split; try assumption.
      rewrite get_set_ne; [assumption|].
      intros <-. rewrite Hg in Hrun. injection Hrun as ->. discriminate. }
  destruct (assignOne now a s) as [s1 [|]]; cbn [fst] in *; [assumption|].
  apply IH; try assumption.
  intros b Hb. apply Hsnap. now right.
Qed.

(** C10, amended.  [completeTask] checks neither the task's status, nor
    its assignee, nor the agent's status: for every existing task and
    every existing agent it marks the task [completed] with the given
    output and completion time, sets the agent to [idle] with
    [currentTaskId] cleared and increments its completed counter, leaving
    the backlog and all other tasks and agents alone.  It then runs the
    assignment pass on that state.  When it returns the task is still as
    written, and (the agents being keyed by their ids) the agent is in one
    of two states.  Either it is as written, idle with no current task,
    and then, unless the pass raised, no pending task left in the backlog
    is one it can handle.  Or it is busy, with its counter incremented,
    and its current task is one that was pending in the backlog before
    the request and that it can handle; that task is now running under
    its id, started now. *)
Theorem complete_unchecked now taskId agentId output s task agent :
  get taskId (tasks s) = Some task ->
  get agentId (agents s) = Some agent ->
  let result := handleCompleteTask now taskId agentId output s in
  let s2 := snd result in
  exists s1 task1 agent1,
    (get taskId (tasks s1) = Some task1
     /\ t_status task1 = Completed
     /\ t_output task1 = Some output
     /\ t_completedAt task1 = Some now)
    /\ (get agentId (agents s1) = Some agent1
        /\ a_status agent1 = Idle
        /\ a_currentTaskId agent1 = None
        /\ a_tasksCompleted agent1 = a_tasksCompleted agent + 1)
    /\ taskQueue s1 = taskQueue s
    /\ (forall k, k <> taskId -> get k (tasks s1) = get k (tasks s))
    /\ (forall k, k <> agentId -> get k (agents s1) = get k (agents s))
    /\ s2 = fst (tryAssignTasks now s1)
    /\ get taskId (tasks s2) = Some task1
    /\ (wellFormed s ->
        (get agentId (agents s2) = Some agent1
         /\ (fst result = ServerError
             \/ forall x t, In x (taskQueue s2) ->
                            get x (tasks s2) = Some t ->
                            t_status t = Pending ->
                            canAgentHandleTask agent1 t = Some false))
        \/ (exists next t agent2,
              get agentId (agents s2) = Some agent2
              /\ a_status agent2 = Busy
              /\ a_currentTaskId agent2 = Some next
              /\ a_tasksCompleted agent2 = a_tasksCompleted agent + 1
              /\ In next (taskQueue s)
              /\ get next (tasks s) = Some t
              /\ t_status t = Pending
              /\ canAgentHandleTask agent1 t = Some true
              /\ get next (tasks s2) = Some (startedTask t agentId now))).
Proof.
  intros Ht Ha result s2. subst s2.
  exists (completeWrites now taskId agentId output task agent s),
         (completedTask task output now), (releasedCompleted agent).
  set (s1 := completeWrites now taskId agentId output task agent s).
  set (agent1 := releasedCompleted agent).
  assert (Hsnd : snd result = fst (tryAssignTasks now s1))
    by apply (complete_then_pass now taskId agentId output s task agent Ht Ha).
  assert (Hfst : fst result = ServerError
                 \/ snd (tryAssignTasks now s1) = false).
  { subst result. unfold handleCompleteTask. rewrite Ht, Ha. fold s1.
    destruct (tryAssignTasks now s1) as [s2 [|]]; [now left|now right]. }
  rewrite Hsnd.
  assert (Ht1 : get taskId (tasks s1) = Some (completedTask task output now))
    by apply get_set_eq.
  assert (Ha1 : get agentId (agents s1) = Some agent1) by apply get_set_eq.
  split; [now repeat split|]. split; [now repeat split|].
  split; [reflexivity|].
  split; [intros k Hne; apply get_set_ne; congruence|].
  split; [intros k Hne; apply get_set_ne; congruence|].
  split; [reflexivity|].
  split; [apply assignAll_task_kept; [assumption|discriminate]|].
  intros Hwf.
  assert (Hid : a_id agent1 = agentId)
    by exact (proj2 Hwf agentId agent Ha).
  assert (Hwf1 : wellFormed s1) by now apply wf_set_agent.
  set (idle := filter (fun a => agentStatus_eqb (a_status a) Idle)
                      (values (agents s1))).
  assert (Hsnap : forall a, In a idle -> a_id a = agentId -> a = agent1).
  { intros a Hin Hida. apply filter_In in Hin as [Hin _].
    unfold values in Hin. apply in_map_iff in Hin as ([k a'] & Heq & Hin).
    simpl in Heq. subst a'.
    apply (In_get k a _ (proj1 Hwf1)) in Hin.
    pose proof (proj2 Hwf1 k a Hin) as Hk. rewrite Hida in Hk. subst k.
    congruence. }
  change (tryAssignTasks now s1) with (assignAll now idle s1) in *.
  destruct (assignAll_agent_fate now idle s1 agentId agent1 s1 Hsnap Hid
                                 (later_refl s1) (or_introl Ha1))
    as [Hsame|(next & t & Hbusy & Hin & Hnext & Hp & Hcan & Hrun)].
  - left. split; [assumption|].
    destruct Hfst as [Herr|Hend]; [now left|right].
    assert (Hpass : assignAll now idle s1
                    = (fst (assignAll now idle s1), false)).
    { destruct (assignAll now idle s1) as [s2 threw]. cbn in *. now subst. }
    destruct (pass_settles now idle s1 _ Hpass) as (_ & Hsettled).
    destruct (Hsettled agent1) as [Hmiss|(b & Hb & Hbusy)].
    + apply filter_In. split; [|reflexivity].
      unfold values. change agent1 with (snd (agentId, agent1)).
      apply in_map. now apply get_In.
    + now apply scanQueue_miss.
    + rewrite Hid, Hsame in Hb. injection Hb as <-. discriminate.
  - right. exists next, t, (assignedAgent agent1 next).
    repeat split; try assumption.
    destruct (String.eqb_spec next taskId) as [->|Hne].
    + rewrite Ht1 in Hnext. injection Hnext as <-. discriminate.
    + unfold s1, completeWrites in Hnext. cbn [tasks] in Hnext.
      rewrite get_set_ne in Hnext; [assumption|congruence].
Qed.

(** The theorem where none of the three checks would pass and the pass
    hands out a task: in [crossed] the second analyzer, idle, completes
    [taskT1], which is running for the first; it comes out busy with
    [taskT2], which was waiting. *)
Lemma complete_unchecked_witness :
  let result :=
    handleCompleteTask 3000 CoordinatorScenario.taskT1
                       CoordinatorScenario.agentB "{}"
                       CoordinatorScenario.crossed in
  option_map t_status
    (get CoordinatorScenario.taskT1 (tasks (snd result))) = Some Completed
  /\ exists agent2,
       get CoordinatorScenario.agentB (agents (snd result)) = Some agent2
       /\ a_status agent2 = Busy
       /\ a_currentTaskId agent2 = Some CoordinatorScenario.taskT2
       /\ a_tasksCompleted agent2 = 1.
Proof.
  intros result.
  destruct (complete_unchecked 3000 CoordinatorScenario.taskT1
              CoordinatorScenario.agentB "{}" CoordinatorScenario.crossed
              (mkTask CoordinatorScenario.taskT1 CoordinatorScenario.agentA
                      "repo:analyze" "analyze repo" Running "{}" None None
                      2000 (Some 2000) None None None)
              (mkAgent CoordinatorScenario.agentB "worker-2" Analyzer Idle
                       None [] 2700 0 0 2700)
              eq_refl eq_refl)
    as (s1 & task1 & agent1 & (_ & Hdone & _) & (_ & Hst1 & _) & _ & _ & _
        & _ & Hkept & Hfate).
  fold result in Hkept, Hfate. split.
  - rewrite Hkept. cbn [option_map]. now rewrite Hdone.
  - destruct Hfate as [[Hidle _]|(next & t & agent2 & Hg & Hb & Hc & Hn & _)].
    + apply wf_reachable. exists CoordinatorScenario.env.
      exists [CoordinatorScenario.registerA; CoordinatorScenario.submitT1;
              CoordinatorScenario.submitT2; CoordinatorScenario.registerB].
      reflexivity.
    + exfalso. vm_compute in Hidle. injection Hidle as <-.
      discriminate Hst1.
    + exists agent2. split; [exact Hg|].
      vm_compute in Hg. injection Hg as <-. now repeat split.
Defined.

End CoordinatorSpec.

(** ** The job queue *)

Module QueueSpec.

Import JsMap JsMapFacts JobQueue JobQueueOps.

Lemma jobStatus_eqb_eq x y : jobStatus_eqb x y = true <-> x = y.
Proof. destruct x, y; simpl; split; congruence. Qed.

Lemma lane_setLane_same p q l : lane p (setLane p q l) = q.
Proof. now destruct p. Qed.

Lemma lane_setLane_other p p' q l :
  p <> p' -> lane p' (setLane p q l) = lane p' l.
Proof. destruct p, p'; simpl; congruence. Qed.

(** *** The scan is a search for the first eligible id *)

Lemma scanLane_find ok queue :
  match scanLane ok queue with
  | Some (jobId, queue') =>
      find ok queue = Some jobId
      /\ exists front back,
           queue = (front ++ jobId :: back)%list
           /\ queue' = (front ++ back)%list
           /\ forallb (fun x => negb (ok x)) front = true
  | None => find ok queue = None
  end.
Proof.
  induction queue as [|x rest IH]; simpl; [reflexivity|].
  destruct (ok x) eqn:Hx.
  - split; [reflexivity|]. now exists [], rest.
  - destruct (scanLane ok rest) as [[jobId queue']|]; [|assumption].
    destruct IH as (Hf & front & back & -> & -> & Hfront).
    split; [assumption|]. exists (x :: front), back.
    repeat split. simpl. now rewrite Hx.
Qed.

Lemma find_app {A} (f : A -> bool) (l l' : list A) :
  find f (l ++ l') = match find f l with
                     | Some x => Some x
                     | None => find f l'
                     end.
Proof.
  induction l as [|x l IH]; simpl; [reflexivity|].
  now destruct (f x).
Qed.

Lemma eligible_get now types js jobId :
  eligible now types js jobId = true -> exists job, get jobId js = Some job.
Proof.
  unfold eligible. destruct (get jobId js) as [job|]; [eauto|discriminate].
Qed.

Lemma dequeueFrom_find now types order s :
  match find (eligible now types (jobs s))
             (concat (map (fun p => lane p (priorityQueues s)) order)) with
  | Some jobId =>
      exists job,
        get jobId (jobs s) = Some job
        /\ fst (dequeueFrom now types order s)
           = DequeueOk (Some (startedJob job now))
        /\ jobs (snd (dequeueFrom now types order s))
           = set jobId (startedJob job now) (jobs s)
  | None => dequeueFrom now types order s = (DequeueOk None, s)
  end.
Proof.
  induction order as [|p lower IH]; simpl; [reflexivity|].
  rewrite find_app.
  pose proof (scanLane_find (eligible now types (jobs s))
                            (lane p (priorityQueues s))) as Hscan.
  destruct (scanLane _ _) as [[jobId queue']|].
  - destruct Hscan as (Hf & _). rewrite Hf.
    apply find_some in Hf as [_ Hel].
    destruct (eligible_get _ _ _ _ Hel) as (job & Hg).
    exists job. rewrite Hg. simpl. auto.
  - rewrite Hscan. exact IH.
Qed.

(** C3.  [handleDequeue] returns the first id, reading the lanes in the
    order critical, high, normal, low and each lane front to back, whose
    job is pending, is not scheduled for later and passes the type filter;
    it returns no job when there is none.  Hence, after (low, A),
    (critical, B), (normal, C), (high, D) were enqueued in that order into
    an empty queue, four dequeues without filter return B, D, C, A. *)
Theorem dequeue_order :
  (forall now workerId types s,
      match find (eligible now types (jobs s))
                 (scanOrder (priorityQueues s)) with
      | Some jobId =>
          exists job,
            get jobId (jobs s) = Some job
            /\ fst (handleDequeue now workerId types s)
               = DequeueOk (Some (startedJob job now))
            /\ jobs (snd (handleDequeue now workerId types s))
               = set jobId (startedJob job now) (jobs s)
      | None => handleDequeue now workerId types s = (DequeueOk None, s)
      end)
  /\ (forall e1 e2 e3 e4 uA uB uC uD tyA tyB tyC tyD pA pB pC pD
             mA mB mC mD workerId d1 d2 d3 d4,
        let idOf u := "job-" ++ substring 0 12 u in
        NoDup [idOf uA; idOf uB; idOf uC; idOf uD] ->
        let s1 := snd (handleEnqueue e1 uA tyA pA (Some Low) mA init) in
        let s2 := snd (handleEnqueue e2 uB tyB pB (Some Critical) mB s1) in
        let s3 := snd (handleEnqueue e3 uC tyC pC (Some Normal) mC s2) in
        let s4 := snd (handleEnqueue e4 uD tyD pD (Some High) mD s3) in
        fst (dequeueMany workerId [d1; d2; d3; d4] s4)
        = [Some (idOf uB); Some (idOf uD); Some (idOf uC); Some (idOf uA)]).
Proof.
  split.
  - intros now workerId types s.
    pose proof (dequeueFrom_find now types laneOrder s) as H.
    unfold scanOrder, handleDequeue. simpl in H.
    now rewrite app_nil_r in H.
  - intros e1 e2 e3 e4 uA uB uC uD tyA tyB tyC tyD pA pB pC pD
           mA mB mC mD workerId d1 d2 d3 d4 idOf Hnd.
    subst idOf. unfold handleEnqueue. cbn beta.
    remember ("job-" ++ substring 0 12 uA) as a.
    remember ("job-" ++ substring 0 12 uB) as b.
    remember ("job-" ++ substring 0 12 uC) as c.
    remember ("job-" ++ substring 0 12 uD) as d.
    clear Heqa Heqb Heqc Heqd.
    assert (Hne : forall x y : string,
               x <> y -> String.eqb x y = false /\ String.eqb y x = false).
    { intros x y H. split; apply String.eqb_neq; congruence. }
    inversion Hnd as [|? ? Ha Hnd1]; subst.
    inversion Hnd1 as [|? ? Hb Hnd2]; subst.
    inversion Hnd2 as [|? ? Hc Hnd3]; subst.
    simpl in Ha, Hb, Hc.
    destruct (Hne a b) as [Hab Hba]; [intuition congruence|].
    destruct (Hne a c) as [Hac Hca]; [intuition congruence|].
    destruct (Hne a d) as [Had Hda]; [intuition congruence|].
    destruct (Hne b c) as [Hbc Hcb]; [intuition congruence|].
    destruct (Hne b d) as [Hbd Hdb]; [intuition congruence|].
    destruct (Hne c d) as [Hcd Hdc]; [intuition congruence|].
    cbv zeta. cbn.
    repeat (progress
              (unfold eligible, newJob, startedJob; cbn;
               rewrite ?String.eqb_refl, ?Hab, ?Hba, ?Hac, ?Hca, ?Had, ?Hda,
                 ?Hbc, ?Hcb, ?Hbd, ?Hdb, ?Hcd, ?Hdc)).
    reflexivity.
Qed.

(** The theorem at four concrete jobs. *)
Lemma dequeue_order_witness :
  let enq now uuid priority s :=
    snd (handleEnqueue now uuid RepoSync "{}" (Some priority) None s) in
  fst (dequeueMany "worker-1" [5000; 5001; 5002; 5003]
         (enq 1003 QueueScenario.uuidD High
            (enq 1002 QueueScenario.uuidC Normal
               (enq 1001 QueueScenario.uuidB Critical
                  (enq 1000 QueueScenario.uuidA Low init)))))
  = [Some "job-bbbbbbbb-000"; Some "job-dddddddd-000";
     Some "job-cccccccc-000"; Some "job-aaaaaaaa-000"].
Proof.
  intros enq.
  apply (proj2 dequeue_order 1000 1001 1002 1003
           QueueScenario.uuidA QueueScenario.uuidB QueueScenario.uuidC
           QueueScenario.uuidD RepoSync RepoSync RepoSync RepoSync
           "{}" "{}" "{}" "{}" None None None None "worker-1"
           5000 5001 5002 5003).
  repeat constructor; simpl; intuition discriminate.
Defined.

(** *** Failing a job *)

Lemma handleFail_found env now jobId err shouldRetry s job :
  get jobId (jobs s) = Some job ->
  handleFail env now jobId err shouldRetry s
  = if retryPermitted shouldRetry job then
      match toISOString (now + backoffMs (j_retryCount job)) with
      | Some scheduledFor =>
          (FailOk (retriedJob job err scheduledFor) true,
           mkQueue (set jobId (retriedJob job err scheduledFor) (jobs s))
                   (setLane (j_priority job)
                            (jobId
                             :: lane (j_priority job) (priorityQueues s))
                            (priorityQueues s))
                   (addPending 1 (addProcessing (-1) (stats s))),
           [])
      | None =>
          (ServerError,
           mkQueue (set jobId (retryingJob job err) (jobs s))
                   (priorityQueues s) (addProcessing (-1) (stats s)),
           [])
      end
    else
      (FailOk (deadJob job err now) false,
       mkQueue (set jobId (deadJob job err now) (jobs s))
               (priorityQueues s)
               (addDead 1 (addProcessing (-1) (stats s))),
       triggerSelfHealingForDeadJob env now (deadJob job err now)).
Proof. intros Hg. unfold handleFail. now rewrite Hg. Qed.


Lemma toISOString_valid t :
  - maxTime <= t <= maxTime -> toISOString t = Some t.
Proof.
  intros [Hlo Hhi]. unfold toISOString.
  apply Z.leb_le in Hlo, Hhi. now rewrite Hlo, Hhi.
Qed.

(** A retry whose new [scheduledFor] is a time a [Date] can hold. *)
Lemma handleFail_retry env now jobId err shouldRetry s job :
  get jobId (jobs s) = Some job ->
  retryPermitted shouldRetry job = true ->
  - maxTime <= now + 2 ^ j_retryCount job * 1000 <= maxTime ->
  handleFail env now jobId err shouldRetry s
  = (FailOk (retriedJob job err (now + 2 ^ j_retryCount job * 1000)) true,
     mkQueue (set jobId
                  (retriedJob job err (now + 2 ^ j_retryCount job * 1000))
                  (jobs s))
             (setLane (j_priority job)
                      (jobId :: lane (j_priority job) (priorityQueues s))
                      (priorityQueues s))
             (addPending 1 (addProcessing (-1) (stats s))),
     []).
Proof.
  intros Hg Hretry Hvalid.
  rewrite (handleFail_found env now jobId err shouldRetry s job Hg), Hretry.
  unfold backoffMs. now rewrite (toISOString_valid _ Hvalid).
Qed.

(** *** Retry counts stay within their limits *)












End QueueSpec.

(** ** Strings *)

Module JsStringFacts.

Import JsString.
Local Open Scope list_scope.

Lemma list_ascii_of_string_app (a b : string) :
  list_ascii_of_string (a ++ b)%string
  = (list_ascii_of_string a ++ list_ascii_of_string b)%list.
Proof. induction a as [|c a IH]; simpl; [reflexivity|now rewrite IH]. Qed.

Lemma length_list_ascii (s : string) :
  List.length (list_ascii_of_string s) = String.length s.
Proof. induction s as [|c s IH]; simpl; [reflexivity|now rewrite IH]. Qed.

(** *** Replacement *)

Section Replace.

Variable m : Matcher.
Variable replacement : list ascii.

(** Characters inside a match are passed over. *)
Lemma replaceFrom_skip (a rest : list ascii) :
  replaceFrom m replacement (List.length a) (a ++ rest)
  = replaceFrom m replacement O rest.
Proof.
  induction a as [|c a IH]; simpl; [|assumption].
  destruct rest; reflexivity.
Qed.

(** A match at the head is replaced and the scan resumes behind it. *)
Lemma replaceFrom_match (a rest : list ascii) :
  a <> [] -> m (a ++ rest)%list = Some (List.length a) ->
  replaceFrom m replacement O (a ++ rest)
  = (replacement ++ replaceFrom m replacement O rest)%list.
Proof.
  destruct a as [|c a]; [easy|]. intros _ Hm.
  change ((c :: a) ++ rest)%list with (c :: (a ++ rest))%list in *.
  cbn [replaceFrom]. rewrite Hm. cbn [List.length].
  now rewrite replaceFrom_skip.
Qed.

(** A text in which the expression matches at no position is unchanged. *)
Lemma replaceFrom_none (s : list ascii) :
  (forall front back, s = (front ++ back)%list -> back <> [] ->
                      m back = None) ->
  replaceFrom m replacement O s = s.
Proof.
  induction s as [|c s IH]; intros Hno; [reflexivity|].
  cbn [replaceFrom]. rewrite (Hno [] (c :: s) eq_refl) by discriminate.
  f_equal. apply IH. intros front back -> Hb.
  apply (Hno (c :: front) back); [reflexivity|assumption].
Qed.

(** A stretch of text inside which the expression matches at no position
    is copied. *)
Lemma replaceFrom_copy (a rest : list ascii) :
  (forall front back, a = front ++ back -> back <> [] ->
                      m (back ++ rest) = None) ->
  replaceFrom m replacement O (a ++ rest)
  = a ++ replaceFrom m replacement O rest.
Proof.
  induction a as [|c a IH]; intros Hno; [reflexivity|].
  assert (H0 : m (c :: (a ++ rest)) = None)
    by (apply (Hno [] (c :: a)); [reflexivity|discriminate]).
  change ((c :: a) ++ rest) with (c :: (a ++ rest)).
  cbn [replaceFrom]. rewrite H0.
  change ((c :: a) ++ replaceFrom m replacement O rest)
    with (c :: (a ++ replaceFrom m replacement O rest)).
  f_equal. apply IH. intros front back -> Hb.
  apply (Hno (c :: front) back); [reflexivity|assumption].
Qed.

End Replace.

(** *** The expressions of [extractErrorPattern] *)

Lemma matchClasses_app shape (u rest : list ascii) :
  matchClasses shape u = true -> matchClasses shape (u ++ rest) = true.
Proof.
  revert u. induction shape as [|cls shape IH]; intros u; [reflexivity|].
  destruct u as [|c u]; simpl; [discriminate|].
  destruct (cls c); simpl; [apply IH|discriminate].
Qed.

Lemma matchClasses_nth shape (s : list ascii) i cls :
  matchClasses shape s = true -> nth_error shape i = Some cls ->
  exists c, nth_error s i = Some c /\ cls c = true.
Proof.
  revert s i. induction shape as [|f shape IH]; intros s i Hm Hn.
  - destruct i; discriminate.
  - destruct s as [|c s]; simpl in Hm; [discriminate|].
    apply andb_true_iff in Hm as [Hc Hm].
    destruct i as [|i]; simpl in *.
    + injection Hn as <-. eauto.
    + eauto.
Qed.

(** A UUID needs a dash. *)
Lemma matchUUID_dash (s : list ascii) :
  forallb (fun c => negb (isDash c)) s = true -> matchUUID s = None.
Proof.
  intros Hnd. unfold matchUUID.
  destruct (matchClasses uuidShape s) eqn:Hm; [|reflexivity].
  destruct (matchClasses_nth uuidShape s 8 isDash Hm eq_refl) as (c & Hc & Hd).
  apply nth_error_In in Hc. rewrite forallb_forall in Hnd.
  specialize (Hnd c Hc). now rewrite Hd in Hnd.
Qed.

Lemma replace_uuid_no_dash (s : list ascii) :
  forallb (fun c => negb (isDash c)) s = true ->
  replaceAll matchUUID "<UUID>" s = s.
Proof.
  intros Hnd. apply replaceFrom_none. intros front back -> _.
  apply matchUUID_dash. rewrite forallb_app in Hnd.
  now apply andb_true_iff in Hnd as [_ H].
Qed.

Lemma uuidShape_hex i : (i < 8)%nat -> nth_error uuidShape i = Some isHex.
Proof.
  intros Hi. do 8 (destruct i as [|i]; [reflexivity|]). lia.
Qed.

(** No UUID starts inside a stretch that has no dash and ends with a
    character that is not a hexadecimal digit. *)
Lemma matchUUID_inside (b rest : list ascii) c :
  forallb (fun x => negb (isDash x)) (b ++ [c]) = true ->
  isHex c = false ->
  matchUUID ((b ++ [c]) ++ rest) = None.
Proof.
  intros Hnd Hc. unfold matchUUID.
  destruct (matchClasses uuidShape ((b ++ [c]) ++ rest)) eqn:Hm;
    [|reflexivity].
  exfalso. destruct (Nat.lt_ge_cases (List.length b) 8) as [Hshort|Hlong].
  - destruct (matchClasses_nth _ _ (List.length b) isHex Hm
                (uuidShape_hex _ Hshort)) as (x & Hx & Hhex).
    rewrite <- app_assoc in Hx. rewrite nth_error_app2 in Hx by lia.
    rewrite Nat.sub_diag in Hx. simpl in Hx. injection Hx as <-. congruence.
  - destruct (matchClasses_nth _ _ 8 isDash Hm eq_refl) as (x & Hx & Hd).
    rewrite nth_error_app1 in Hx by (rewrite length_app; simpl; lia).
    apply nth_error_In in Hx. rewrite forallb_forall in Hnd.
    specialize (Hnd x Hx). now rewrite Hd in Hnd.
Qed.

Lemma replace_uuid_copy (a rest : list ascii) c :
  forallb (fun x => negb (isDash x)) (a ++ [c]) = true ->
  isHex c = false ->
  replaceAll matchUUID "<UUID>" ((a ++ [c]) ++ rest)
  = (a ++ [c]) ++ replaceAll matchUUID "<UUID>" rest.
Proof.
  intros Hnd Hc. apply replaceFrom_copy. intros front back Heq Hb.
  destruct (exists_last Hb) as (b & x & ->).
  rewrite app_assoc in Heq. apply app_inj_tail in Heq as [Ha <-].
  apply matchUUID_inside; [|assumption].
  rewrite Ha, <- app_assoc, forallb_app in Hnd.
  now apply andb_true_iff in Hnd as [_ H].
Qed.

Lemma replace_digits_copy (a rest : list ascii) :
  forallb (fun x => negb (isDigit x)) a = true ->
  replaceAll matchDigits "<N>" (a ++ rest)
  = a ++ replaceAll matchDigits "<N>" rest.
Proof.
  intros Hnd. apply replaceFrom_copy. intros front back -> Hb.
  destruct back as [|x back]; [easy|].
  rewrite forallb_app in Hnd. apply andb_true_iff in Hnd as [_ Hnd].
  simpl in Hnd. apply andb_true_iff in Hnd as [Hx _].
  apply negb_true_iff in Hx. unfold matchDigits. simpl. now rewrite Hx.
Qed.

Lemma span_all cls (a rest : list ascii) :
  forallb cls a = true ->
  match rest with c :: _ => cls c = false | [] => True end ->
  span cls (a ++ rest) = List.length a.
Proof.
  intros Ha Hrest. induction a as [|c a IH]; simpl.
  - destruct rest as [|c rest]; [reflexivity|]. simpl. now rewrite Hrest.
  - simpl in Ha. apply andb_true_iff in Ha as [Hc Ha]. rewrite Hc.
    f_equal. now apply IH.
Qed.

Lemma matchDigits_run (a rest : list ascii) :
  a <> [] -> forallb isDigit a = true ->
  match rest with c :: _ => isDigit c = false | [] => True end ->
  matchDigits (a ++ rest) = Some (List.length a).
Proof.
  intros Hne Ha Hrest. unfold matchDigits. rewrite span_all by assumption.
  destruct a; [easy|reflexivity].
Qed.

Lemma digit_not_dash c : isDigit c = true -> negb (isDash c) = true.
Proof.
  unfold isDigit, isDash, between, code. intros H.
  destruct (Ascii.eqb_spec c "-") as [->|]; [discriminate|reflexivity].
Qed.

(** *** Lower case *)



End JsStringFacts.

(** ** The self-healer *)

Module HealerSpec.

Import JsMap JsMapFacts JsString JsStringFacts SelfHealer HealerScenario.
Local Open Scope list_scope.

(** *** Error signatures *)

Lemma extract_failed_job u n :
  isUUID u = true -> isNumber n = true ->
  extractErrorPattern (failedJobError u n) = failedJobKey.
Proof.
  unfold isUUID, isNumber. intros Hu Hn.
  apply andb_true_iff in Hu as [Hlen Hshape].
  apply andb_true_iff in Hn as [Hne Hdig].
  apply Nat.eqb_eq in Hlen. rewrite <- length_list_ascii in Hlen.
  unfold extractErrorPattern, failedJobError.
  rewrite !list_ascii_of_string_app.
  set (U := list_ascii_of_string u) in *.
  set (N := list_ascii_of_string n) in *.
  assert (HN : N <> []) by (subst N; destruct n; discriminate).
  assert (HU : U <> []) by (intros E; rewrite E in Hlen; discriminate).
  set (tail := list_ascii_of_string " retries").
  assert (Hpass1 :
    replaceAll matchUUID "<UUID>"
      (list_ascii_of_string "Failed job " ++ U
         ++ list_ascii_of_string " after " ++ N ++ tail)
    = list_ascii_of_string "Failed job <UUID> after " ++ N ++ tail).
  { change (list_ascii_of_string "Failed job ")
      with (list_ascii_of_string "Failed job" ++ [" "%char]).
    rewrite replace_uuid_copy by reflexivity.
    unfold replaceAll at 1.
    rewrite replaceFrom_match;
      [|assumption
       |unfold matchUUID; rewrite matchClasses_app by assumption;
        now rewrite Hlen].
    fold (replaceAll matchUUID "<UUID>"
            (list_ascii_of_string " after " ++ N ++ tail)).
    change (list_ascii_of_string " after ")
      with (list_ascii_of_string " after" ++ [" "%char]).
    rewrite replace_uuid_copy by reflexivity.
    rewrite replace_uuid_no_dash; [reflexivity|].
    rewrite forallb_app. apply andb_true_iff. split; [|reflexivity].
    rewrite forallb_forall in Hdig. apply forallb_forall.
    intros x Hx. apply digit_not_dash. now apply Hdig. }
  rewrite Hpass1.
  assert (Hpass2 :
    replaceAll matchDigits "<N>"
      (list_ascii_of_string "Failed job <UUID> after " ++ N ++ tail)
    = list_ascii_of_string "Failed job <UUID> after <N> retries").
  { rewrite replace_digits_copy by reflexivity.
    unfold replaceAll at 1.
    rewrite replaceFrom_match; [|assumption|now apply matchDigits_run].
    reflexivity. }
  rewrite Hpass2. reflexivity.
Qed.

(** *** What a report does to the tracked patterns *)

Lemma trackPattern_count now body patterns :
  let key := extractErrorPattern (i_error body) in
  let count := match get key patterns with
               | Some p => p_count p + 1
               | None => 1
               end in
  (exists p, get key (fst (trackPattern now body patterns)) = Some p
             /\ p_count p = count)
  /\ (forall k, k <> key ->
                get k (fst (trackPattern now body patterns)) = get k patterns)
  /\ keys (fst (trackPattern now body patterns))
     = match get key patterns with
       | Some _ => keys patterns
       | None => keys patterns ++ [key]
       end.
Proof.
  intros key count. subst count. unfold trackPattern. fold key.
  destruct (get key patterns) as [p|] eqn:Hg; simpl.
  - repeat split.
    + eexists. rewrite get_set_eq. split; reflexivity.
    + intros k Hne. apply get_set_ne. congruence.
    + apply keys_set_present. congruence.
  - repeat split.
    + eexists. rewrite get_set_eq. split; reflexivity.
    + intros k Hne. apply get_set_ne. congruence.
    + now apply keys_set_absent.
Qed.

Lemma recordResolution_count key act patterns :
  (forall p, get key patterns = Some p ->
             exists p', get key (recordResolution key act patterns) = Some p'
                        /\ p_count p' = p_count p)
  /\ (forall k, k <> key ->
                get k (recordResolution key act patterns) = get k patterns)
  /\ keys (recordResolution key act patterns) = keys patterns.
Proof.
  unfold recordResolution.
  destruct (get key patterns) as [p|] eqn:Hg.
  - repeat split.
    + intros p0 [= <-]. eexists. rewrite get_set_eq. split; reflexivity.
    + intros k Hne. apply get_set_ne. congruence.
    + apply keys_set_present. congruence.
  - repeat split. intros p [=].
Qed.

(** The patterns after a report are those after the tracking step, but for
    the resolution bookkeeping on the reported signature. *)
Lemma report_patterns env now uuid body s :
  errorPatterns (report env now uuid body s)
  = fst (trackPattern now body (errorPatterns s))
  \/ exists act,
       errorPatterns (report env now uuid body s)
       = recordResolution (extractErrorPattern (i_error body)) act
           (fst (trackPattern now body (errorPatterns s))).
Proof.
  unfold report, handleReportError.
  destruct (trackPattern now body (errorPatterns s)) as [patterns issue].
  destruct (attemptAutoResolution env now issue) as [sent result].
  destruct (success result); simpl; eauto.
Qed.

Lemma report_counts env now uuid body s :
  let key := extractErrorPattern (i_error body) in
  let s' := report env now uuid body s in
  countOf key s' = countOf key s + 1
  /\ (forall k, k <> key ->
                get k (errorPatterns s') = get k (errorPatterns s))
  /\ keys (errorPatterns s')
     = match get key (errorPatterns s) with
       | Some _ => keys (errorPatterns s)
       | None => keys (errorPatterns s) ++ [key]
       end.
Proof.
  intros key s'. subst s'.
  destruct (trackPattern_count now body (errorPatterns s))
    as ((p & Hp & Hcount) & Hothers & Hkeys). fold key in Hp, Hothers, Hkeys.
  assert (Hc : p_count p = countOf key s + 1).
  { rewrite Hcount. unfold countOf. fold key.
    destruct (get key (errorPatterns s)); lia. }
  unfold countOf at 1.
  destruct (report_patterns env now uuid body s) as [->|[act ->]].
  - repeat split; try assumption. now rewrite Hp.
  - fold key.
    destruct (recordResolution_count key act
                (fst (trackPattern now body (errorPatterns s))))
      as (Hsame & Hothers' & Hkeys').
    destruct (Hsame p Hp) as (p' & Hp' & Hc').
    repeat split.
    + rewrite Hp'. lia.
    + intros k Hne. rewrite Hothers' by assumption. now apply Hothers.
    + now rewrite Hkeys'.
Qed.

(** C6.  The error text of the specification normalises to the key
    [Failed job <UUID> after <N> retries], and so does every text that
    differs from it in the UUID and the retry number only.  Reporting such a
    second error after the first therefore creates no entry and adds one to
    the count of that key.  In general a report adds one to the count of
    the signature of its error text, creating the entry with count 1 when
    there is none, and leaves every other pattern as it was. *)
Theorem error_signature_counts :
  extractErrorPattern
    "Failed job 123e4567-e89b-12d3-a456-426614174000 after 42 retries"
  = failedJobKey
  /\ (forall u n,
        isUUID u = true -> isNumber n = true ->
        extractErrorPattern (failedJobError u n) = failedJobKey)
  /\ (forall env1 env2 t1 t2 id1 id2 body1 body2 u n s,
        i_error body1
        = "Failed job 123e4567-e89b-12d3-a456-426614174000 after 42 retries"
          %string ->
        isUUID u = true -> isNumber n = true ->
        i_error body2 = failedJobError u n ->
        let s1 := report env1 t1 id1 body1 s in
        let s2 := report env2 t2 id2 body2 s1 in
        keys (errorPatterns s2) = keys (errorPatterns s1)
        /\ countOf failedJobKey s2 = countOf failedJobKey s1 + 1)
  /\ (forall env now id body s,
        let key := extractErrorPattern (i_error body) in
        let s' := report env now id body s in
        countOf key s' = countOf key s + 1
        /\ (forall k, k <> key ->
                      get k (errorPatterns s') = get k (errorPatterns s))
        /\ (get key (errorPatterns s) = None ->
            keys (errorPatterns s') = keys (errorPatterns s) ++ [key])
        /\ (get key (errorPatterns s) <> None ->
            keys (errorPatterns s') = keys (errorPatterns s))).
Proof.
  split; [reflexivity|]. split; [exact extract_failed_job|]. split.
  - intros env1 env2 t1 t2 id1 id2 body1 body2 u n s H1 Hu Hn H2 s1 s2.
    assert (Hk1 : extractErrorPattern (i_error body1) = failedJobKey)
      by (rewrite H1; reflexivity).
    assert (Hk2 : extractErrorPattern (i_error body2) = failedJobKey)
      by (rewrite H2; now apply extract_failed_job).
    destruct (report_counts env1 t1 id1 body1 s) as (Hc1 & _ & _).
    destruct (report_counts env2 t2 id2 body2 s1) as (Hc2 & _ & Hkeys).
    rewrite Hk1 in Hc1. rewrite Hk2 in Hc2, Hkeys. fold s1 in Hc1.
    fold s2 in Hc2, Hkeys. split; [|assumption].
    destruct (report_patterns env1 t1 id1 body1 s) as [Hp|[act Hp]];
      fold s1 in Hp.
    + destruct (trackPattern_count t1 body1 (errorPatterns s))
        as ((p & Hg & _) & _). rewrite Hk1, <- Hp in Hg.
      now rewrite Hg in Hkeys.
    + destruct (trackPattern_count t1 body1 (errorPatterns s))
        as ((p & Hg & _) & _). rewrite Hk1 in Hg, Hp.
      destruct (recordResolution_count failedJobKey act
                  (fst (trackPattern t1 body1 (errorPatterns s))))
        as (Hsame & _).
      destruct (Hsame p Hg) as (p' & Hg' & _). rewrite <- Hp in Hg'.
      now rewrite Hg' in Hkeys.
  - intros env now id body s key s'.
    destruct (report_counts env now id body s) as (Hc & Hothers & Hkeys).
    fold key in Hc, Hothers, Hkeys. fold s' in Hc, Hothers, Hkeys.
    repeat split; try assumption.
    + intros Hnone. now rewrite Hnone in Hkeys.
    + intros Hsome. destruct (get key (errorPatterns s)); [assumption|easy].
Qed.

(** The theorem at a second error with another UUID and retry number. *)
Lemma error_signature_counts_witness :
  extractErrorPattern
    (failedJobError "00000000-1111-2222-3333-444444444444" "7")
  = failedJobKey
  /\ countOf failedJobKey
       (report quiet 2000 "id-2"
          (issueOf "job"
             (failedJobError "00000000-1111-2222-3333-444444444444" "7"))
          (report quiet 1000 "id-1"
             (issueOf "job"
                "Failed job 123e4567-e89b-12d3-a456-426614174000 after 42 retries")
             init))
     = 2.
Proof.
  destruct error_signature_counts as (_ & Hkey & Htwice & _).
  split; [apply Hkey; reflexivity|].
  destruct (Htwice quiet quiet 1000 2000 "id-1"%string "id-2"%string
              (issueOf "job"
                 "Failed job 123e4567-e89b-12d3-a456-426614174000 after 42 retries")
              (issueOf "job"
                 (failedJobError "00000000-1111-2222-3333-444444444444" "7"))
              "00000000-1111-2222-3333-444444444444"%string "7"%string init
              eq_refl eq_refl eq_refl eq_refl) as [_ Hcount].
  rewrite Hcount. reflexivity.
Defined.

(** *** Resolution *)

Lemma report_entry env now uuid body s :
  let key := extractErrorPattern (i_error body) in
  exists p, get key (errorPatterns (report env now uuid body s)) = Some p
            /\ p_count p = countOf key s + 1.
Proof.
  intros key.
  destruct (report_counts env now uuid body s) as (Hc & _). fold key in Hc.
  destruct (trackPattern_count now body (errorPatterns s))
    as ((p & Hp & _) & _). fold key in Hp.
  destruct (report_patterns env now uuid body s) as [Heq|[act Heq]].
  - exists p. rewrite Heq. split; [assumption|].
    unfold countOf at 1 in Hc. rewrite Heq, Hp in Hc. exact Hc.
  - destruct (recordResolution_count key act
                (fst (trackPattern now body (errorPatterns s))))
      as (Hsame & _).
    destruct (Hsame p Hp) as (p' & Hp' & _). exists p'.
    fold key in Heq. rewrite Heq. split; [assumption|].
    unfold countOf at 1 in Hc. rewrite Heq, Hp' in Hc. exact Hc.
Qed.


(** The three strategies in front of the breaker do not apply, the breaker
    applies and its store write returns: the breaker is the remedy. *)
Lemma attempt_breaker env now issue call :
  canResolve RetryTransient issue = false ->
  canResolve RefreshAuth issue = false ->
  canResolve ResourceCleanup issue = false ->
  canResolve CircuitBreaker issue = true ->
  resolveCalls CircuitBreaker now issue = [call] ->
  throws env call = false ->
  attemptAutoResolution env now issue
  = ([call], resolveResult CircuitBreaker issue).
Proof.
  intros H1 H2 H3 H4 Hcall Hthrows.
  unfold attemptAutoResolution, strategies. cbn [attemptWith].
  rewrite H1, H2, H3, H4, Hcall. cbn [runCalls]. now rewrite Hthrows.
Qed.

Lemma canResolve_text st issue n :
  st = RetryTransient \/ st = RefreshAuth \/ st = ResourceCleanup ->
  canResolve st (withRepeatCount issue n) = canResolve st issue.
Proof. intros [-> | [-> | ->]]; reflexivity. Qed.

(** C7, as stated, fails.  An error whose text says [network timeout],
    reported three times in a row, is answered the third time by the
    retry-transient strategy, which stands before the circuit breaker in the
    list. *)
Lemma circuit_breaker_preempted :
  ~ (forall env t1 t2 t3 id1 id2 id3 body s,
        resp_action
          (responseTo env t3 id3 body
             (report env t2 id2 body (report env t1 id1 body s)))
        = "Circuit breaker activated"%string).
Proof.
  intros H.
  specialize (H quiet 1000 2000 3000 "id-1"%string "id-2"%string
                "id-3"%string (issueOf "job" "network timeout") init).
  vm_compute in H. discriminate.
Qed.

(** C7, amended.  Let an issue be reported three times in a row with the
    same normalised pattern, whose count was not negative before.  The
    third report carries as [repeatCount] the count before the three plus 3
    (so 3 for a pattern not seen before), and the circuit-breaker predicate
    matches it; this needs nothing else.  If moreover its error text
    matches none of the three strategies listed before the breaker, and the
    write to the configuration store returns, the third report is
    auto-resolved with action [Circuit breaker activated], and the only
    request it sends is the write of the flag [circuit_breaker:<type>],
    with a cooldown ending five minutes after now and a time to live of
    300 seconds; nothing is escalated. *)
Theorem third_report_trips_breaker
    env1 env2 env3 t1 t2 t3 id1 id2 id3 b1 b2 b3 s :
  let key := extractErrorPattern (i_error b3) in
  let flag :=
    ConfigPut ("circuit_breaker:" ++ i_type b3)
              (mkBreaker true t3 (i_error b3) (t3 + 300000)) 300 in
  extractErrorPattern (i_error b1) = key ->
  extractErrorPattern (i_error b2) = key ->
  0 <= countOf key s ->
  let s2 := report env2 t2 id2 b2 (report env1 t1 id1 b1 s) in
  let issue3 := snd (trackPattern t3 b3 (errorPatterns s2)) in
  (exists md, i_metadata issue3 = Some md
              /\ repeatCount md = Some (countOf key s + 3))
  /\ canResolve CircuitBreaker issue3 = true
  /\ (canResolve RetryTransient b3 = false ->
      canResolve RefreshAuth b3 = false ->
      canResolve ResourceCleanup b3 = false ->
      throws env3 flag = false ->
      resp_autoResolved (responseTo env3 t3 id3 b3 s2) = true
      /\ resp_action (responseTo env3 t3 id3 b3 s2)
         = "Circuit breaker activated"%string
      /\ callsOf env3 t3 id3 b3 s2 = [flag]
      /\ escalations (report env3 t3 id3 b3 s2) = escalations s2).
Proof.
  intros key flag Hk1 Hk2 Hpos s2 issue3.
  set (s1 := report env1 t1 id1 b1 s) in *.
  destruct (report_counts env1 t1 id1 b1 s) as (Hc1 & _).
  rewrite Hk1 in Hc1. fold s1 in Hc1.
  destruct (report_entry env2 t2 id2 b2 s1) as (p & Hp & Hcount).
  rewrite Hk2 in Hp, Hcount. fold s2 in Hp. rewrite Hc1 in Hcount.
  assert (Htrack :
    trackPattern t3 b3 (errorPatterns s2)
    = (set key (mkPattern (p_pattern p) (p_count p + 1) t3
                          (p_resolution p) (p_autoResolved p))
           (errorPatterns s2),
       withRepeatCount b3 (p_count p + 1))).
  { unfold trackPattern. fold key. now rewrite Hp. }
  assert (Hthree : p_count p + 1 = countOf key s + 3) by lia.
  assert (Hbreaker : canResolve CircuitBreaker issue3 = true).
  { subst issue3. rewrite Htrack. simpl.
    destruct (i_metadata b3); simpl; apply Z.leb_le; lia. }
  split.
  { subst issue3. rewrite Htrack. simpl. rewrite Hthree.
    destruct (i_metadata b3); eexists; split; reflexivity. }
  split; [assumption|].
  intros Hr1 Hr2 Hr3 Hthrows.
  assert (Hattempt :
    attemptAutoResolution env3 t3 (withRepeatCount b3 (p_count p + 1))
    = ([flag], resolveResult CircuitBreaker
                 (withRepeatCount b3 (p_count p + 1)))).
  { apply (attempt_breaker env3 t3 _ flag).
    - now rewrite canResolve_text by auto.
    - now rewrite canResolve_text by auto.
    - now rewrite canResolve_text by auto.
    - subst issue3. now rewrite Htrack in Hbreaker.
    - reflexivity.
    - assumption. }
  unfold responseTo, callsOf, report, handleReportError.
  rewrite Htrack, Hattempt. now repeat split.
Qed.

(** The theorem at three reports of [network timeout], where the breaker
    predicate matches although the retry strategy is the one that answers,
    and at three reports of [disk is purple], where the breaker answers. *)
Lemma third_report_trips_breaker_witness :
  (let s2 :=
     report quiet 2000 "id-2" (issueOf "job" "network timeout")
       (report quiet 1000 "id-1" (issueOf "job" "network timeout") init) in
   let issue3 :=
     snd (trackPattern 3000 (issueOf "job" "network timeout")
                       (errorPatterns s2)) in
   (exists md, i_metadata issue3 = Some md /\ repeatCount md = Some 3)
   /\ canResolve CircuitBreaker issue3 = true)
  /\ resp_action
       (responseTo quiet 3000 "id-3" (issueOf "job" "disk is purple")
          (report quiet 2000 "id-2" (issueOf "job" "disk is purple")
             (report quiet 1000 "id-1" (issueOf "job" "disk is purple")
                     init)))
     = "Circuit breaker activated"%string
  /\ callsOf quiet 3000 "id-3" (issueOf "job" "disk is purple")
       (report quiet 2000 "id-2" (issueOf "job" "disk is purple")
          (report quiet 1000 "id-1" (issueOf "job" "disk is purple") init))
     = [ConfigPut "circuit_breaker:job"
          (mkBreaker true 3000 "disk is purple" 303000) 300].
Proof.
  split.
  - destruct (third_report_trips_breaker quiet quiet quiet 1000 2000 3000
                "id-1"%string "id-2"%string "id-3"%string
                (issueOf "job" "network timeout")
                (issueOf "job" "network timeout")
                (issueOf "job" "network timeout") init
                eq_refl eq_refl (Z.le_refl 0))
      as (Hcount & Hbreaker & _).
    split; assumption.
  - destruct (third_report_trips_breaker quiet quiet quiet 1000 2000 3000
                "id-1"%string "id-2"%string "id-3"%string
                (issueOf "job" "disk is purple")
                (issueOf "job" "disk is purple")
                (issueOf "job" "disk is purple") init
                eq_refl eq_refl (Z.le_refl 0))
      as (_ & _ & Hbreaks).
    destruct (Hbreaks eq_refl eq_refl eq_refl eq_refl)
      as (_ & Haction & Hcalls & _).
    split; assumption.
Defined.

(** *** Escalation *)





End HealerSpec.

(** ** More about the coordinator *)

Module CoordinatorMore.

Import JsMap JsMapFacts AgentCoordinator CoordinatorFacts CoordinatorReads.
Local Open Scope list_scope.

Lemma get_filter_sound {V} (f : string * V -> bool) k v (m : JsMap.t V) :
  get k (filter f m) = Some v -> f (k, v) = true.
Proof.
  induction m as [|[k' v'] m IH]; simpl; [discriminate|].
  destruct (f (k', v')) eqn:Hf; [|assumption]. simpl.
  destruct (String.eqb_spec k k') as [->|_]; [|assumption].
  now intros [= <-].
Qed.

Lemma get_present {V} k (m : JsMap.t V) :
  In k (keys m) -> get k m <> None.
Proof.
  unfold keys. induction m as [|[k' v'] m IH]; simpl; [easy|].
  destruct (String.eqb_spec k k') as [->|Hne]; [discriminate|].
  intros [Heq|Hin]; [congruence|now apply IH].
Qed.

(** *** The sweep, one agent at a time *)

(** What one turn of the first loop does: nothing, or the agent goes
    offline and, if its current task is running, that task goes back to
    pending at the front of the backlog. *)
Lemma sweepAgent_cases now s k a :
  (sweeps now a = false /\ sweepAgent now s (k, a) = s)
  \/ (sweeps now a = true
      /\ agents (sweepAgent now s (k, a))
         = set k (withStatus a Offline) (agents s)
      /\ ((tasks (sweepAgent now s (k, a)) = tasks s
           /\ taskQueue (sweepAgent now s (k, a)) = taskQueue s
           /\ forall cur t, a_currentTaskId a = Some cur ->
                            truthy (Some cur) = true ->
                            get cur (tasks s) = Some t ->
                            t_status t <> Running)
          \/ exists cur t,
               a_currentTaskId a = Some cur
               /\ get cur (tasks s) = Some t /\ t_status t = Running
               /\ tasks (sweepAgent now s (k, a))
                  = set cur (requeuedTask t) (tasks s)
               /\ taskQueue (sweepAgent now s (k, a)) = cur :: taskQueue s)).
Proof.
  unfold sweepAgent, sweeps.
  destruct (_ && _); [right; split; [reflexivity|]|now left].
  destruct (a_currentTaskId a) as [cur|] eqn:Hcur;
    [|split; [reflexivity|left; repeat split; intros; discriminate]].
  destruct (truthy (Some cur)) eqn:Htruthy;
    [|split; [reflexivity|left; repeat split;
              intros c t [= <-]; congruence]].
  destruct (get cur (tasks s)) as [t|] eqn:Hg;
    [|split; [reflexivity|left; repeat split;
              intros c t [= <-] _; congruence]].
  destruct (taskStatus_eqb (t_status t) Running) eqn:Hr.
  - split; [reflexivity|]. right. exists cur, t.
    apply taskStatus_eqb_eq in Hr. now repeat split.
  - split; [reflexivity|]. left. repeat split.
    intros c t' [= <-] _ Hg' Hr'. rewrite Hg in Hg'. injection Hg' as <-.
    apply taskStatus_eqb_eq in Hr'. congruence.
Qed.

(** A task that is not running is not touched by a turn. *)
Lemma sweepAgent_task_kept now s e k t :
  get k (tasks s) = Some t -> t_status t <> Running ->
  get k (tasks (sweepAgent now s e)) = Some t.
Proof.
  intros Hg Hnr. destruct e as [ka a].
  destruct (sweepAgent_cases now s ka a)
    as [[_ ->]|(_ & _ & [(-> & _)|(cur & t' & _ & Hg' & Hr & -> & _)])];
    try assumption.
  rewrite get_set_ne; [assumption|]. intros <-. congruence.
Qed.

Lemma sweep_task_kept now entries s k t :
  get k (tasks s) = Some t -> t_status t <> Running ->
  get k (tasks (fold_left (sweepAgent now) entries s)) = Some t.
Proof.
  revert s. induction entries as [|e rest IH]; intros s Hg Hnr;
    [assumption|].
  cbn [fold_left]. apply IH; [|assumption]. now apply sweepAgent_task_kept.
Qed.

(** The backlog only grows, at its front. *)
Lemma sweep_queue now entries s :
  exists front,
    taskQueue (fold_left (sweepAgent now) entries s) = front ++ taskQueue s.
Proof.
  revert s. induction entries as [|[k a] rest IH]; intros s.
  - now exists [].
  - cbn [fold_left].
    destruct (IH (sweepAgent now s (k, a))) as (front & ->).
    destruct (sweepAgent_cases now s k a)
      as [[_ ->]|(_ & _ & [(_ & -> & _)|(cur & t & _ & _ & _ & _ & ->)])].
    + now exists front.
    + now exists front.
    + exists (front ++ [cur]). now rewrite <- app_assoc.
Qed.

(** An agent is rewritten only in a turn for its own key that fires. *)
Lemma sweep_agent_kept now entries s k :
  (forall a, In (k, a) entries -> sweeps now a = false) ->
  get k (agents (fold_left (sweepAgent now) entries s)) = get k (agents s).
Proof.
  revert s. induction entries as [|[k' a'] rest IH]; intros s Hno;
    [reflexivity|].
  cbn [fold_left]. rewrite IH by (intros a Hin; apply Hno; now right).
  destruct (sweepAgent_cases now s k' a') as [[_ ->]|(Hfires & -> & _)];
    [reflexivity|].
  apply get_set_ne. intros ->.
  rewrite (Hno a' (or_introl eq_refl)) in Hfires. discriminate.
Qed.

Lemma sweep_keys now entries s :
  (forall e, In e entries -> In (fst e) (keys (agents s))) ->
  keys (agents (fold_left (sweepAgent now) entries s)) = keys (agents s).
Proof.
  revert s. induction entries as [|[k a] rest IH]; intros s Hin;
    [reflexivity|].
  cbn [fold_left].
  assert (Hstep : keys (agents (sweepAgent now s (k, a))) = keys (agents s)).
  { destruct (sweepAgent_cases now s k a) as [[_ ->]|(_ & -> & _)];
      [reflexivity|].
    apply keys_set_present, get_present. apply (Hin (k, a)). now left. }
  rewrite IH; [assumption|].
  intros e He. rewrite Hstep. apply Hin. now right.
Qed.

Lemma sweepAgent_requeued now s e taskId :
  requeued taskId s -> requeued taskId (sweepAgent now s e).
Proof.
  intros (t & Hg & Hp & Hid & Hin). exists t.
  split; [apply sweepAgent_task_kept; [assumption|congruence]|].
  repeat split; try assumption.
  destruct e as [k a].
  destruct (sweepAgent_cases now s k a)
    as [[_ ->]|(_ & _ & [(_ & -> & _)|(cur & t' & _ & _ & _ & _ & ->)])];
    try assumption.
  now right.
Qed.

Lemma sweep_requeued now entries s taskId :
  requeued taskId s ->
  requeued taskId (fold_left (sweepAgent now) entries s).
Proof.
  revert s. induction entries as [|e rest IH]; intros s H;
    [assumption|]. cbn [fold_left]. apply IH. now apply sweepAgent_requeued.
Qed.

Lemma sweepAgent_running_or_requeued now s e taskId :
  (exists t, get taskId (tasks s) = Some t /\ t_status t = Running)
  \/ requeued taskId s ->
  (exists t, get taskId (tasks (sweepAgent now s e)) = Some t
             /\ t_status t = Running)
  \/ requeued taskId (sweepAgent now s e).
Proof.
  intros [(t & Hg & Hr)|Hq]; [|right; now apply sweepAgent_requeued].
  destruct e as [k a].
  destruct (sweepAgent_cases now s k a)
    as [[_ ->]|(_ & _ & [(-> & _)|(cur & t' & _ & Hg' & _ & Ht & Hq)])];
    try (left; now exists t).
  destruct (String.eqb_spec cur taskId) as [->|Hne].
  - right. exists (requeuedTask t'). rewrite Ht, Hq, get_set_eq.
    repeat split. now left.
  - left. exists t. now rewrite Ht, get_set_ne.
Qed.

Lemma sweep_reclaims now entries s k a taskId :
  NoDup (map fst entries) -> In (k, a) entries ->
  sweeps now a = true ->
  a_currentTaskId a = Some taskId -> truthy (Some taskId) = true ->
  (exists t, get taskId (tasks s) = Some t /\ t_status t = Running)
  \/ requeued taskId s ->
  requeued taskId (fold_left (sweepAgent now) entries s)
  /\ get k (agents (fold_left (sweepAgent now) entries s))
     = Some (withStatus a Offline).
Proof.
  intros Hnd Hin Hfires Hcur Htruthy. revert s.
  induction entries as [|[k' a'] rest IH]; [easy|]. intros s Hr.
  cbn [fold_left]. cbn [map fst] in Hnd.
  inversion Hnd as [|? ? Hnotin Hnd']; subst.
  destruct Hin as [[= -> ->]|Hin].
  - assert (Hq : requeued taskId (sweepAgent now s (k, a))
                 /\ get k (agents (sweepAgent now s (k, a)))
                    = Some (withStatus a Offline)).
    { destruct (sweepAgent_cases now s k a)
        as [[Hno _]|(_ & Hag & Hrest)]; [congruence|].
      split; [|rewrite Hag; apply get_set_eq].
      destruct Hrest as [(Ht & Hq & Hnot)|(cur & t & Hc & Hg & _ & Ht & Hq)].
      - destruct Hr as [(t & Hg & Hrun)|(t & Hg & Hrest)].
        + exfalso. now apply (Hnot taskId t).
        + exists t. now rewrite Ht, Hq.
      - rewrite Hcur in Hc. injection Hc as <-.
        exists (requeuedTask t). rewrite Ht, Hq, get_set_eq.
        repeat split. now left. }
    destruct Hq as [Hq Hag]. split; [now apply sweep_requeued|].
    rewrite sweep_agent_kept; [assumption|].
    intros a0 Hin0. exfalso. apply Hnotin.
    change k with (fst (k, a0)). now apply in_map.
  - apply IH; auto. now apply sweepAgent_running_or_requeued.
Qed.

(** X1.  Stale-agent reclamation.  An agent stored in a well-formed
    coordinator whose last heartbeat is more than five minutes old, which
    is not yet offline and whose current task is running, is offline after
    the sweep, and its task is pending, unassigned and back in the backlog.
    The agent keeps its [currentTaskId]. *)
Theorem alarm_reclaims_stale_agent now s k a taskId t :
  wellFormed s ->
  get k (agents s) = Some a ->
  a_lastHeartbeat a < now - 5 * 60 * 1000 ->
  a_status a <> Offline ->
  a_currentTaskId a = Some taskId -> taskId <> EmptyString ->
  get taskId (tasks s) = Some t -> t_status t = Running ->
  (exists a', get k (agents (alarm now s)) = Some a'
              /\ a_status a' = Offline
              /\ a_currentTaskId a' = Some taskId)
  /\ (exists t', get taskId (tasks (alarm now s)) = Some t'
                 /\ t_status t' = Pending
                 /\ t_agentId t' = EmptyString)
  /\ In taskId (taskQueue (alarm now s)).
Proof.
  intros Hwf Hg Hold Hon Hcur Hne Ht Hrun.
  assert (Hfires : sweeps now a = true).
  { unfold sweeps. apply andb_true_iff. split.
    - now apply Z.ltb_lt.
    - apply negb_true_iff.
      destruct (agentStatus_eqb (a_status a) Offline) eqn:E; [|reflexivity].
      now apply agentStatus_eqb_eq in E. }
  assert (Htruthy : truthy (Some taskId) = true).
  { simpl. apply negb_true_iff. now apply String.eqb_neq. }
  destruct (sweep_reclaims now (agents s) s k a taskId (proj1 Hwf)
              (get_In _ _ _ Hg) Hfires Hcur Htruthy)
    as ((t' & Hg' & Hp & Hid & Hin) & Hag).
  { left. now exists t. }
  unfold alarm. simpl. repeat split.
  - exists (withStatus a Offline). now repeat split.
  - exists t'. split; [|now split].
    apply get_filter; [assumption|]. unfold keepTask. simpl. now rewrite Hp.
  - assumption.
Qed.

(** The theorem at the analyzer of the example, six minutes after its
    registration. *)
Lemma alarm_reclaims_stale_agent_witness :
  In CoordinatorScenario.taskT1
     (taskQueue (alarm 361000 CoordinatorScenario.working))
  /\ exists a',
       get CoordinatorScenario.agentA
           (agents (alarm 361000 CoordinatorScenario.working)) = Some a'
       /\ a_status a' = Offline.
Proof.
  destruct (alarm_reclaims_stale_agent 361000 CoordinatorScenario.working
              CoordinatorScenario.agentA
              (mkAgent CoordinatorScenario.agentA "worker-1" Analyzer Busy
                       (Some CoordinatorScenario.taskT1) [] 1000 0 0 1000)
              CoordinatorScenario.taskT1
              (mkTask CoordinatorScenario.taskT1 CoordinatorScenario.agentA
                      "repo:analyze" "analyze repo" Running "{}" None None
                      2000 (Some 2000) None None None))
    as ((a' & Hg & Hs & _) & _ & Hin);
    try reflexivity; try discriminate.
  - apply wf_reachable. exists CoordinatorScenario.env.
    exists [CoordinatorScenario.registerA; CoordinatorScenario.submitT1].
    reflexivity.
  - split; [assumption|]. now exists a'.
Defined.

(** X2.  Every sweep keeps the agents and their order, and the backlog
    before it stays as the tail of the backlog after it.  In a coordinator
    keyed by agent id it leaves alone every agent whose heartbeat is at
    most five minutes old or which is already offline. *)
Theorem alarm_leaves_fresh_agents now s :
  keys (agents (alarm now s)) = keys (agents s)
  /\ (exists front, taskQueue (alarm now s) = front ++ taskQueue s)
  /\ (forall k a,
        wellFormed s ->
        get k (agents s) = Some a ->
        now - 5 * 60 * 1000 <= a_lastHeartbeat a \/ a_status a = Offline ->
        get k (agents (alarm now s)) = Some a).
Proof.
  unfold alarm. cbn [agents taskQueue]. repeat split.
  - apply sweep_keys. intros [k0 a0] Hin. unfold keys.
    change (fst (k0, a0)) with (fst (k0, a0)). now apply in_map.
  - apply sweep_queue.
  - intros k a Hwf Hg Hfresh.
    rewrite sweep_agent_kept; [assumption|].
    intros a0 Hin. apply (In_get _ _ _ (proj1 Hwf)) in Hin.
    rewrite Hg in Hin. injection Hin as <-. unfold sweeps.
    destruct Hfresh as [Hyoung|Hoff].
    + apply andb_false_iff. left. apply Z.ltb_ge. exact Hyoung.
    + rewrite Hoff. apply andb_false_r.
Qed.

(** The theorem at an agent with a fresh heartbeat, and at a sweep in
    which the only agent is stale. *)
Lemma alarm_leaves_fresh_agents_witness :
  get CoordinatorScenario.agentA
      (agents (alarm 200000 CoordinatorScenario.working))
  = get CoordinatorScenario.agentA (agents CoordinatorScenario.working)
  /\ keys (agents (alarm 400000 CoordinatorScenario.working))
     = [CoordinatorScenario.agentA]
  /\ exists front,
       taskQueue (alarm 400000 CoordinatorScenario.working)
       = front ++ taskQueue CoordinatorScenario.working.
Proof.
  split; [|split].
  - destruct (alarm_leaves_fresh_agents 200000 CoordinatorScenario.working)
      as (_ & _ & Hkept).
    rewrite (Hkept CoordinatorScenario.agentA
               (mkAgent CoordinatorScenario.agentA "worker-1" Analyzer Busy
                        (Some CoordinatorScenario.taskT1) [] 1000 0 0 1000)).
    + reflexivity.
    + apply wf_reachable. exists CoordinatorScenario.env.
      exists [CoordinatorScenario.registerA; CoordinatorScenario.submitT1].
      reflexivity.
    + reflexivity.
    + left. vm_compute. intros E. discriminate E.
  - rewrite (proj1 (alarm_leaves_fresh_agents 400000
                      CoordinatorScenario.working)).
    reflexivity.
  - exact (proj1 (proj2 (alarm_leaves_fresh_agents 400000
                           CoordinatorScenario.working))).
Defined.

(** X3.  After the sweep no stored task is completed or failed with a
    completion time more than 24 hours old; and every task that was not
    running and is not such an old finished task is stored unchanged. *)
Theorem alarm_purges_only_old_finished_tasks now s :
  (forall k t c,
      get k (tasks (alarm now s)) = Some t ->
      t_status t = Completed \/ t_status t = Failed ->
      t_completedAt t = Some c ->
      now - 24 * 60 * 60 * 1000 <= c)
  /\ (forall k t,
        get k (tasks s) = Some t ->
        t_status t <> Running ->
        ~ ((t_status t = Completed \/ t_status t = Failed)
           /\ exists c, t_completedAt t = Some c
                        /\ c < now - 24 * 60 * 60 * 1000) ->
        get k (tasks (alarm now s)) = Some t).
Proof.
  split.
  - intros k t c Hg Hterm Hc. unfold alarm in Hg. simpl in Hg.
    apply get_filter_sound in Hg. unfold keepTask in Hg. simpl in Hg.
    rewrite Hc in Hg. apply negb_true_iff, andb_false_iff in Hg.
    destruct Hg as [Hst|Hold]; [|now apply Z.ltb_ge].
    apply orb_false_iff in Hst as [H1 H2].
    destruct Hterm as [E|E]; rewrite E in *; discriminate.
  - intros k t Hg Hnr Hkeep. unfold alarm. simpl.
    apply get_filter; [now apply sweep_task_kept|].
    unfold keepTask. simpl. apply negb_true_iff.
    destruct (taskStatus_eqb (t_status t) Completed
              || taskStatus_eqb (t_status t) Failed) eqn:Hterm;
      [|reflexivity].
    destruct (t_completedAt t) as [c|]; [|reflexivity]. simpl.
    apply Z.ltb_ge. apply Z.nlt_ge. intros Hold. apply Hkeep. split.
    + apply orb_true_iff in Hterm as [E|E]; apply taskStatus_eqb_eq in E;
        auto.
    + now exists c.
Qed.

Lemma alarm_purges_only_old_finished_tasks_witness :
  get CoordinatorScenario.taskT1
      (tasks (alarm 90000000 CoordinatorScenario.retried))
  = get CoordinatorScenario.taskT1 (tasks CoordinatorScenario.retried).
Proof.
  destruct (alarm_purges_only_old_finished_tasks 90000000
              CoordinatorScenario.retried) as [_ Hkept].
  rewrite (Hkept CoordinatorScenario.taskT1
             (mkTask CoordinatorScenario.taskT1 EmptyString "repo:analyze"
                     "analyze repo" Retrying "{}" None None 2000 (Some 2000)
                     None None None)).
  - reflexivity.
  - reflexivity.
  - discriminate.
  - intros [[E|E] _]; discriminate E.
Defined.

(** *** The status report *)

Lemma idle_is_active_minus_busy (l : list AgentState) :
  countWhere (fun a => negb (hasStatus Offline a)) l
  - countWhere (hasStatus Busy) l
  = countWhere (hasStatus Idle) l + countWhere (hasStatus Error) l.
Proof.
  unfold countWhere, hasStatus. induction l as [|a l IH]; [reflexivity|].
  cbn -[Z.of_nat]. destruct (a_status a); cbn -[Z.of_nat] in *; lia.
Qed.

Lemma total_is_active_plus_offline (l : list AgentState) :
  Z.of_nat (List.length l)
  = countWhere (fun a => negb (hasStatus Offline a)) l
    + countWhere (hasStatus Offline) l.
Proof.
  unfold countWhere, hasStatus. induction l as [|a l IH]; [reflexivity|].
  cbn -[Z.of_nat]. destruct (a_status a); cbn -[Z.of_nat] in *; lia.
Qed.

(** X4.  The number that [getStatus] reports as idle agents is the number
    of agents whose status is [idle] plus the number of agents whose status
    is [error]; the total is the active agents plus the offline ones. *)
Theorem status_counts_error_agents_as_idle s :
  agents_idle (handleGetStatus s)
  = countWhere (hasStatus Idle) (values (agents s))
    + countWhere (hasStatus Error) (values (agents s))
  /\ agents_total (handleGetStatus s)
     = agents_active (handleGetStatus s)
       + countWhere (hasStatus Offline) (values (agents s)).
Proof.
  split.
  - apply idle_is_active_minus_busy.
  - simpl. unfold size, values. rewrite <- (length_map snd).
    apply total_is_active_plus_offline.
Qed.

(** *** Submission *)

(** What the pass can do to a pending task: nothing, or start it. *)
Lemma assignOne_task_fate now agent s k t :
  get k (tasks s) = Some t ->
  get k (tasks (fst (assignOne now agent s))) = Some t
  \/ get k (tasks (fst (assignOne now agent s)))
     = Some (startedTask t (a_id agent) now).
Proof.
  intros Hg. unfold assignOne.
  destruct (scanQueue agent (tasks s) (taskQueue s)) eqn:Hscan; simpl; auto.
  apply scanQueue_hit in Hscan as (Hg' & _).
  destruct (String.eqb_spec taskId k) as [->|Hne].
  - rewrite Hg in Hg'. injection Hg' as <-. right. apply get_set_eq.
  - left. now rewrite get_set_ne.
Qed.

Lemma assignOne_started_kept now agent s k t :
  get k (tasks s) = Some t -> t_status t <> Pending ->
  get k (tasks (fst (assignOne now agent s))) = Some t.
Proof.
  intros Hg Hnp. unfold assignOne.
  destruct (scanQueue agent (tasks s) (taskQueue s)) eqn:Hscan; simpl; auto.
  apply scanQueue_hit in Hscan as (Hg' & Hp & _).
  rewrite get_set_ne; [assumption|]. intros <-. congruence.
Qed.

Lemma assignAll_started_kept now idleAgents s k t :
  get k (tasks s) = Some t -> t_status t <> Pending ->
  get k (tasks (fst (assignAll now idleAgents s))) = Some t.
Proof.
  revert s. induction idleAgents as [|a rest IH]; simpl; intros s Hg Hnp;
    [assumption|].
  pose proof (assignOne_started_kept now a s k t Hg Hnp) as H1.
  destruct (assignOne now a s) as [s' [|]]; simpl in *; auto.
Qed.

Lemma assignAll_task_fate now idleAgents s k t :
  get k (tasks s) = Some t ->
  get k (tasks (fst (assignAll now idleAgents s))) = Some t
  \/ exists agentId,
       get k (tasks (fst (assignAll now idleAgents s)))
       = Some (startedTask t agentId now).
Proof.
  revert s. induction idleAgents as [|a rest IH]; simpl; intros s Hg;
    [now left|].
  pose proof (assignOne_task_fate now a s k t Hg) as H1.
  destruct (assignOne now a s) as [s' [|]] eqn:Hone; simpl in *.
  - destruct H1 as [H1|H1]; [now left|right; now exists (a_id a)].
  - destruct H1 as [H1|H1]; [now apply IH|].
    right. exists (a_id a). now apply assignAll_started_kept.
Qed.

(** X5.  Whatever [submitTask] answers, the task it created can be read
    back under its id: it has the submitted type, description, input and
    parent, and it is either still pending and unassigned or was started by
    the assignment pass of the same request.  An answer that carries a task
    carries this one. *)
Theorem submitted_task_can_be_read
    now uuid type description input priority parent s :
  let taskId := ("task-" ++ substring 0 12 uuid)%string in
  let result :=
    handleSubmitTask now uuid type description input priority parent s in
  exists t,
    handleGetTask taskId (snd result) = inl t
    /\ t_id t = taskId /\ t_type t = type /\ t_description t = description
    /\ t_input t = input /\ t_parentTaskId t = parent /\ t_createdAt t = now
    /\ ((t_status t = Pending /\ t_agentId t = EmptyString)
        \/ (t_status t = Running /\ t_startedAt t = Some now))
    /\ (fst result = ServerError \/ fst result = SubmitOk taskId t).
Proof.
  intros taskId result. subst result. unfold handleSubmitTask. fold taskId.
  set (task := mkTask taskId EmptyString type description Pending input
                      None None now None None parent None).
  match goal with |- context [tryAssignTasks now ?x] => set (s1 := x) end.
  assert (Hg : get taskId (tasks s1) = Some task) by apply get_set_eq.
  destruct (assignAll_task_fate now
              (filter (fun a => agentStatus_eqb (a_status a) Idle)
                      (values (agents s1))) s1 taskId task Hg)
    as [Hfate|[agentId Hfate]];
    fold (tryAssignTasks now s1) in Hfate;
    destruct (tryAssignTasks now s1) as [s2 threw]; simpl in Hfate.
  - exists task. unfold handleGetTask, currentTask.
    destruct threw; simpl; rewrite Hfate; repeat split; auto.
  - exists (startedTask task agentId now). unfold handleGetTask, currentTask.
    destruct threw; simpl; rewrite Hfate; repeat split; auto.
Qed.

(** X6.  A task submitted with priority high or critical while no agent is
    idle waits at the head of the backlog, and an agent registered next
    that can handle it receives it with its first request: the task is then
    running and carries the agent's id. *)
Theorem high_priority_task_goes_to_next_agent
    now1 now2 now3 uuid1 uuid2 type description input priority parent
    name atype caps s :
  let taskId := ("task-" ++ substring 0 12 uuid1)%string in
  let agentId := ("agent-" ++ substring 0 8 uuid2)%string in
  let task :=
    mkTask taskId EmptyString type description Pending input None None now1
           None None parent None in
  let agent :=
    mkAgent agentId name atype Idle None
            (match caps with Some c => c | None => [] end) now2 0 0 now2 in
  (forall a, In a (values (agents s)) -> a_status a <> Idle) ->
  priority = Some High \/ priority = Some Critical ->
  canAgentHandleTask agent task = Some true ->
  let s1 :=
    snd (handleSubmitTask now1 uuid1 type description input priority
                          parent s) in
  let s2 := snd (handleRegisterAgent now2 uuid2 name atype caps s1) in
  taskQueue s1 = taskId :: taskQueue s
  /\ handleGetTask taskId s1 = inl task
  /\ fst (handleGetNextTask now3 agentId s2)
     = NextTask (startedTask task agentId now3)
  /\ taskQueue (snd (handleGetNextTask now3 agentId s2)) = taskQueue s.
Proof.
  intros taskId agentId task agent Hbusy Hprio Hcan s1 s2.
  assert (Hnone :
    filter (fun a => agentStatus_eqb (a_status a) Idle) (values (agents s))
    = []).
  { induction (values (agents s)) as [|a l IH]; [reflexivity|]. simpl.
    destruct (agentStatus_eqb (a_status a) Idle) eqn:E.
    - apply agentStatus_eqb_eq in E. now apply Hbusy in E; [|left].
    - apply IH. intros b Hb. apply Hbusy. now right. }
  assert (Hs1 :
    s1 = mkCoordinator (agents s) (set taskId task (tasks s))
                       (taskId :: taskQueue s)).
  { subst s1. unfold handleSubmitTask, tryAssignTasks. fold taskId task.
    cbn [agents]. rewrite Hnone.
    destruct Hprio as [-> | ->]; reflexivity. }
  assert (Hs2 :
    s2 = mkCoordinator (set agentId agent (agents s))
                       (set taskId task (tasks s)) (taskId :: taskQueue s)).
  { subst s2. rewrite Hs1. reflexivity. }
  rewrite Hs1. split; [reflexivity|].
  split; [unfold handleGetTask; simpl; now rewrite get_set_eq|].
  rewrite Hs2. unfold handleGetNextTask. cbn [agents tasks taskQueue].
  rewrite get_set_eq. cbn [a_status agent agentStatus_eqb negb].
  cbn [scanQueue]. rewrite get_set_eq. cbn [t_status task taskStatus_eqb].
  rewrite Hcan. split; reflexivity.
Qed.

Lemma high_priority_task_goes_to_next_agent_witness :
  exists t,
    fst (handleGetNextTask 3000 "agent-a1b2c3d4"
           (snd (handleRegisterAgent 2000
                   "a1b2c3d4-0000-4000-8000-000000000001" "worker-1" Analyzer
                   None
                   (snd (handleSubmitTask 1000
                           "7f3e9a10-5b2c-4d6e-8f90-123456789abc"
                           "cohesion:check" "check" "{}" (Some High) None
                           init)))))
    = NextTask t
    /\ t_status t = Running.
Proof.
  destruct (high_priority_task_goes_to_next_agent 1000 2000 3000
              "7f3e9a10-5b2c-4d6e-8f90-123456789abc"%string
              "a1b2c3d4-0000-4000-8000-000000000001"%string
              "cohesion:check"%string "check"%string "{}"%string
              (Some High) None "worker-1"%string Analyzer None init)
    as (_ & _ & Hnext & _).
  - intros a [].
  - now left.
  - reflexivity.
  - eexists. split; [exact Hnext|reflexivity].
Defined.

(** *** Task types on which matching raises *)

Lemma raisesOn_None agent task :
  raisesOn (t_type task) = true -> canAgentHandleTask agent task = None.
Proof.
  unfold raisesOn, canAgentHandleTask.
  destruct (taskTypeToCapability (t_type task)) as [req|arity| |];
    try discriminate; [|reflexivity].
  now destruct (arity =? 0).
Qed.

Lemma scanQueue_throw agent ts front taskId task rest :
  (forall x t, In x front -> get x ts = Some t -> t_status t <> Pending) ->
  get taskId ts = Some task -> t_status task = Pending ->
  raisesOn (t_type task) = true ->
  scanQueue agent ts (front ++ taskId :: rest) = Throw.
Proof.
  intros Hfront Hg Hp Hraise. induction front as [|x front IH]; simpl.
  - rewrite Hg, Hp. simpl. now rewrite raisesOn_None.
  - rewrite IH by (intros y t Hy; apply Hfront; now right).
    destruct (get x ts) as [t|] eqn:Hx; [|reflexivity].
    destruct (taskStatus_eqb (t_status t) Pending) eqn:E; [|reflexivity].
    apply taskStatus_eqb_eq in E. exfalso.
    now apply (Hfront x t (or_introl eq_refl) Hx).
Qed.

(** X7.  While the first pending task of the backlog has a type that is
    the name of a property inherited from [Object.prototype] (other than
    the three methods of arity 0), capability matching raises: for every
    idle agent [requestNextTask] is answered with the server error, and the
    assignment pass is cut short at once; neither changes the state. *)
Theorem raising_task_type_blocks_assignment
    now agentId agent s front taskId task rest :
  get agentId (agents s) = Some agent -> a_status agent = Idle ->
  taskQueue s = front ++ taskId :: rest ->
  (forall x t, In x front -> get x (tasks s) = Some t ->
               t_status t <> Pending) ->
  get taskId (tasks s) = Some task -> t_status task = Pending ->
  raisesOn (t_type task) = true ->
  handleGetNextTask now agentId s = (ServerError, s)
  /\ tryAssignTasks now s = (s, true).
Proof.
  intros Hg Hidle Hq Hfront Ht Hp Hraise.
  assert (Hthrow : forall a, scanQueue a (tasks s) (taskQueue s) = Throw).
  { intros a. rewrite Hq. now apply (scanQueue_throw a _ front taskId task). }
  split.
  - unfold handleGetNextTask. rewrite Hg, Hidle. simpl. now rewrite Hthrow.
  - unfold tryAssignTasks.
    assert (Hin : In agent
                     (filter (fun a => agentStatus_eqb (a_status a) Idle)
                             (values (agents s)))).
    { apply filter_In. split.
      - unfold values. change agent with (snd (agentId, agent)).
        apply in_map. now apply get_In.
      - now rewrite Hidle. }
    destruct (filter _ _) as [|a0 l]; [easy|].
    simpl. unfold assignOne. now rewrite Hthrow.
Qed.

Lemma raising_task_type_blocks_assignment_witness :
  let s :=
    run CoordinatorScenario.env
        [CoordinatorScenario.registerA;
         (2000, Submit "7f3e9a10-5b2c-4d6e-8f90-123456789abc" "constructor"
                       "anything" "{}" None None)] init in
  handleGetNextTask 3000 CoordinatorScenario.agentA s = (ServerError, s).
Proof.
  intros s.
  apply (proj1 (raising_task_type_blocks_assignment 3000
              CoordinatorScenario.agentA
              (mkAgent CoordinatorScenario.agentA "worker-1" Analyzer Idle
                       None [] 1000 0 0 1000)
              s [] CoordinatorScenario.taskT1
              (mkTask CoordinatorScenario.taskT1 EmptyString "constructor"
                      "anything" Pending "{}" None None 2000 None None None
                      None)
              [] eq_refl eq_refl eq_refl (fun x t (H : In x []) => match H with end)
              eq_refl eq_refl eq_refl)).
Defined.

(** *** The assignment pass *)

Lemma assignAll_agent_kept now idleAgents s k :
  (forall b, In b idleAgents -> a_id b <> k) ->
  get k (agents (fst (assignAll now idleAgents s))) = get k (agents s).
Proof.
  revert s. induction idleAgents as [|a rest IH]; simpl; intros s Hne;
    [reflexivity|].
  assert (H1 : get k (agents (fst (assignOne now a s))) = get k (agents s)).
  { unfold assignOne.
    destruct (scanQueue a (tasks s) (taskQueue s)); simpl; auto.
    apply get_set_ne. apply Hne. now left. }
  destruct (assignOne now a s) as [s' [|]]; simpl in *; [assumption|].
  rewrite IH; [assumption|]. intros b Hb. apply Hne. now right.
Qed.

Lemma stored_value {V} (m : JsMap.t V) v :
  In v (values m) -> exists k, In (k, v) m.
Proof.
  unfold values. intros H. apply in_map_iff in H as ([k v'] & Heq & Hin).
  simpl in Heq. subst v'. now exists k.
Qed.

(** X8.  The assignment pass leaves alone every agent that is not idle and
    every task that is not pending. *)
Theorem pass_touches_idle_agents_and_pending_tasks_only now s :
  wellFormed s ->
  (forall k a, get k (agents s) = Some a -> a_status a <> Idle ->
               get k (agents (fst (tryAssignTasks now s))) = Some a)
  /\ (forall k t, get k (tasks s) = Some t -> t_status t <> Pending ->
                  get k (tasks (fst (tryAssignTasks now s))) = Some t).
Proof.
  intros Hwf. split.
  - intros k a Hg Hbusy. unfold tryAssignTasks.
    rewrite assignAll_agent_kept; [assumption|].
    intros b Hb Hid. apply filter_In in Hb as [Hb Hidle].
    apply stored_value in Hb as (kb & Hb).
    apply (In_get _ _ _ (proj1 Hwf)) in Hb.
    pose proof (proj2 Hwf kb b Hb) as Hkb. rewrite Hid in Hkb. subst kb.
    rewrite Hg in Hb. injection Hb as <-.
    apply agentStatus_eqb_eq in Hidle. contradiction.
  - intros k t Hg Hnp. now apply assignAll_started_kept.
Qed.

Lemma pass_touches_idle_agents_and_pending_tasks_only_witness :
  get CoordinatorScenario.agentA
      (agents (fst (tryAssignTasks 5000 CoordinatorScenario.backlogged)))
  = get CoordinatorScenario.agentA (agents CoordinatorScenario.backlogged).
Proof.
  destruct (pass_touches_idle_agents_and_pending_tasks_only 5000
              CoordinatorScenario.backlogged) as [Hagents _].
  - apply wf_reachable. exists CoordinatorScenario.env.
    exists [CoordinatorScenario.registerA; CoordinatorScenario.submitT1;
            CoordinatorScenario.submitT2].
    reflexivity.
  - rewrite (Hagents CoordinatorScenario.agentA
               (mkAgent CoordinatorScenario.agentA "worker-1" Analyzer Busy
                        (Some CoordinatorScenario.taskT1) [] 1000 0 0 1000));
      [reflexivity|reflexivity|discriminate].
Defined.

(** X9.  The assignment pass is idempotent: a pass that ran to its end
    leaves a state that a second pass, at any time, does not change. *)
Theorem pass_is_idempotent now now' s s1 :
  wellFormed s ->
  tryAssignTasks now s = (s1, false) ->
  tryAssignTasks now' s1 = (s1, false).
Proof.
  intros Hwf Hrun.
  assert (Hwf1 : wellFormed s1).
  { pose proof (wf_tryAssignTasks now s Hwf) as H. now rewrite Hrun in H. }
  unfold tryAssignTasks in *.
  destruct (pass_settles now _ s s1 Hrun) as (Hlater & Hsettled).
  apply assignAll_all_miss. intros b Hb.
  apply filter_In in Hb as [Hb Hidle]. apply agentStatus_eqb_eq in Hidle.
  apply stored_value in Hb as (k & Hb).
  apply (In_get _ _ _ (proj1 Hwf1)) in Hb.
  pose proof (proj2 Hwf1 k b Hb) as Hk.
  destruct Hlater as (_ & _ & Hwas & _).
  pose proof (Hwas k b Hb Hidle) as Hb0.
  destruct (Hsettled b) as [Hmiss|(b' & Hg' & Hbusy)]; [|assumption|].
  - apply filter_In. split.
    + unfold values. change b with (snd (k, b)). apply in_map.
      now apply get_In.
    + now apply agentStatus_eqb_eq.
  - rewrite Hk, Hb in Hg'. injection Hg' as <-. congruence.
Qed.

Lemma pass_is_idempotent_witness :
  tryAssignTasks 9000
    (fst (tryAssignTasks 5000 CoordinatorScenario.retriedBacklogged))
  = (fst (tryAssignTasks 5000 CoordinatorScenario.retriedBacklogged), false).
Proof.
  apply (pass_is_idempotent 5000 9000 CoordinatorScenario.retriedBacklogged).
  - apply wf_reachable. exists CoordinatorScenario.env.
    exists [CoordinatorScenario.registerA; CoordinatorScenario.submitT1;
            CoordinatorScenario.submitT2;
            (3000, Fail CoordinatorScenario.taskT1 CoordinatorScenario.agentA
                        "boom" (Some true))].
    reflexivity.
  - reflexivity.
Defined.

(** X10.  After any run of disciplined requests from the empty
    coordinator, two different agents never have the same current task. *)
Theorem no_task_held_by_two_agents env evs k1 k2 a1 a2 t1 t2 :
  disciplinedRun env evs init = true ->
  get k1 (agents (run env evs init)) = Some a1 ->
  get k2 (agents (run env evs init)) = Some a2 ->
  k1 <> k2 ->
  a_currentTaskId a1 = Some t1 ->
  a_currentTaskId a2 = Some t2 ->
  t1 <> t2.
Proof.
  intros Hd H1 H2 Hne Hc1 Hc2 Heq. subst t2. apply Hne.
  pose proof (busy_run env evs init wf_init busy_init Hd) as Hinv.
  pose proof (wf_run env evs init wf_init) as [_ Hkeys].
  pose proof (Hinv k1 a1 H1) as Hok1. pose proof (Hinv k2 a2 H2) as Hok2.
  unfold agentConsistent in Hok1, Hok2. rewrite Hc1 in Hok1.
  rewrite Hc2 in Hok2.
  apply andb_true_iff in Hok1 as [_ Hh1].
  apply andb_true_iff in Hok2 as [_ Hh2].
  apply holdsTask_true in Hh1 as (t & Hg1 & _ & Hid1).
  apply holdsTask_true in Hh2 as (t' & Hg2 & _ & Hid2).
  rewrite Hg1 in Hg2. injection Hg2 as <-.
  rewrite <- (Hkeys k1 a1 H1), <- (Hkeys k2 a2 H2). congruence.
Qed.

(** The theorem at two analyzers that are both busy. *)
Lemma no_task_held_by_two_agents_witness :
  let a := mkAgent CoordinatorScenario.agentA "worker-1" Analyzer Busy
                   (Some CoordinatorScenario.taskT1) [] 1000 0 0 1000 in
  let b := mkAgent CoordinatorScenario.agentB "worker-2" Analyzer Busy
                   (Some CoordinatorScenario.taskT2) [] 1500 0 0 1500 in
  get CoordinatorScenario.agentA (agents CoordinatorScenario.bothBusy)
  = Some a
  /\ get CoordinatorScenario.agentB (agents CoordinatorScenario.bothBusy)
     = Some b
  /\ CoordinatorScenario.taskT1 <> CoordinatorScenario.taskT2.
Proof.
  intros a b. split; [reflexivity|]. split; [reflexivity|].
  apply (no_task_held_by_two_agents CoordinatorScenario.env
           [CoordinatorScenario.registerA;
            (1500, snd CoordinatorScenario.registerB);
            CoordinatorScenario.submitT1; CoordinatorScenario.submitT2]
           CoordinatorScenario.agentA CoordinatorScenario.agentB a b);
    try reflexivity.
  intros E. discriminate E.
Defined.

End CoordinatorMore.

(** ** The job queue: dead-letter retry, purge, sweep and scheduling *)

Module QueueMore.

Import JsMap JsMapFacts JobQueue JobQueueOps QueueSpec.
Local Open Scope list_scope.

Lemma get_map_values {V} (f : V -> V) k (m : JsMap.t V) :
  get k (map (fun e => (fst e, f (snd e))) m) = option_map f (get k m).
Proof.
  induction m as [|[k' v] m IH]; simpl; [reflexivity|].
  now destruct (String.eqb k k').
Qed.

Lemma get_filter_out {V} (f : string * V -> bool) k v (m : JsMap.t V) :
  NoDup (keys m) -> get k m = Some v -> f (k, v) = false ->
  get k (filter f m) = None.
Proof.
  intros Hnd Hg Hf. destruct (get k (filter f m)) as [v'|] eqn:Hg';
    [|reflexivity].
  pose proof (CoordinatorMore.get_filter_sound f k v' m Hg') as Hf'.
  apply get_In, filter_In in Hg' as [Hin _].
  rewrite (In_get _ _ _ Hnd Hin) in Hg. injection Hg as ->. congruence.
Qed.

Lemma jobType_eqb_eq x y : jobType_eqb x y = true <-> x = y.
Proof. destruct x, y; simpl; split; congruence. Qed.

Lemma priority_eqb_eq x y : priority_eqb x y = true <-> x = y.
Proof. destruct x, y; simpl; split; congruence. Qed.

(** *** Dead-letter retry *)

Lemma revive_fold l : forall lanes st n,
  let '(lanes', st', n') := fold_left reviveEntry l (lanes, st, n) in
  n' = n + Z.of_nat (length (filter (fun e => isDead (snd e)) l))
  /\ st_dead st' = st_dead st - (n' - n)
  /\ st_pending st' = st_pending st + (n' - n)
  /\ forall p, lane p lanes' = lane p lanes ++ deadIds p l.
Proof.
  induction l as [|[k job] l IH]; intros lanes st n.
  - cbn [fold_left filter length]. repeat split; try lia.
    intros p. unfold deadIds. simpl. now rewrite app_nil_r.
  - cbn [fold_left]. unfold reviveEntry at 2. cbn [filter snd].
    destruct (isDead job) eqn:Hdead.
    + specialize (IH (setLane (j_priority job)
                               (lane (j_priority job) lanes ++ [k]) lanes)
                     (addPending 1 (addDead (-1) st)) (n + 1)).
      destruct (fold_left _ _ _) as [[lanes' st'] n'].
      destruct IH as (Hn & Hd & Hp & Hl).
      unfold addPending, addDead in Hd, Hp.
      cbn [st_dead st_pending] in Hd, Hp.
      cbn [length]. rewrite Nat2Z.inj_succ.
      repeat split; try lia.
      intros q. rewrite Hl. unfold deadIds. cbn [filter snd].
      rewrite Hdead. cbn [andb].
      destruct (priority_eqb (j_priority job) q) eqn:Hq.
      * apply priority_eqb_eq in Hq. subst q.
        rewrite lane_setLane_same. cbn [map fst].
        now rewrite <- app_assoc.
      * rewrite lane_setLane_other; [reflexivity|].
        intros Heq. rewrite Heq in Hq. destruct q; discriminate.
    + specialize (IH lanes st n).
      destruct (fold_left _ _ _) as [[lanes' st'] n'].
      destruct IH as (Hn & Hd & Hp & Hl). repeat split; try assumption.
      intros q. rewrite Hl. unfold deadIds. cbn [filter snd].
      now rewrite Hdead.
Qed.

(** X11.  [retry-dead] revives every dead job and nothing else: the
    count returned is the number of dead jobs; each of them is pending
    again with retry count 0 and neither error nor schedule, so that it
    can be dequeued at once, while every other job is as it was; no dead
    job remains; the ids of the revived jobs go to the tails of the lanes
    of their priorities, in the order of the job table; and the counters
    move that many jobs from dead to pending. *)
Theorem retry_dead_revives_every_dead_job s :
  let n := fst (handleRetryDead s) in
  let s' := snd (handleRetryDead s) in
  n = Z.of_nat (length (filter (fun e => isDead (snd e)) (jobs s)))
  /\ (forall k job, get k (jobs s) = Some job ->
        get k (jobs s')
        = Some (if isDead job then revivedJob job else job))
  /\ (forall k job, get k (jobs s') = Some job -> j_status job <> Dead)
  /\ (forall now k job, get k (jobs s) = Some job -> isDead job = true ->
        eligible now None (jobs s') k = true)
  /\ (forall p, lane p (priorityQueues s')
                = lane p (priorityQueues s) ++ deadIds p (jobs s))
  /\ st_dead (stats s') = st_dead (stats s) - n
  /\ st_pending (stats s') = st_pending (stats s) + n.
Proof.
  unfold handleRetryDead.
  pose proof (revive_fold (jobs s) (priorityQueues s) (stats s) 0) as Hfold.
  destruct (fold_left _ _ _) as [[lanes' st'] n']. cbn [fst snd].
  destruct Hfold as (Hn & Hd & Hp & Hl). cbn [jobs priorityQueues stats].
  assert (Hget : forall k job, get k (jobs s) = Some job ->
            get k (map (fun e : string * QueuedJob =>
                          (fst e, if isDead (snd e) then revivedJob (snd e)
                                  else snd e)) (jobs s))
            = Some (if isDead job then revivedJob job else job)).
  { intros k job Hg.
    rewrite (get_map_values
               (fun j => if isDead j then revivedJob j else j)).
    now rewrite Hg. }
  repeat split; try lia; try assumption.
  - intros k job Hg.
    rewrite (get_map_values
               (fun j => if isDead j then revivedJob j else j)) in Hg.
    destruct (get k (jobs s)) as [job0|]; [|discriminate].
    injection Hg as <-. destruct (isDead job0) eqn:Hdead; [discriminate|].
    unfold isDead in Hdead. intros Hst. rewrite Hst in Hdead. discriminate.
  - intros now k job Hg Hdead. unfold eligible.
    rewrite (Hget k job Hg), Hdead. reflexivity.
Qed.

(** *** Purge *)

Lemma filter_split_length {A} (f : A -> bool) (l : list A) :
  (length (filter f l) + length (filter (fun x => negb (f x)) l)
   = length l)%nat.
Proof.
  induction l as [|x l IH]; simpl; [reflexivity|].
  destruct (f x); simpl; lia.
Qed.

(** X12.  [purge] deletes exactly the jobs whose status is among those
    asked for (only completed by default) and whose completion time is set,
    is not the epoch and lies more than the given number of hours (24 when
    it is absent or 0) before now; a job that has no completion time is
    never deleted.  The count returned is the number of jobs deleted, and
    neither the lanes nor the counters are touched. *)
Theorem purge_deletes_old_finished_jobs now olderThanHours statuses s :
  NoDup (keys (jobs s)) ->
  let n := fst (handlePurge now olderThanHours statuses s) in
  let s' := snd (handlePurge now olderThanHours statuses s) in
  let hours := match olderThanHours with
               | Some 0 | None => 24
               | Some h => h
               end in
  let asked := match statuses with Some l => l | None => ["completed"] end in
  (forall k job, get k (jobs s) = Some job ->
     get k (jobs s')
     = match j_completedAt job with
       | Some at_ =>
           if includes asked (jobStatusName (j_status job))
              && negb (at_ =? 0) && (at_ <? now - hours * 3600000)
           then None else Some job
       | None => Some job
       end)
  /\ (forall k job, get k (jobs s') = Some job -> get k (jobs s) = Some job)
  /\ n = size (jobs s) - size (jobs s')
  /\ priorityQueues s' = priorityQueues s
  /\ stats s' = stats s.
Proof.
  intros Hnd. unfold handlePurge. cbn [fst snd jobs priorityQueues stats].
  assert (Hhours : purgeHours olderThanHours
                   = match olderThanHours with
                     | Some 0 | None => 24
                     | Some h => h
                     end).
  { unfold purgeHours. destruct olderThanHours as [[|h|h]|]; reflexivity. }
  rewrite Hhours. clear Hhours.
  set (hours := match olderThanHours with
                | Some 0 | None => 24
                | Some h => h
                end).
  set (asked := match statuses with Some l => l | None => ["completed"] end).
  set (olderThan := now - hours * 60 * 60 * 1000).
  assert (Hlimit : now - hours * 3600000 = olderThan)
    by (unfold olderThan; lia).
  repeat split.
  - intros k job Hg. rewrite Hlimit.
    assert (Hp : purged olderThan asked (k, job)
                 = match j_completedAt job with
                   | Some at_ =>
                       includes asked (jobStatusName (j_status job))
                       && negb (at_ =? 0) && (at_ <? olderThan)
                   | None => false
                   end).
    { unfold purged. cbn [snd].
      destruct (j_completedAt job) as [at_|].
      - now rewrite andb_assoc.
      - cbn. now rewrite andb_false_r. }
    destruct (purged olderThan asked (k, job)) eqn:Hpurged.
    + destruct (j_completedAt job) as [at_|]; [|discriminate].
      rewrite <- Hp.
      apply get_filter_out with (v := job); try assumption.
      now rewrite Hpurged.
    + assert (Hkept : get k (filter (fun e => negb (purged olderThan asked e))
                                    (jobs s)) = Some job).
      { apply get_filter; [assumption|]. now rewrite Hpurged. }
      rewrite Hkept. destruct (j_completedAt job); [now rewrite <- Hp|
                                                     reflexivity].
  - intros k job Hg. apply get_In, filter_In in Hg as [Hin _].
    now apply In_get.
  - unfold size.
    pose proof (filter_split_length (purged olderThan asked) (jobs s)). lia.
Qed.

Lemma purge_deletes_old_finished_jobs_witness :
  let s := snd (fst (handleFail QueueScenario.env 2000 QueueScenario.jobA
                       "boom" (Some false) QueueScenario.oneJob)) in
  fst (handlePurge 200000000 (Some 0) (Some ["dead"]) s)
  = size (jobs s)
    - size (jobs (snd (handlePurge 200000000 (Some 0) (Some ["dead"]) s))).
Proof.
  intros s.
  apply (purge_deletes_old_finished_jobs 200000000 (Some 0) (Some ["dead"]) s).
  repeat constructor. intros [].
Defined.

(** *** Dequeue *)

(** Whatever [handleDequeue] hands out was a pending job of the table that
    was due and of a type asked for. *)
Lemma dequeue_sound now workerId types s :
  match fst (handleDequeue now workerId types s) with
  | DequeueOk (Some job') =>
      exists jobId job,
        get jobId (jobs s) = Some job
        /\ job' = startedJob job now
        /\ eligible now types (jobs s) jobId = true
        /\ jobs (snd (handleDequeue now workerId types s))
           = set jobId job' (jobs s)
  | DequeueOk None => snd (handleDequeue now workerId types s) = s
  | _ => False
  end.
Proof.
  unfold handleDequeue.
  pose proof (dequeueFrom_find now types laneOrder s) as H.
  destruct (find _ _) as [jobId|] eqn:Hfind.
  - destruct H as (job & Hg & Hresp & Hjobs). rewrite Hresp.
    exists jobId, job. repeat split; try assumption.
    now apply find_some in Hfind.
  - now rewrite H.
Qed.

(** X13.  [dequeue] never hands out a job that is not pending, that is
    scheduled for later than now, or whose type is not among the types
    asked for; the job handed out is stored as processing, started now. *)
Theorem dequeue_serves_only_due_pending_jobs now workerId types s job' s' :
  handleDequeue now workerId types s = (DequeueOk (Some job'), s') ->
  exists jobId job,
    get jobId (jobs s) = Some job
    /\ j_status job = Pending
    /\ (forall at_, j_scheduledFor job = Some at_ -> at_ <= now)
    /\ (forall ts, types = Some ts -> In (j_type job) ts)
    /\ job' = startedJob job now
    /\ j_status job' = Processing /\ j_startedAt job' = Some now
    /\ get jobId (jobs s') = Some job'.
Proof.
  intros Hrun. pose proof (dequeue_sound now workerId types s) as H.
  rewrite Hrun in H. cbn [fst snd] in H.
  destruct H as (jobId & job & Hg & -> & Hok & Hjobs).
  exists jobId, job. unfold eligible in Hok. rewrite Hg in Hok.
  apply andb_true_iff in Hok as [Hok Htypes].
  apply andb_true_iff in Hok as [Hst Hdue].
  apply jobStatus_eqb_eq in Hst. repeat split; try assumption.
  - intros at_ Hat. rewrite Hat in Hdue. apply negb_true_iff in Hdue.
    now apply Z.ltb_ge in Hdue.
  - intros ts ->. apply existsb_exists in Htypes as (ty & Hin & Heq).
    apply jobType_eqb_eq in Heq. now subst ty.
  - rewrite Hjobs. apply get_set_eq.
Qed.

Lemma dequeue_serves_only_due_pending_jobs_witness :
  exists jobId job,
    get jobId (jobs QueueScenario.oneJob) = Some job
    /\ j_status job = Pending /\ j_type job = RepoSync.
Proof.
  destruct (dequeue_serves_only_due_pending_jobs 5000 "worker-1"
              (Some [RepoSync]) QueueScenario.oneJob
              _ _ eq_refl)
    as (jobId & job & Hg & Hst & _ & Hty & _).
  exists jobId, job. repeat split; try assumption.
  destruct (Hty [RepoSync] eq_refl) as [H|[]]. now symmetry.
Defined.

(** *** Retry and backoff *)

(** X14.  A job that [fail] has sent back for a retry at time [now] waits
    out its backoff, its retry count being a natural number, as every
    count the queue writes is, and [now] plus the backoff being a time a
    [Date] can hold: it can be dequeued at time [t] exactly when
    [now + 2^retryCount * 1000 <= t], and a dequeue before that leaves it
    pending, whatever else it hands out. *)
Theorem retried_job_waits_for_backoff
    env now jobId err shouldRetry s job t workerId types :
  get jobId (jobs s) = Some job ->
  0 <= j_retryCount job ->
  - 8640000000000000 <= now + 2 ^ j_retryCount job * 1000 <= 8640000000000000 ->
  retryPermitted shouldRetry job = true ->
  let s1 := snd (fst (handleFail env now jobId err shouldRetry s)) in
  eligible t None (jobs s1) jobId
  = (now + 2 ^ j_retryCount job * 1000 <=? t)
  /\ (t < now + 2 ^ j_retryCount job * 1000 ->
      get jobId (jobs (snd (handleDequeue t workerId types s1)))
      = Some (retriedJob job err (now + 2 ^ j_retryCount job * 1000))).
Proof.
  intros Hg _ Hvalid Hretry.
  rewrite (handleFail_retry _ _ _ _ _ _ job Hg Hretry Hvalid).
  cbn [fst snd]. set (s1 := mkQueue _ _ _).
  set (due := now + 2 ^ j_retryCount job * 1000) in *.
  assert (Hg1 : get jobId (jobs s1) = Some (retriedJob job err due))
    by apply get_set_eq.
  split.
  - unfold eligible. rewrite Hg1. cbn.
    rewrite andb_true_r. apply eq_true_iff_eq.
    rewrite negb_true_iff, Z.ltb_ge, Z.leb_le. reflexivity.
  - intros Hearly. pose proof (dequeue_sound t workerId types s1) as H.
    destruct (fst (handleDequeue t workerId types s1)) as [| [job'|] | | |];
      try contradiction.
    + destruct H as (jobId0 & job0 & Hg0 & _ & Hok & ->).
      destruct (String.eqb_spec jobId0 jobId) as [->|Hne].
      * exfalso. unfold eligible in Hok. rewrite Hg1 in Hok.
        cbn in Hok.
        apply andb_true_iff in Hok as [Hok _].
        apply negb_true_iff, Z.ltb_ge in Hok. lia.
      * now rewrite get_set_ne.
    + now rewrite H.
Qed.

Lemma retried_job_waits_for_backoff_witness :
  eligible 2999 None
    (jobs (snd (fst (handleFail QueueScenario.env 2000 QueueScenario.jobA
                       "boom" None QueueScenario.oneJob))))
    QueueScenario.jobA
  = false.
Proof.
  assert (Hvalid : - 8640000000000000 <= 2000 + 2 ^ 0 * 1000
                   <= 8640000000000000) by lia.
  rewrite (proj1 (retried_job_waits_for_backoff QueueScenario.env 2000
                    QueueScenario.jobA "boom" None QueueScenario.oneJob
                    (newJob 1000 QueueScenario.jobA RepoSync "{}" (Some High)
                            3 None)
                    2999 "worker-1" None eq_refl (Z.le_refl 0) Hvalid
                    eq_refl)).
  reflexivity.
Defined.

(** *** The sweep *)

Lemma eligible_alarm now t types s jobId :
  now <= t ->
  eligible t types (jobs (alarm now s)) jobId
  = eligible t types (jobs s) jobId.
Proof.
  intros Hle. unfold eligible, alarm. cbn [jobs].
  rewrite (get_map_values (promote now)).
  destruct (get jobId (jobs s)) as [job|]; [|reflexivity]. cbn [option_map].
  unfold promote. destruct (j_scheduledFor job) as [at_|] eqn:Hat;
    [|now rewrite Hat].
  destruct (jobStatus_eqb (j_status job) Pending && (at_ <=? now)) eqn:Hdue;
    [|now rewrite Hat].
  cbn. apply andb_true_iff in Hdue as [-> Hdue]. apply Z.leb_le in Hdue.
  assert (Hnot : (t <? at_) = false) by (apply Z.ltb_ge; lia).
  now rewrite Hnot.
Qed.

Lemma find_ext {A} (f g : A -> bool) (l : list A) :
  (forall x, f x = g x) -> find f l = find g l.
Proof.
  intros H. induction l as [|x l IH]; simpl; [reflexivity|].
  now rewrite H, IH.
Qed.

(** X15.  The sweep changes nothing that [dequeue] can see: at any time
    not before the sweep, the job handed out is the same with and without
    it.  Clearing the schedule of a due job is redundant, since a due
    schedule does not hold a job back. *)
Theorem sweep_is_invisible_to_dequeue now t workerId types s :
  now <= t ->
  dequeuedId (fst (handleDequeue t workerId types (alarm now s)))
  = dequeuedId (fst (handleDequeue t workerId types s)).
Proof.
  intros Hle. unfold handleDequeue.
  pose proof (dequeueFrom_find t types laneOrder s) as H.
  pose proof (dequeueFrom_find t types laneOrder (alarm now s)) as H'.
  rewrite (find_ext (eligible t types (jobs (alarm now s)))
                    (eligible t types (jobs s))) in H'
    by (intros x; now apply eligible_alarm).
  change (priorityQueues (alarm now s)) with (priorityQueues s) in H'.
  destruct (find _ _) as [jobId|].
  - destruct H as (job & Hg & -> & _). destruct H' as (job' & Hg' & -> & _).
    unfold alarm in Hg'. cbn [jobs] in Hg'.
    rewrite (get_map_values (promote now)), Hg in Hg'.
    injection Hg' as <-. cbn. f_equal. unfold promote.
    destruct (j_scheduledFor job); [|reflexivity].
    now destruct (_ && _).
  - now rewrite H, H'.
Qed.

Lemma sweep_is_invisible_to_dequeue_witness :
  let s := snd (handleSchedule 1000 QueueScenario.uuidB HealthCheck "{}" 4000
                  None QueueScenario.oneJob) in
  dequeuedId (fst (handleDequeue 5000 "worker-1" (Some [HealthCheck])
                     (alarm 4500 s)))
  = dequeuedId (fst (handleDequeue 5000 "worker-1" (Some [HealthCheck]) s)).
Proof.
  intros s.
  apply (sweep_is_invisible_to_dequeue 4500 5000 "worker-1"
           (Some [HealthCheck]) s).
  lia.
Defined.

(** *** Enqueue, schedule and dequeue *)

Lemma find_only {A} (f : A -> bool) (l : list A) y :
  (forall x, In x l -> f x = true -> x = y) -> In y l -> f y = true ->
  find f l = Some y.
Proof.
  intros Huniq Hin Hy. induction l as [|x l IH]; simpl; [easy|].
  destruct (f x) eqn:Hx.
  - f_equal. apply Huniq; [now left|assumption].
  - destruct Hin as [->|Hin]; [congruence|].
    apply IH; [|assumption]. intros z Hz. apply Huniq. now right.
Qed.

Lemma find_none_all {A} (f : A -> bool) (l : list A) :
  (forall x, f x = false) -> find f l = None.
Proof.
  intros H. induction l as [|x l IH]; simpl; [reflexivity|].
  now rewrite H.
Qed.

Lemma insertJob_in_lanes job s :
  In (j_id job)
     (concat (map (fun p => lane p (priorityQueues (insertJob job s)))
                  laneOrder)).
Proof.
  unfold insertJob, laneOrder. cbn [priorityQueues map concat].
  destruct (j_priority job); cbn [setLane lane critical high normal low];
    rewrite ?app_nil_r, ?in_app_iff; cbn [In]; auto 10.
Qed.

(** On a queue that has nothing to hand out at time [t], a job just
    inserted is handed out exactly if it is itself due and asked for. *)
Lemma insert_then_dequeue job t workerId types s :
  (forall k, eligible t types (jobs s) k = false) ->
  handleDequeue t workerId types (insertJob job s)
  = if eligible t types [(j_id job, job)] (j_id job)
    then (DequeueOk (Some (startedJob job t)),
          snd (handleDequeue t workerId types (insertJob job s)))
    else (DequeueOk None, insertJob job s).
Proof.
  intros Hnone. unfold handleDequeue.
  pose proof (dequeueFrom_find t types laneOrder (insertJob job s)) as H.
  assert (Hown : eligible t types (jobs (insertJob job s)) (j_id job)
                 = eligible t types [(j_id job, job)] (j_id job)).
  { unfold eligible, insertJob. cbn [jobs]. rewrite get_set_eq.
    cbn [get]. now rewrite String.eqb_refl. }
  assert (Hother : forall k, k <> j_id job ->
                     eligible t types (jobs (insertJob job s)) k = false).
  { intros k Hne. rewrite <- (Hnone k). unfold eligible, insertJob.
    cbn [jobs]. rewrite get_set_ne; [reflexivity|congruence]. }
  destruct (eligible t types [(j_id job, job)] (j_id job)) eqn:Hok.
  - rewrite (find_only _ _ (j_id job)) in H.
    + destruct H as (job0 & Hg & Hresp & _).
      unfold insertJob in Hg. cbn [jobs] in Hg. rewrite get_set_eq in Hg.
      injection Hg as <-.
      destruct (dequeueFrom t types laneOrder (insertJob job s)).
      cbn [fst snd] in *. now rewrite Hresp.
    + intros x _ Hx. destruct (String.eqb_spec x (j_id job)); [assumption|].
      rewrite Hother in Hx; [discriminate|assumption].
    + apply insertJob_in_lanes.
    + assumption.
  - rewrite find_none_all in H; [assumption|].
    intros x. destruct (String.eqb_spec x (j_id job)) as [->|Hne];
      [congruence|now apply Hother].
Qed.

(** X16.  Enqueue then dequeue is a round trip: on a queue that has
    nothing to hand out, the job just enqueued is what the next dequeue
    returns (if its type is among those asked for), now processing, with
    the id [job-] followed by the first 12 characters of the UUID, the
    priority defaulting to normal and the retry limit to 3. *)
Theorem enqueued_job_is_dequeued
    now uuid type payload priority maxRetries t workerId types s :
  (forall k, eligible t types (jobs s) k = false) ->
  (forall ts, types = Some ts -> In type ts) ->
  fst (handleDequeue t workerId types
         (snd (handleEnqueue now uuid type payload priority maxRetries s)))
  = DequeueOk
      (Some (mkJob ("job-" ++ substring 0 12 uuid)%string type payload
                   (match priority with Some p => p | None => Normal end)
                   Processing 0
                   (match maxRetries with Some m => m | None => 3 end)
                   now None (Some t) None None None)).
Proof.
  intros Hnone Htypes. unfold handleEnqueue. cbn [snd].
  rewrite insert_then_dequeue by assumption.
  unfold eligible, newJob. cbn [get j_id]. rewrite String.eqb_refl.
  cbn [j_status jobStatus_eqb j_scheduledFor negb andb j_type].
  assert (Hty : match types with
                | Some ts => existsb (jobType_eqb type) ts
                | None => true
                end = true).
  { destruct types as [ts|]; [|reflexivity]. apply existsb_exists.
    exists type. split; [now apply Htypes|now apply jobType_eqb_eq]. }
  rewrite Hty. reflexivity.
Qed.

Lemma enqueued_job_is_dequeued_witness :
  dequeuedId
    (fst (handleDequeue 1500 "worker-1" (Some [RepoScrape; RepoSync])
            QueueScenario.oneJob))
  = Some QueueScenario.jobA.
Proof.
  unfold QueueScenario.oneJob.
  rewrite (enqueued_job_is_dequeued 1000 QueueScenario.uuidA RepoSync "{}"
             (Some High) None 1500 "worker-1" (Some [RepoScrape; RepoSync])
             init).
  - reflexivity.
  - reflexivity.
  - intros ts [= <-]. right. now left.
Defined.

(** X17.  A scheduled job is held back until its time: on a queue that
    has nothing else to hand out, a dequeue before [scheduledFor] returns
    no job and changes nothing, and a dequeue at or after it returns the
    scheduled job. *)
Theorem scheduled_job_is_held_until_due
    now uuid type payload scheduledFor priority t workerId s :
  (forall k, eligible t None (jobs s) k = false) ->
  let s1 := snd (handleSchedule now uuid type payload scheduledFor priority s)
  in
  (t < scheduledFor ->
   handleDequeue t workerId None s1 = (DequeueOk None, s1))
  /\ (scheduledFor <= t ->
      dequeuedId (fst (handleDequeue t workerId None s1))
      = Some ("job-" ++ substring 0 12 uuid)%string).
Proof.
  intros Hnone. unfold handleSchedule. cbn [snd].
  split; intros Ht; rewrite insert_then_dequeue by assumption;
    unfold eligible, newJob; cbn [get j_id]; rewrite String.eqb_refl;
    cbn [j_status jobStatus_eqb j_scheduledFor andb].
  - assert (Hlt : (t <? scheduledFor) = true) by now apply Z.ltb_lt.
    now rewrite Hlt.
  - assert (Hlt : (t <? scheduledFor) = false) by now apply Z.ltb_ge.
    now rewrite Hlt.
Qed.

Lemma scheduled_job_is_held_until_due_witness :
  let s1 := snd (handleSchedule 1000 QueueScenario.uuidB HealthCheck "{}"
                   4000 None init) in
  handleDequeue 3999 "worker-1" None s1 = (DequeueOk None, s1).
Proof.
  intros s1.
  apply (proj1 (scheduled_job_is_held_until_due 1000 QueueScenario.uuidB
                  HealthCheck "{}" 4000 None 3999 "worker-1" init
                  (fun k => eq_refl))).
  lia.
Defined.

End QueueMore.

(** ** The self-healer: signatures, strategy order, bookkeeping *)

Module HealerMore.

Import JsMap JsMapFacts JsString JsStringFacts SelfHealer SelfHealerOps.
Import HealerScenario HealerSpec.
Local Open Scope list_scope.

(** *** Signatures *)

Lemma replaceFrom_keeps (P : ascii -> Prop) m replacement s :
  Forall P replacement -> Forall P s ->
  forall skip, Forall P (replaceFrom m replacement skip s).
Proof.
  intros Hrep Hs. induction Hs as [|c rest Hc Hrest IH]; intros skip;
    [constructor|].
  cbn [replaceFrom]. destruct skip as [|k]; [|apply IH].
  destruct (m (c :: rest)) as [[|len]|].
  - constructor; [assumption|apply IH].
  - apply Forall_app. split; [assumption|apply IH].
  - constructor; [assumption|apply IH].
Qed.

Lemma replace_digits_leaves_none s :
  forall skip,
    Forall (fun c => isDigit c = false)
           (replaceFrom matchDigits (list_ascii_of_string "<N>") skip s).
Proof.
  induction s as [|c rest IH]; intros skip; [constructor|].
  cbn [replaceFrom]. destruct skip as [|k]; [|apply IH].
  unfold matchDigits. cbn [span].
  destruct (isDigit c) eqn:Hc.
  - apply Forall_app. split; [|apply IH].
    repeat constructor.
  - constructor; [assumption|apply IH].
Qed.

(** X18.  An error signature is at most 200 characters long and holds no
    decimal digit: every run of digits of the error text has become [<N>],
    and none of the later rewritings brings a digit back. *)
Theorem signature_is_short_and_digit_free err :
  (String.length (extractErrorPattern err) <= 200)%nat
  /\ Forall (fun c => isDigit c = false)
            (list_ascii_of_string (extractErrorPattern err)).
Proof.
  unfold extractErrorPattern. split.
  - rewrite <- length_list_ascii, list_ascii_of_string_of_list_ascii.
    apply firstn_le_length.
  - rewrite list_ascii_of_string_of_list_ascii.
    assert (Hfirstn : forall l : list ascii,
               Forall (fun c => isDigit c = false) l ->
               Forall (fun c => isDigit c = false) (firstn 200 l)).
    { intros l Hl. rewrite <- (firstn_skipn 200 l) in Hl.
      now apply Forall_app in Hl as [Hfront _]. }
    apply Hfirstn. unfold replaceAll.
    apply replaceFrom_keeps; [repeat constructor|].
    apply replaceFrom_keeps; [repeat constructor|].
    apply replace_digits_leaves_none.
Qed.

(** *** The order of the strategies *)

Lemma runCalls_quiet env calls :
  (forall c, throws env c = false) -> runCalls env calls = (calls, true).
Proof.
  intros Hq. induction calls as [|c rest IH]; [reflexivity|].
  cbn [runCalls]. now rewrite Hq, IH.
Qed.

Lemma success_resolveResult st issue : success (resolveResult st issue) = true.
Proof. now destruct st. Qed.

Lemma attemptWith_quiet env now issue sts :
  (forall c, throws env c = false) ->
  attemptWith env now issue sts
  = match find (fun st => canResolve st issue) sts with
    | Some st => (resolveCalls st now issue, resolveResult st issue)
    | None => ([], noResolution)
    end.
Proof.
  intros Hq. induction sts as [|st rest IH]; [reflexivity|].
  cbn [attemptWith find]. destruct (canResolve st issue); [|assumption].
  now rewrite (runCalls_quiet env _ Hq), success_resolveResult.
Qed.

(** X19.  When no collaborator raises, the first strategy of the list
    whose predicate holds decides alone: its requests are the only ones
    sent and its result is the answer; the later strategies are not
    consulted.  The attempt fails exactly when no predicate holds. *)
Theorem first_applicable_strategy_wins env now issue :
  (forall c, throws env c = false) ->
  attemptAutoResolution env now issue
  = match firstApplicable issue with
    | Some st => (resolveCalls st now issue, resolveResult st issue)
    | None => ([], noResolution)
    end
  /\ (success (snd (attemptAutoResolution env now issue)) = false
      <-> forall st, canResolve st issue = false).
Proof.
  intros Hq. unfold attemptAutoResolution, firstApplicable.
  rewrite (attemptWith_quiet env now issue strategies Hq). split;
    [reflexivity|].
  destruct (find _ strategies) as [st|] eqn:Hfind; cbn [snd].
  - rewrite success_resolveResult. apply find_some in Hfind as [_ Hst].
    split; [discriminate|]. intros H. rewrite H in Hst. discriminate.
  - split; [|reflexivity]. intros _ st.
    apply (find_none _ _ Hfind). destruct st; cbn; auto 10.
Qed.

Lemma first_applicable_strategy_wins_witness :
  action (snd (attemptAutoResolution quiet 1000
                 (issueOf "sync" "401 unauthorized after timeout")))
  = "Scheduled retry"%string.
Proof.
  rewrite (proj1 (first_applicable_strategy_wins quiet 1000
                    (issueOf "sync" "401 unauthorized after timeout")
                    (fun c => eq_refl))).
  reflexivity.
Defined.

(** *** Reports made for failed tasks and dead jobs *)

Lemma runCalls_sub env calls c :
  In c (fst (runCalls env calls)) -> In c calls.
Proof.
  induction calls as [|c0 rest IH]; cbn [runCalls]; [easy|].
  destruct (throws env c0).
  - intros [<-|[]]. now left.
  - destruct (runCalls env rest) as [sent ok]. cbn [fst] in *.
    intros [<-|H]; [now left|right; now apply IH].
Qed.

Lemma attemptWith_calls env now issue sts c :
  In c (fst (attemptWith env now issue sts)) ->
  exists st, In c (resolveCalls st now issue).
Proof.
  induction sts as [|st rest IH]; cbn [attemptWith]; [easy|].
  destruct (canResolve st issue); [|assumption].
  pose proof (runCalls_sub env (resolveCalls st now issue) c) as Hsub.
  destruct (runCalls env (resolveCalls st now issue)) as [sent ok].
  cbn [fst] in Hsub.
  destruct (ok && success (resolveResult st issue)).
  - cbn [fst]. intros H. exists st. now apply Hsub.
  - destruct (attemptWith env now issue rest) as [sent' r]. cbn [fst] in *.
    intros H. apply in_app_or in H as [H|H]; [|now apply IH].
    exists st. now apply Hsub.
Qed.

Lemma report_calls env now uuid body s c :
  In c (snd (handleReportError env now uuid body s)) ->
  (exists st,
      In c (resolveCalls st now (snd (trackPattern now body
                                                    (errorPatterns s)))))
  \/ exists e l p, c = CoordinatorSubmit e l p.
Proof.
  unfold handleReportError.
  destruct (trackPattern now body (errorPatterns s)) as [patterns issue].
  cbn [snd].
  pose proof (attemptWith_calls env now issue strategies c) as Hsent.
  fold (attemptAutoResolution env now issue) in Hsent.
  destruct (attemptAutoResolution env now issue) as [sent result].
  cbn [fst] in Hsent.
  destruct (success result); cbn [snd]; [now left; apply Hsent|].
  unfold escalate. destruct (truthy _); cbn [snd];
    rewrite ?app_nil_r; [|now left; apply Hsent].
  intros H. apply in_app_or in H as [H|H]; [now left; apply Hsent|].
  right. destruct H as [<-|[]]. unfold requestAIAnalysis. eauto.
Qed.

Lemma tracked_issue now body patterns :
  let issue := snd (trackPattern now body patterns) in
  i_type issue = i_type body
  /\ i_error issue = i_error body
  /\ match i_metadata issue with Some md => agentId md | None => None end
     = match i_metadata body with Some md => agentId md | None => None end.
Proof.
  unfold trackPattern.
  destruct (get _ patterns); cbn; [|now repeat split].
  repeat split. now destruct (i_metadata body).
Qed.

(** X20.  The reports the healer makes for a failed task or a dead job
    have the types [task:...] and [job:...], never [task], and carry no
    agent id.  So whatever retry such a report schedules is a job of type
    [agent:resolve], never [agent:task], and whatever heartbeat it sends
    to restart an agent names no agent. *)
Theorem failure_reports_never_name_task_or_agent
    env now uuid id type err retryCount timestamp s c :
  In c (snd (handleTaskFailed env now uuid id type err timestamp s))
  \/ In c (snd (handleDeadJob env now uuid id type err retryCount
                              timestamp s)) ->
  match c with
  | QueueSchedule jobType _ _ _ _ => jobType = "agent:resolve"%string
  | CoordinatorHeartbeat agent _ => agent = None
  | _ => True
  end.
Proof.
  unfold handleTaskFailed, handleDeadJob.
  intros [H|H]; apply report_calls in H as [[st H]|(e & l & p & ->)];
    try exact I.
  - destruct (tracked_issue now (taskFailedIssue id type err timestamp)
                            (errorPatterns s)) as (Hty & _ & Hagent).
    destruct st; cbn [resolveCalls In] in H;
      repeat (destruct H as [<-|H]; try exact I); try contradiction.
    + now rewrite Hty.
    + now rewrite Hagent.
  - destruct (tracked_issue now
                (deadJobIssue id type err retryCount timestamp)
                (errorPatterns s)) as (Hty & _ & Hagent).
    destruct st; cbn [resolveCalls In] in H;
      repeat (destruct H as [<-|H]; try exact I); try contradiction.
    + now rewrite Hty.
    + now rewrite Hagent.
Qed.

Lemma failure_reports_never_name_task_or_agent_witness :
  let c := QueueSchedule "agent:resolve" "network timeout"
             (Some (mkMetadata None None
                      [("taskId", "task-7f3e9a10-5b2");
                       ("taskType", "task")]))
             6000 "high" in
  In c (snd (handleTaskFailed quiet 1000 "id-1" "task-7f3e9a10-5b2" "task"
                              "network timeout" "2026-01-01T00:00:00.000Z"
                              init))
  /\ match c with
     | QueueSchedule jobType _ _ _ _ => jobType = "agent:resolve"%string
     | CoordinatorHeartbeat agent _ => agent = None
     | _ => True
     end.
Proof.
  intros c.
  assert (Hin : In c (snd (handleTaskFailed quiet 1000 "id-1"
                             "task-7f3e9a10-5b2" "task" "network timeout"
                             "2026-01-01T00:00:00.000Z" init)))
    by (vm_compute; left; reflexivity).
  split; [exact Hin|].
  apply (failure_reports_never_name_task_or_agent quiet 1000 "id-1"
           "task-7f3e9a10-5b2" "task" "network timeout" 0
           "2026-01-01T00:00:00.000Z" init c).
  left. exact Hin.
Defined.

(** *** The counters *)

Lemma report_metrics env now uuid body s :
  let s' := report env now uuid body s in
  m_totalErrors (metrics s') = m_totalErrors (metrics s) + 1
  /\ (if resp_autoResolved (responseTo env now uuid body s)
      then m_autoResolved (metrics s') = m_autoResolved (metrics s) + 1
           /\ m_escalated (metrics s') = m_escalated (metrics s)
           /\ escalations s' = escalations s
      else m_autoResolved (metrics s') = m_autoResolved (metrics s)
           /\ m_escalated (metrics s') = m_escalated (metrics s) + 1
           /\ escalations s'
              = escalations s
                ++ [mkEscalation ("esc-" ++ substring 0 8 uuid)
                                 (i_error body) (determineSeverity body) 1
                                 now None None]).
Proof.
  unfold report, responseTo, handleReportError.
  destruct (tracked_issue now body (errorPatterns s)) as (_ & Herr & _).
  destruct (trackPattern now body (errorPatterns s)) as [patterns issue].
  cbn [snd] in Herr.
  destruct (attemptAutoResolution env now issue) as [sent result].
  destruct (success result) eqn:Hs; cbn; rewrite ?Hs; [now repeat split|].
  repeat split. unfold determineSeverity. now rewrite Herr.
Qed.

Lemma resolveFirst_found escalationId now l found l' :
  resolveFirst escalationId now l = Some (found, l') ->
  exists front e back,
    l = front ++ e :: back
    /\ e_id e = escalationId
    /\ (forall x, In x front -> e_id x <> escalationId)
    /\ found = resolved e now
    /\ l' = front ++ found :: back.
Proof.
  revert found l'. induction l as [|e rest IH]; intros found l';
    cbn [resolveFirst]; [discriminate|].
  destruct (String.eqb_spec (e_id e) escalationId) as [Heq|Hne].
  - intros [= <- <-]. exists [], e, rest. repeat split; try assumption.
    intros x [].
  - destruct (resolveFirst escalationId now rest) as [[found0 rest']|];
      [|discriminate].
    intros [= <- <-].
    destruct (IH found0 rest' eq_refl) as (front & e0 & back & -> & Hid
                                            & Hfront & Hfound & ->).
    exists (e :: front), e0, back. repeat split; try assumption.
    intros x [<-|Hx]; [assumption|now apply Hfront].
Qed.

Lemma resolveFirst_missing escalationId now l :
  resolveFirst escalationId now l = None ->
  forall x, In x l -> e_id x <> escalationId.
Proof.
  induction l as [|e rest IH]; cbn [resolveFirst]; [intros _ x []|].
  destruct (String.eqb_spec (e_id e) escalationId) as [Heq|Hne];
    [discriminate|].
  destruct (resolveFirst escalationId now rest) as [[found0 rest']|];
    [discriminate|].
  intros _ x [<-|Hx]; [assumption|now apply IH].
Qed.

Lemma active_app l1 e l2 m ms :
  activeEscalations (mkHealer m ms (l1 ++ e :: l2))
  = activeEscalations (mkHealer m ms l1)
    + (match e_resolvedAt e with Some _ => 0 | None => 1 end)
    + activeEscalations (mkHealer m ms l2).
Proof.
  unfold activeEscalations. cbn [escalations].
  rewrite filter_app, length_app. cbn [filter].
  destruct (e_resolvedAt e); cbn [length]; lia.
Qed.

(** X21.  [resolve] stamps the first escalation that has the given id,
    and only that one, with the resolution time, whether or not it was
    resolved before; the number of active escalations drops by one if it
    was not, and patterns and counters are untouched.  When no escalation
    has the id the answer is [Escalation not found] and nothing changes. *)
Theorem resolve_stamps_first_match now escalationId s :
  match handleResolveEscalation now escalationId s with
  | (inl found, s') =>
      exists front e back,
        escalations s = front ++ e :: back
        /\ e_id e = escalationId
        /\ (forall x, In x front -> e_id x <> escalationId)
        /\ found = resolved e now
        /\ escalations s' = front ++ found :: back
        /\ activeEscalations s'
           = match e_resolvedAt e with
             | Some _ => activeEscalations s
             | None => activeEscalations s - 1
             end
        /\ errorPatterns s' = errorPatterns s
        /\ metrics s' = metrics s
  | (inr msg, s') =>
      msg = "Escalation not found"%string /\ s' = s
      /\ forall x, In x (escalations s) -> e_id x <> escalationId
  end.
Proof.
  unfold handleResolveEscalation.
  destruct (resolveFirst escalationId now (escalations s))
    as [[found l']|] eqn:Hfind.
  - destruct (resolveFirst_found _ _ _ _ _ Hfind)
      as (front & e & back & Hl & Hid & Hfront & -> & ->).
    exists front, e, back. repeat split; try assumption.
    destruct s as [patterns ms l]. cbn [escalations] in Hl. subst l.
    cbn [errorPatterns metrics]. rewrite !active_app. cbn [resolved e_resolvedAt].
    destruct (e_resolvedAt e); lia.
  - repeat split. now apply (resolveFirst_missing _ now).
Qed.

Lemma resolveFirst_app_miss escalationId now l l2 :
  (forall x, In x l -> e_id x <> escalationId) ->
  resolveFirst escalationId now (l ++ l2)
  = match resolveFirst escalationId now l2 with
    | Some (found, rest) => Some (found, l ++ rest)
    | None => None
    end.
Proof.
  intros Hmiss. induction l as [|e rest IH]; cbn [app resolveFirst].
  - now destruct (resolveFirst escalationId now l2) as [[? ?]|].
  - destruct (String.eqb_spec (e_id e) escalationId) as [Heq|_].
    + exfalso. apply (Hmiss e); [now left|assumption].
    + rewrite IH by (intros x Hx; apply Hmiss; now right).
      now destruct (resolveFirst escalationId now l2) as [[? ?]|].
Qed.

(** X22.  Escalate then resolve is a round trip: a report that is not
    resolved automatically adds one active escalation with the id [esc-]
    followed by the first 8 characters of the UUID; if no earlier
    escalation has that id, resolving it returns that escalation, stamped
    with the resolution time, and the number of active escalations is
    back to what it was before the report. *)
Theorem escalated_report_can_be_resolved env now uuid body s now' :
  resp_autoResolved (responseTo env now uuid body s) = false ->
  (forall x, In x (escalations s) ->
             e_id x <> ("esc-" ++ substring 0 8 uuid)%string) ->
  let s1 := report env now uuid body s in
  let r := handleResolveEscalation now' ("esc-" ++ substring 0 8 uuid) s1 in
  activeEscalations s1 = activeEscalations s + 1
  /\ fst r = inl (mkEscalation ("esc-" ++ substring 0 8 uuid) (i_error body)
                               (determineSeverity body) 1 now None
                               (Some now'))
  /\ activeEscalations (snd r) = activeEscalations s.
Proof.
  intros Hnot Hfresh s1 r. subst r.
  pose proof (report_metrics env now uuid body s) as (_ & Hesc).
  rewrite Hnot in Hesc. destruct Hesc as (_ & _ & Hesc). fold s1 in Hesc.
  unfold handleResolveEscalation. rewrite Hesc.
  rewrite resolveFirst_app_miss by assumption.
  cbn [resolveFirst e_id]. rewrite String.eqb_refl. cbn [fst snd].
  destruct s1 as [patterns1 ms1 l1]. cbn [escalations] in Hesc. subst l1.
  destruct s as [patterns ms l]. cbn [escalations errorPatterns metrics] in *.
  unfold activeEscalations. cbn [escalations].
  rewrite !filter_app, !length_app. cbn. repeat split; lia.
Qed.

Lemma escalated_report_can_be_resolved_witness :
  activeEscalations
    (snd (handleResolveEscalation 2000 "esc-1d-1"
            (report quiet 1000 "1d-1" (issueOf "disk" "disk is purple")
                    init)))
  = activeEscalations init.
Proof.
  apply (escalated_report_can_be_resolved quiet 1000 "1d-1"
           (issueOf "disk" "disk is purple") init 2000).
  - reflexivity.
  - intros x [].
Defined.

(** X23.  Every report is counted once, and once more either as
    resolved automatically or as escalated.  So after any sequence of
    reports, task-failure and dead-job reports, resolutions and pattern
    resets from the initial state, [totalErrors] is [autoResolved] plus
    [escalated], [escalated] is the number of escalations stored, and the
    number of active escalations does not exceed it. *)
Theorem every_report_is_resolved_or_escalated env evs :
  let s := run env evs init in
  m_totalErrors (metrics s)
  = m_autoResolved (metrics s) + m_escalated (metrics s)
  /\ m_escalated (metrics s) = Z.of_nat (length (escalations s))
  /\ 0 <= activeEscalations s <= m_escalated (metrics s).
Proof.
  intros s. subst s.
  assert (Hinv : forall s,
            m_totalErrors (metrics s)
            = m_autoResolved (metrics s) + m_escalated (metrics s)
            /\ m_escalated (metrics s) = Z.of_nat (length (escalations s)) ->
            let s' := run env evs s in
            m_totalErrors (metrics s')
            = m_autoResolved (metrics s') + m_escalated (metrics s')
            /\ m_escalated (metrics s')
               = Z.of_nat (length (escalations s'))).
  { unfold run. induction evs as [|[now r] evs IH]; intros s Hs;
      [exact Hs|].
    cbn [fold_left]. apply IH. clear IH.
    assert (Hreport : forall uuid body,
              let s' := report env now uuid body s in
              m_totalErrors (metrics s')
              = m_autoResolved (metrics s') + m_escalated (metrics s')
              /\ m_escalated (metrics s')
                 = Z.of_nat (length (escalations s'))).
    { intros uuid body s'. subst s'.
      destruct (report_metrics env now uuid body s) as (Htotal & Hcase).
      destruct (resp_autoResolved _); destruct Hcase as (Ha & He & Hl);
        rewrite Hl, ?length_app; cbn -[Z.of_nat]; lia. }
    destruct r; cbn [step].
    - apply Hreport.
    - apply Hreport.
    - apply Hreport.
    - unfold handleResolveEscalation.
      destruct (resolveFirst escalationId now (escalations s))
        as [[found l']|] eqn:Hfind; cbn [snd]; [|exact Hs].
      destruct (resolveFirst_found _ _ _ _ _ Hfind)
        as (front & e & back & Hl & _ & _ & _ & ->).
      cbn [metrics escalations]. rewrite Hl in Hs.
      rewrite length_app in *. cbn [length] in *. exact Hs.
    - exact Hs. }
  destruct (Hinv init (conj eq_refl eq_refl)) as (Htotal & Hesc).
  repeat split; try assumption.
  - unfold activeEscalations. lia.
  - rewrite Hesc. unfold activeEscalations.
    pose proof (filter_length_le
                  (fun e => match e_resolvedAt e with
                            | Some _ => false
                            | None => true
                            end)
                  (escalations (run env evs init))).
    lia.
Qed.

(** *** Pattern reset *)

(** X24.  Clearing the patterns restarts the counting: every signature
    counts 0 afterwards, the next report of any error counts as its first
    and reaches the strategies without a repeat count of the healer's, so
    the circuit breaker is not tripped by what was seen before the reset.
    Counters and escalations are kept. *)
Theorem clear_patterns_restarts_counting env now uuid body s :
  let s0 := handleClearPatterns s in
  metrics s0 = metrics s
  /\ escalations s0 = escalations s
  /\ (forall key, countOf key s0 = 0)
  /\ countOf (extractErrorPattern (i_error body))
             (report env now uuid body s0) = 1
  /\ snd (trackPattern now body (errorPatterns s0)) = body.
Proof.
  intros s0. repeat split.
  destruct (report_counts env now uuid body s0) as (Hc & _).
  rewrite Hc. reflexivity.
Qed.

End HealerMore.
